(** * FileSync: the synchronisation core, embedded and verified

    The development follows the Python sources module by module:

    - [Paths]      path predicates used by the directory walk
                   (src/sync/local.py, [_get_files_list]);
    - [Database]   the tables of src/core/database.py the core touches
                   ([file_states], [sync_history], [sync_file_operations]);
    - [Local]      the local engine, src/sync/local.py ([LocalSyncManager]);
    - [Service]    src/sync/service.py ([SyncService.sync_config]);
    - [Monitor]    the size-stability logic of src/core/file_monitor.py;
    - [Scheduler]  src/core/scheduler.py and the trigger entry point of
                   src/core/orchestrator.py, as a transition system.

    Dictionaries are finite maps ([gmap]); SQL tables with a unique key are
    finite maps on that key; the append-only tables are lists.  Code with
    side effects is written in state-passing style over a [world] record.
    The operating system's failures (a copy that raises, a directory that
    cannot be created) are read from an environment [env], so a theorem
    can quantify over the failure patterns it holds for. *)

From stdpp Require Import gmap strings list fin_maps.
From Stdlib Require Import ZArith Lia Ascii.

Local Open Scope string_scope.
Local Open Scope Z_scope.

(* ===================================================================== *)
(** * Paths *)
(* ===================================================================== *)

Module Paths.

(** [hidden_from at_start s]: some path component of [s] starts with a
    dot, where [at_start] tells whether the scan stands at the first
    character of a component.  The walk of [_get_files_list] prunes every
    directory whose name starts with '.' and skips every such file name,
    so a relative path is listed exactly when none of its components
    starts with a dot. *)
Fixpoint hidden_from (at_start : bool) (s : string) : bool :=
  match s with
  | EmptyString => false
  | String c rest =>
      if Ascii.eqb c "/"%char then hidden_from true rest
      else if at_start && Ascii.eqb c "."%char then true
      else hidden_from false rest
  end.

Definition hidden (rel_path : string) : bool := hidden_from true rel_path.

(** [target_file + ".bak"] in [_copy_file]. *)
Definition backup_name (rel_path : string) : string := rel_path +:+ ".bak".

End Paths.

(* ===================================================================== *)
(** * The database tables *)
(* ===================================================================== *)

Module Database.

(** Counters of one run ([self.sync_stats]). *)
Record sync_stats := {
  copied : nat; updated : nat; deleted : nat; skipped : nat; errors : nat
}.

Definition stats0 : sync_stats :=
  {| copied := 0; updated := 0; deleted := 0; skipped := 0; errors := 0 |}.

(** Row of [file_states]; the pair (config_id, file_path) is the key of
    the table (UNIQUE(config_id, file_path)). *)
Record file_state := {
  file_hash : option string;
  modified_time : Z;
  sync_status : string
}.

(** The message column of [sync_history].  The sources build the text
    with f-strings; the embedding keeps which message it is and the
    numbers it carries. *)
Inductive message :=
| MsgEngineStart
| MsgSourceMissing
| MsgTargetFolderFailed
| MsgEngineDone (s : sync_stats)
| MsgServiceStart
| MsgServiceDone (s : sync_stats)
| MsgServiceDonePlain (success : bool)
| MsgServiceError
| MsgSchedulerStart
| MsgSchedulerDone (status : string)
| MsgSchedulerError
| MsgTimeout
| MsgDetected (rel_path : string).

Record history_row := {
  h_config_id : Z;
  h_status : string;
  h_message : message;
  h_files_count : nat;
  h_files_processed : nat;
  h_files_copied : nat;
  h_files_updated : nat;
  h_files_deleted : nat;
  h_errors : nat;
  h_end_time : option Z
}.

Record file_operation := {
  op_history_id : nat;
  operation_type : string;
  op_file_path : string;
  op_file_size : Z;
  op_status : string
}.

(** What [SyncService] reads from a row of [sync_configs]. *)
Record config := {
  target_type : string;
  target_path : option string;        (* target_settings['path'] or target_path *)
  delete_missing : bool               (* normalised by _int_to_bool *)
}.

Record database := {
  sync_configs : gmap Z config;
  file_states : gmap (Z * string) file_state;
  sync_history : list history_row;    (* row with id [i+1] at index [i] *)
  sync_file_operations : list file_operation
}.

Definition with_file_states (fs : gmap (Z * string) file_state) (d : database) : database :=
  {| sync_configs := sync_configs d; file_states := fs;
     sync_history := sync_history d;
     sync_file_operations := sync_file_operations d |}.

Definition with_sync_history (h : list history_row) (d : database) : database :=
  {| sync_configs := sync_configs d; file_states := file_states d;
     sync_history := h;
     sync_file_operations := sync_file_operations d |}.

Definition with_file_operations (o : list file_operation) (d : database) : database :=
  {| sync_configs := sync_configs d; file_states := file_states d;
     sync_history := sync_history d;
     sync_file_operations := o |}.

Definition get_sync_config (config_id : Z) (d : database) : option config :=
  sync_configs d !! config_id.

(** [add_sync_history]: INSERT, returns [cursor.lastrowid]. *)
Definition new_row (config_id : Z) (status : string) (msg : message)
    (end_time : option Z) : history_row :=
  {| h_config_id := config_id; h_status := status; h_message := msg;
     h_files_count := 0; h_files_processed := 0; h_files_copied := 0;
     h_files_updated := 0; h_files_deleted := 0; h_errors := 0;
     h_end_time := end_time |}.

Definition add_sync_history (config_id : Z) (status : string) (msg : message)
    (end_time : option Z) (d : database) : database * nat :=
  (with_sync_history (sync_history d ++ [new_row config_id status msg end_time]) d,
   S (length (sync_history d))).

(** [update_sync_history(history_id, **updates)]: UPDATE ... WHERE id = ?.
    The keyword arguments of each call site are given as a function on
    the row; an id that matches no row changes nothing. *)
Definition update_sync_history (history_id : nat)
    (updates : history_row → history_row) (d : database) : database :=
  match history_id with
  | O => d
  | S i => with_sync_history (alter updates i (sync_history d)) d
  end.

Definition get_sync_history_record (history_id : nat) (d : database)
    : option history_row :=
  match history_id with
  | O => None
  | S i => sync_history d !! i
  end.

Definition set_status_message (status : string) (msg : message)
    (r : history_row) : history_row :=
  {| h_config_id := h_config_id r; h_status := status; h_message := msg;
     h_files_count := h_files_count r; h_files_processed := h_files_processed r;
     h_files_copied := h_files_copied r; h_files_updated := h_files_updated r;
     h_files_deleted := h_files_deleted r; h_errors := h_errors r;
     h_end_time := h_end_time r |}.

Definition set_status_message_end (status : string) (msg : message) (now : Z)
    (r : history_row) : history_row :=
  {| h_config_id := h_config_id r; h_status := status; h_message := msg;
     h_files_count := h_files_count r; h_files_processed := h_files_processed r;
     h_files_copied := h_files_copied r; h_files_updated := h_files_updated r;
     h_files_deleted := h_files_deleted r; h_errors := h_errors r;
     h_end_time := Some now |}.

(** [add_file_operation]: INSERT INTO sync_file_operations. *)
Definition add_file_operation (history_id : nat) (op : string)
    (file_path : string) (file_size : Z) (status : string) (d : database)
    : database :=
  with_file_operations
    (sync_file_operations d ++
       [{| op_history_id := history_id; operation_type := op;
           op_file_path := file_path; op_file_size := file_size;
           op_status := status |}]) d.

(** [update_file_state]: INSERT OR REPLACE on the unique key. *)
Definition update_file_state (config_id : Z) (file_path : string)
    (fh : option string) (mtime : Z) (status : string) (d : database)
    : database :=
  with_file_states
    (<[(config_id, file_path) :=
         {| file_hash := fh; modified_time := mtime; sync_status := status |}]>
       (file_states d)) d.

(** [get_file_states]: SELECT * FROM file_states WHERE config_id = ?.
    Each row is returned as its [file_path] and the other columns. *)
Definition get_file_states (config_id : Z) (d : database)
    : list (string * file_state) :=
  omap (λ kv : Z * string * file_state,
          if decide (kv.1.1 = config_id) then Some (kv.1.2, kv.2) else None)
       (map_to_list (file_states d)).

(** [delete_file_state]: DELETE ... WHERE config_id = ? AND file_path = ?. *)
Definition delete_file_state (config_id : Z) (file_path : string)
    (d : database) : database :=
  with_file_states (delete (config_id, file_path) (file_states d)) d.

(** A history row that is no longer in progress. *)
Definition finalized (r : history_row) : Prop :=
  h_status r ≠ "running" ∧ h_status r ≠ "in_progress".

End Database.

(* ===================================================================== *)
(** * The local engine (src/sync/local.py) *)
(* ===================================================================== *)

Module Local.
Import Paths Database.

(** What the engine reads of a regular file: [os.stat] size and mtime,
    and the MD5 digest computed by [calculate_file_hash].
    [shutil.copy2] copies content and timestamps, that is, the whole
    record. *)
Record file := { st_size : Z; st_mtime : Z; md5 : string }.

(** A directory tree: the regular files below a root folder, keyed by
    their path relative to the root. *)
Abbreviation tree := (gmap string file) (only parsing).

(** The environment of one run.  [listdir] is the order in which
    [os.walk] yields the files of a tree, which the operating system
    chooses; the [*_fails] fields tell which system calls raise. *)
Record env := {
  listdir : tree → list string;
  makedirs_target_fails : bool;          (* os.makedirs(target_path) *)
  makedirs_fails : string → bool;        (* os.makedirs(target_dir) of a file *)
  backup_fails : string → bool;          (* shutil.copy2(target, target + ".bak") *)
  copy_fails : string → bool;            (* shutil.copy2(source, target) *)
  backup_removal_fails : string → bool;  (* os.remove(target + ".bak") *)
  remove_fails : string → bool;          (* os.remove(target) *)
  utcnow : Z
}.

(** A walk yields every file of the tree once. *)
Definition listdir_ok (E : env) : Prop :=
  ∀ t : tree, NoDup (listdir E t) ∧ ∀ p, p ∈ listdir E t ↔ is_Some (t !! p).

(** The effects of a run in program order (oldest first).  The log is
    not read by the code; it makes the order of file-system and
    [file_states] mutations available to the theorems. *)
Inductive event :=
| EvMakedirsFailed (rel_path : string)
| EvBackupMade (rel_path : string)
| EvCopied (rel_path : string)
| EvCopyFailed (rel_path : string)
| EvBackupRemoved (rel_path : string)
| EvSkipped (rel_path : string)
| EvRemoved (rel_path : string)
| EvRemoveFailed (rel_path : string)
| EvFileStateUpsert (config_id : Z) (rel_path : string) (status : string)
| EvFileStateDelete (config_id : Z) (rel_path : string).

(** The source folder, the target folder ([None]: the folder does not
    exist), the database and the effect log. *)
Record world := {
  source : option tree;
  target : option tree;
  db : database;
  events : list event
}.

Definition with_target (t : option tree) (w : world) : world :=
  {| source := source w; target := t; db := db w; events := events w |}.
Definition with_db (d : database) (w : world) : world :=
  {| source := source w; target := target w; db := d; events := events w |}.
Definition emit (e : event) (w : world) : world :=
  {| source := source w; target := target w; db := db w;
     events := events w ++ [e] |}.

Definition read_source (w : world) (rel_path : string) : option file :=
  source w ≫= λ t, t !! rel_path.
Definition read_target (w : world) (rel_path : string) : option file :=
  target w ≫= λ t, t !! rel_path.
Definition write_target (rel_path : string) (f : file) (w : world) : world :=
  with_target (Some (<[rel_path := f]> (default ∅ (target w)))) w.
Definition unlink_target (rel_path : string) (w : world) : world :=
  with_target (delete rel_path <$> target w) w.

(** The object state of [LocalSyncManager] during a run, next to the
    world it acts on. *)
Record state := { st_world : world; st_stats : sync_stats }.

Definition on_world (f : world → world) (st : state) : state :=
  {| st_world := f (st_world st); st_stats := st_stats st |}.

Definition incr_copied (s : sync_stats) : sync_stats :=
  {| copied := S (copied s); updated := updated s; deleted := deleted s;
     skipped := skipped s; errors := errors s |}.
Definition incr_updated (s : sync_stats) : sync_stats :=
  {| copied := copied s; updated := S (updated s); deleted := deleted s;
     skipped := skipped s; errors := errors s |}.
Definition incr_deleted (s : sync_stats) : sync_stats :=
  {| copied := copied s; updated := updated s; deleted := S (deleted s);
     skipped := skipped s; errors := errors s |}.
Definition incr_skipped (s : sync_stats) : sync_stats :=
  {| copied := copied s; updated := updated s; deleted := deleted s;
     skipped := S (skipped s); errors := errors s |}.
Definition incr_errors (s : sync_stats) : sync_stats :=
  {| copied := copied s; updated := updated s; deleted := deleted s;
     skipped := skipped s; errors := S (errors s) |}.

Definition on_stats (f : sync_stats → sync_stats) (st : state) : state :=
  {| st_world := st_world st; st_stats := f (st_stats st) |}.

(** [_get_files_list]: the dictionary rel_path -> metadata of the files
    below a folder, hidden files and folders left out, in walk order.
    A folder that does not exist is walked as empty. *)
Definition _get_files_list (E : env) (folder : option tree)
    : list (string * file) :=
  match folder with
  | None => []
  | Some t =>
      omap (λ p, if hidden p then None else (λ f, (p, f)) <$> t !! p)
           (listdir E t)
  end.

(** [_need_update]; an exception of [os.stat] answers [True]. *)
Definition _need_update (w : world) (config_id : Z) (rel_path : string) : bool :=
  match read_source w rel_path, read_target w rel_path with
  | Some s, Some t =>
      if negb (st_size s =? st_size t) then true
      else if st_mtime t <? st_mtime s then true
      else if negb (String.eqb (md5 s) (md5 t)) then true
      else
        match find (λ row : string * file_state, String.eqb row.1 rel_path)
                   (get_file_states config_id (db w)) with
        | Some row =>
            negb (bool_decide (file_hash row.2 = Some (md5 s)))
        | None => false
        end
  | _, _ => true
  end.

(** [_copy_file].  The backup copy and its removal only warn when they
    fail; a failure of the copy itself counts an error.
    A folder is the map of its regular files, so [os.path.exists] is
    [read_target].  A directory of the destination that stands at the
    path of the file, or at the path of its backup, is outside this map:
    there the backup copy ([shutil.copy2] of a directory) or the removal
    of the backup ([os.remove] of a directory) raises, and the copy lands
    inside that directory.  A run in which no backup copy and no removal
    of a backup fails has met no such directory. *)
Definition _copy_file (E : env) (rel_path : string) (st : state) : bool * state :=
  let w := st_world st in
  let '(backup_created, w1) :=
    match read_target w rel_path with
    | Some old =>
        if backup_fails E rel_path then (false, w)
        else (true, emit (EvBackupMade rel_path)
                      (write_target (backup_name rel_path) old w))
    | None => (false, w)
    end in
  match read_source w1 rel_path with
  | Some f =>
      if copy_fails E rel_path then
        (false, {| st_world := emit (EvCopyFailed rel_path) w1;
                   st_stats := incr_errors (st_stats st) |})
      else
        let w2 := emit (EvCopied rel_path) (write_target rel_path f w1) in
        let w3 :=
          if backup_created && negb (backup_removal_fails E rel_path)
          then emit (EvBackupRemoved rel_path)
                 (unlink_target (backup_name rel_path) w2)
          else w2 in
        (true, {| st_world := w3; st_stats := st_stats st |})
  | None =>
      (false, {| st_world := emit (EvCopyFailed rel_path) w1;
                 st_stats := incr_errors (st_stats st) |})
  end.

(** [_delete_file]: [True] after a removal, [False] with an error counted
    when the removal raises, and [None] (falsy, nothing counted) when
    the path is neither a file nor a folder any more. *)
Definition _delete_file (E : env) (rel_path : string) (st : state) : bool * state :=
  match read_target (st_world st) rel_path with
  | Some _ =>
      if remove_fails E rel_path then
        (false, {| st_world := emit (EvRemoveFailed rel_path) (st_world st);
                   st_stats := incr_errors (st_stats st) |})
      else
        (true, on_world (λ w, emit (EvRemoved rel_path)
                                 (unlink_target rel_path w)) st)
  | None => (false, st)
  end.

(** [_update_file_state_in_db]: hash and stat the source file, then
    upsert its row; an exception (the file is gone) is only logged. *)
Definition _update_file_state_in_db (config_id : Z) (rel_path : string)
    (status : string) (w : world) : world :=
  match read_source w rel_path with
  | Some f =>
      emit (EvFileStateUpsert config_id rel_path status)
        (with_db (update_file_state config_id rel_path (Some (md5 f))
                    (st_mtime f) status (db w)) w)
  | None => w
  end.

Definition log_operation (current_sync_id : nat) (op : string)
    (rel_path : string) (w : world) : world :=
  match current_sync_id with
  | O => w
  | S _ =>
      let size := from_option st_size 0 (read_source w rel_path) in
      with_db (add_file_operation current_sync_id op rel_path size "success" (db w)) w
  end.

(** Body of the first loop of [sync_folders], for one source file. *)
Definition sync_source_file (E : env) (config_id : Z) (current_sync_id : nat)
    (target_files : list string) (st : state) (rel_path : string) : state :=
  if makedirs_fails E rel_path then
    {| st_world := emit (EvMakedirsFailed rel_path) (st_world st);
       st_stats := incr_errors (st_stats st) |}
  else if negb (bool_decide (rel_path ∈ target_files)) then
    let '(ok, st1) := _copy_file E rel_path st in
    if ok then
      on_world (λ w, log_operation current_sync_id "copied" rel_path
                       (_update_file_state_in_db config_id rel_path "synced" w))
               (on_stats incr_copied st1)
    else st1
  else if _need_update (st_world st) config_id rel_path then
    let '(ok, st1) := _copy_file E rel_path st in
    if ok then
      on_world (λ w, log_operation current_sync_id "updated" rel_path
                       (_update_file_state_in_db config_id rel_path "synced" w))
               (on_stats incr_updated st1)
    else st1
  else
    {| st_world := emit (EvSkipped rel_path) (st_world st);
       st_stats := incr_skipped (st_stats st) |}.

(** Body of the delete loop of [sync_folders], for one target file. *)
Definition delete_target_file (E : env) (config_id : Z) (current_sync_id : nat)
    (source_files : list string) (synced_files : gset string)
    (st : state) (rel_path : string) : state :=
  if bool_decide (rel_path ∈ source_files) then st
  else if bool_decide (rel_path ∈ synced_files) then
    let '(ok, st1) := _delete_file E rel_path st in
    if ok then
      on_world (λ w,
          let w1 := emit (EvFileStateDelete config_id rel_path)
                      (with_db (delete_file_state config_id rel_path (db w)) w) in
          match current_sync_id with
          | O => w1
          | S _ => with_db (add_file_operation current_sync_id "deleted"
                              rel_path 0 "success" (db w1)) w1
          end)
        (on_stats incr_deleted st1)
    else st1
  else st.

(** The last block of [sync_folders]. *)
Definition finish_history (E : env) (current_sync_id : nat) (st : state) : state :=
  let s := st_stats st in
  on_world (λ w,
    with_db (update_sync_history current_sync_id
      (λ r, {| h_config_id := h_config_id r;
               h_status := if decide (errors s = 0)%nat then "success" else "error";
               h_message := MsgEngineDone s;
               h_files_count := (copied s + updated s + skipped s)%nat;
               h_files_processed := (copied s + updated s)%nat;
               h_files_copied := copied s;
               h_files_updated := updated s;
               h_files_deleted := deleted s;
               h_errors := errors s;
               h_end_time := Some (utcnow E) |})
      (db w)) w) st.

(** [sync_folders(config_id, source_path, target_path, callback,
    delete_mode, history_id)]. *)
Definition sync_folders (E : env) (config_id : Z) (delete_mode : bool)
    (history_id : option nat) (w0 : world) : state :=
  let '(w, current_sync_id) :=
    match history_id with
    | Some (S i) => (w0, S i)
    | _ =>
        let '(d, id) := add_sync_history config_id "in_progress"
                          MsgEngineStart None (db w0) in
        (with_db d w0, id)
    end in
  match source w with
  | None =>
      {| st_world := with_db (update_sync_history current_sync_id
                                (set_status_message "error" MsgSourceMissing)
                                (db w)) w;
         st_stats := stats0 |}
  | Some _ =>
      if bool_decide (target w = None) && makedirs_target_fails E then
        {| st_world := with_db (update_sync_history current_sync_id
                                  (set_status_message "error" MsgTargetFolderFailed)
                                  (db w)) w;
           st_stats := incr_errors stats0 |}
      else
        let w := with_target (Some (default ∅ (target w))) w in
        let source_files := (_get_files_list E (source w)).*1 in
        let target_files := (_get_files_list E (target w)).*1 in
        let st := foldl (sync_source_file E config_id current_sync_id target_files)
                    {| st_world := w; st_stats := stats0 |} source_files in
        let st :=
          if delete_mode then
            let synced_files : gset string :=
              list_to_set (get_file_states config_id (db (st_world st))).*1 in
            foldl (delete_target_file E config_id current_sync_id
                     source_files synced_files) st target_files
          else st in
        finish_history E current_sync_id st
  end.

(** [update_file_states(config_id, source_path)]. *)
Definition update_file_states (E : env) (config_id : Z) (w : world) : world :=
  let source_files := (_get_files_list E (source w)).*1 in
  let w1 := foldl (λ w rel_path,
                     _update_file_state_in_db config_id rel_path "synced" w)
              w source_files in
  foldl (λ w (row : string * file_state),
           if bool_decide (row.1 ∈ source_files) then w
           else emit (EvFileStateDelete config_id row.1)
                  (with_db (delete_file_state config_id row.1 (db w)) w))
    w1 (get_file_states config_id (db w1)).

(** ** Reading the effect log *)

Global Instance event_eq_dec : EqDecision event.
Proof. solve_decision. Defined.

(** What must have happened before an effect on [file_states]: the copy
    of the path before its row is written, the removal of the path before
    its row is deleted. *)
Definition needs (e : event) (seen : list event) : Prop :=
  match e with
  | EvFileStateUpsert _ p _ => EvCopied p ∈ seen
  | EvFileStateDelete _ p => EvRemoved p ∈ seen
  | _ => True
  end.

(** Every [file_states] effect of the log comes after the success of its
    file operation. *)
Definition justified (evs : list event) : Prop :=
  ∀ i e, evs !! i = Some e → needs e (take i evs).

Definition is_failure (e : event) : bool :=
  match e with
  | EvMakedirsFailed _ | EvCopyFailed _ | EvRemoveFailed _ => true
  | _ => false
  end.

Definition failures (evs : list event) : nat :=
  length (filter (λ e, is_failure e = true) evs).

(** The events that show the loop reached a source file. *)
Definition attempt_of (rel_path : string) (e : event) : Prop :=
  e = EvMakedirsFailed rel_path ∨ e = EvCopied rel_path ∨
  e = EvCopyFailed rel_path ∨ e = EvSkipped rel_path.

(** The events that show the delete loop called [os.remove] on a path. *)
Definition removal_of (rel_path : string) (e : event) : Prop :=
  e = EvRemoved rel_path ∨ e = EvRemoveFailed rel_path.

(** The walk of a tree by key order, and an environment in which no
    system call fails. *)
Definition walk_sorted (t : tree) : list string := (map_to_list t).*1.

Definition quiet : env :=
  {| listdir := walk_sorted;
     makedirs_target_fails := false;
     makedirs_fails := λ _, false;
     backup_fails := λ _, false;
     copy_fails := λ _, false;
     backup_removal_fails := λ _, false;
     remove_fails := λ _, false;
     utcnow := 0 |}.

(** As [quiet], but the copy of one file raises. *)
Definition copy_of_fails (rel_path : string) : env :=
  {| listdir := walk_sorted;
     makedirs_target_fails := false;
     makedirs_fails := λ _, false;
     backup_fails := λ _, false;
     copy_fails := λ p, bool_decide (p = rel_path);
     backup_removal_fails := λ _, false;
     remove_fails := λ _, false;
     utcnow := 0 |}.


(** The events a run appends are harmless for every reader of the log
    when none of them touches [file_states]. *)
Definition plain (evs : list event) : Prop :=
  ∀ e, e ∈ evs → ∀ seen, needs e seen.

(** [advances st st' evs]: from [st] to [st'] the engine appended [evs]
    to the log, counted one error per failure event, wrote only
    'success' records to [sync_file_operations], and left the source
    folder, [sync_configs] and [sync_history] alone. *)
Definition advances (st st' : state) (evs : list event) : Prop :=
  events (st_world st') = (events (st_world st) ++ evs)%list
  ∧ source (st_world st') = source (st_world st)
  ∧ sync_configs (db (st_world st')) = sync_configs (db (st_world st))
  ∧ sync_history (db (st_world st')) = sync_history (db (st_world st))
  ∧ errors (st_stats st') = (errors (st_stats st) + failures evs)%nat
  ∧ justified evs
  ∧ ∃ ops, sync_file_operations (db (st_world st'))
           = (sync_file_operations (db (st_world st)) ++ ops)%list
         ∧ Forall (λ o, op_status o = "success") ops.

(** The keys of the two dictionaries [sync_folders] builds first. *)
Definition source_files (E : env) (w : world) : list string :=
  (_get_files_list E (source w)).*1.
Definition target_files (E : env) (w : world) : list string :=
  (_get_files_list E (target w)).*1.

(** The first block of [sync_folders]: the history row the run reports
    to, the one passed in or a new one. *)
Definition begin_history (c : Z) (history_id : option nat) (w0 : world)
    : world * nat :=
  match history_id with
  | Some (S i) => (w0, S i)
  | _ => let '(d, id) := add_sync_history c "in_progress" MsgEngineStart None
                           (db w0) in
         (with_db d w0, id)
  end.

(** The row [_update_file_state_in_db] writes for a file with status
    'synced'. *)
Definition synced_row (f : file) : file_state :=
  {| file_hash := Some (md5 f); modified_time := st_mtime f;
     sync_status := "synced" |}.

(** The two loops of [update_file_states]. *)
Definition upsert_all (c : Z) (l : list string) (w : world) : world :=
  foldl (λ w p, _update_file_state_in_db c p "synced" w) w l.

Definition prune (c : Z) (sfs : list string) (l : list (string * file_state))
    (w : world) : world :=
  foldl (λ w (row : string * file_state),
           if bool_decide (row.1 ∈ sfs) then w
           else emit (EvFileStateDelete c row.1)
                  (with_db (delete_file_state c row.1 (db w)) w))
    w l.

(** The two loops of [sync_folders], from the world in which the
    destination folder exists. *)
Definition copy_pass (E : env) (c : Z) (cid : nat) (w : world) : state :=
  foldl (sync_source_file E c cid (target_files E w))
    {| st_world := w; st_stats := stats0 |} (source_files E w).

Definition delete_pass (E : env) (c : Z) (cid : nat) (sfs tfs : list string)
    (st : state) : state :=
  foldl (delete_target_file E c cid sfs
           (list_to_set (get_file_states c (db (st_world st))).*1)) st tfs.

(** No system call of the run fails. *)
Definition never_fails (E : env) : Prop :=
  makedirs_target_fails E = false
  ∧ ∀ p, makedirs_fails E p = false ∧ backup_fails E p = false
         ∧ copy_fails E p = false ∧ backup_removal_fails E p = false
         ∧ remove_fails E p = false.

(** An entry of the lists [preview_sync] returns. *)
Record file_info := { fi_path : string; fi_size : Z; fi_mtime : Z }.

Definition info_of (pf : string * file) : file_info :=
  {| fi_path := pf.1; fi_size := st_size pf.2; fi_mtime := st_mtime pf.2 |}.

Record preview := {
  to_copy : list file_info;
  to_update : list file_info;
  to_delete : list file_info;
  to_skip : list file_info;
  preview_errors : nat             (* the number of messages in 'errors' *)
}.

(** [preview_sync(config_id, source_path, target_path)].  The loop over
    the source files appends each file to one of three lists; a list is
    the files of the walk that take its branch, in walk order. *)
Definition preview_sync (E : env) (config_id : Z) (w : world) : preview :=
  match source w with
  | None =>
      {| to_copy := []; to_update := []; to_delete := []; to_skip := [];
         preview_errors := 1 |}
  | Some _ =>
      let source_files := _get_files_list E (source w) in
      let target_files := _get_files_list E (target w) in
      {| to_copy :=
           info_of <$> filter (λ pf, pf.1 ∉ target_files.*1) source_files;
         to_update :=
           info_of <$> filter (λ pf, pf.1 ∈ target_files.*1
                                     ∧ _need_update w config_id pf.1 = true)
                              source_files;
         to_delete :=
           info_of <$> filter (λ pf, pf.1 ∉ source_files.*1) target_files;
         to_skip :=
           info_of <$> filter (λ pf, pf.1 ∈ target_files.*1
                                     ∧ _need_update w config_id pf.1 = false)
                              source_files;
         preview_errors := 0 |}
  end.

Record comparison := {
  only_in_source : list string;
  only_in_target : list string;
  different : list string;
  identical : list string
}.

(** [compare_folders(source_path, target_path)]; it passes the
    configuration id -1 to [_need_update]. *)
Definition compare_folders (E : env) (w : world) : comparison :=
  let source_files := (_get_files_list E (source w)).*1 in
  let target_files := (_get_files_list E (target w)).*1 in
  {| only_in_source := filter (λ p, p ∉ target_files) source_files;
     only_in_target := filter (λ p, p ∉ source_files) target_files;
     different := filter (λ p, p ∈ target_files ∧ _need_update w (-1) p = true)
                         source_files;
     identical := filter (λ p, p ∈ target_files ∧ _need_update w (-1) p = false)
                         source_files |}.

End Local.


(* ===================================================================== *)
(** * The service (src/sync/service.py) *)
(* ===================================================================== *)

Module Service.
Import Database Local.

(** The managers of the remote targets wrap network clients.  What
    [sync_config] sees of one of them is whether the sequence connect,
    [sync_folders], [update_file_states], disconnect raised, or the
    counters it returned ([result.get(key, 0)] for each key). *)
Inductive outcome :=
| Raised
| Returned (result : sync_stats).

Record env := {
  local_env : Local.env;
  remote_manager : string → Z → bool → world → world * outcome
}.

Definition remote_types : list string := ["gdrive"; "ftp"; "smb"; "s3"; "dropbox"].

(** A remote manager never receives [history_id]: it writes history rows
    of its own and leaves the rows that exist alone. *)
Definition remote_keeps_history (E : env) : Prop :=
  ∀ ty c dm w,
    sync_history (db w) `prefix_of` sync_history (db (remote_manager E ty c dm w).1).

(** The keyword arguments of the final [update_sync_history] of
    [sync_config]. *)
Definition finalize_row (status : string) (result : sync_stats) (now : Z)
    (r : history_row) : history_row :=
  {| h_config_id := h_config_id r; h_status := status;
     h_message := MsgServiceDone result;
     h_files_count := h_files_count r; h_files_processed := h_files_processed r;
     h_files_copied := copied result; h_files_updated := updated result;
     h_files_deleted := deleted result; h_errors := errors result;
     h_end_time := Some now |}.

(** [SyncService.sync_config]. *)
Definition sync_config (E : env) (config_id : Z) (w0 : world) : world * bool :=
  match get_sync_config config_id (db w0) with
  | None => (w0, false)
  | Some config =>
      let '(d, history_id) :=
        add_sync_history config_id "running" MsgServiceStart None (db w0) in
      let w := with_db d w0 in
      let delete_mode := delete_missing config in
      let '(w, out) :=
        if String.eqb (target_type config) "local" then
          match target_path config with
          | None => (w, Raised)
          | Some _ =>
              let st := sync_folders (local_env E) config_id delete_mode
                          (Some history_id) w in
              (update_file_states (local_env E) config_id (st_world st),
               Returned (st_stats st))
          end
        else if bool_decide (target_type config ∈ remote_types) then
          remote_manager E (target_type config) config_id delete_mode w
        else (w, Raised) in
      match out with
      | Returned result =>
          let success := bool_decide (errors result = 0%nat) in
          let status := if success then "completed" else "failed" in
          let w :=
            match get_sync_history_record history_id (db w) with
            | Some r =>
                if bool_decide (h_status r ∈ ["running"; "in_progress"]) then
                  with_db (update_sync_history history_id
                             (finalize_row status result (utcnow (local_env E)))
                             (db w)) w
                else w
            | None => w
            end in
          (w, success)
      | Raised =>
          (with_db (update_sync_history history_id
                      (set_status_message_end "failed" MsgServiceError
                         (utcnow (local_env E)))
                      (db w)) w,
           false)
      end
  end.

(** The world in which [sync_config] hands over to a manager: its
    'running' row is written. *)
Definition service_begin (config_id : Z) (w : world) : world :=
  with_db (add_sync_history config_id "running" MsgServiceStart None (db w)).1 w.

(** A row that was closed with a status, an end time and the counters of
    a run. *)
Definition closed_with (status : string) (s : sync_stats) (now : Z)
    (r : history_row) : Prop :=
  h_status r = status ∧ h_end_time r = Some now
  ∧ h_files_copied r = copied s ∧ h_files_updated r = updated s
  ∧ h_files_deleted r = deleted s ∧ h_errors r = errors s.

(** What the row [r] of a call of [sync_config] in the world [w] holds
    when the call returns [ok], for each way the call can go:
    - a remote manager returned counters: the service closes the row,
      'completed' without errors and 'failed' otherwise;
    - the local engine reached its loops: the engine closed the row,
      'success' without errors and 'error' otherwise;
    - the local engine found no source folder, or could not create the
      destination folder: it set 'error' and a message and returned; the
      row has no end time and its counters are still 0;
    - the configuration cannot be run, or the manager raised: the service
      closes the row as 'failed'. *)
Definition reports (E : env) (config_id : Z) (cfg : config) (w : world)
    (r : history_row) (ok : bool) : Prop :=
  let now := utcnow (local_env E) in
  let w1 := service_begin config_id w in
  let stats :=
    st_stats (sync_folders (local_env E) config_id (delete_missing cfg)
                (Some (S (length (sync_history (db w))))) w1) in
  (target_type cfg ∈ remote_types →
     match (remote_manager E (target_type cfg) config_id (delete_missing cfg) w1).2 with
     | Returned result =>
         closed_with (if ok then "completed" else "failed") result now r
         ∧ ok = bool_decide (errors result = 0%nat)
     | Raised =>
         h_status r = "failed" ∧ h_message r = MsgServiceError
         ∧ h_end_time r = Some now ∧ ok = false
     end)
  ∧ (target_type cfg = "local" → is_Some (target_path cfg) →
     is_Some (source w) →
     (target w = None → makedirs_target_fails (local_env E) = false) →
       closed_with (if ok then "success" else "error") stats now r
       ∧ ok = bool_decide (errors stats = 0%nat))
  ∧ (target_type cfg = "local" → is_Some (target_path cfg) →
     source w = None →
       h_status r = "error" ∧ h_message r = MsgSourceMissing
       ∧ h_end_time r = None ∧ h_errors r = 0%nat ∧ ok = true)
  ∧ (target_type cfg = "local" → is_Some (target_path cfg) →
     is_Some (source w) →
     target w = None → makedirs_target_fails (local_env E) = true →
       h_status r = "error" ∧ h_message r = MsgTargetFolderFailed
       ∧ h_end_time r = None ∧ h_errors r = 0%nat ∧ ok = false)
  ∧ ((target_type cfg = "local" ∧ target_path cfg = None)
     ∨ (target_type cfg ≠ "local" ∧ target_type cfg ∉ remote_types) →
       h_status r = "failed" ∧ h_message r = MsgServiceError
       ∧ h_end_time r = Some now ∧ ok = false).

End Service.

(* ===================================================================== *)
(** * The change monitor (src/core/file_monitor.py) *)
(* ===================================================================== *)

Module Monitor.
Import Database Local.

(** [FileMonitor]: the size of each file seen growing, and whether a
    [sync_callback] was given.  The source keys [file_sizes] by the string
    [f"{config_id}:{rel_path}"]; the decimal config id holds no colon, so
    the string determines the pair, which is the key here. *)
Record monitor := {
  file_sizes : gmap (Z * string) Z;
  sync_callback : bool
}.

Definition with_file_sizes (fs : gmap (Z * string) Z) (m : monitor) : monitor :=
  {| file_sizes := fs; sync_callback := sync_callback m |}.

(** What a handler did: [ready] when it reached the code after the size
    check (file state, history marker, trigger), [triggered] when it
    started the thread that runs [sync_callback]. *)
Record verdict := { ready : bool; triggered : bool }.

Definition dropped : verdict := {| ready := false; triggered := false |}.

(** After the size check of [_handle_file_created] and
    [_handle_file_modified]: the pending file state, the history marker
    and the trigger. *)
Definition mark_and_trigger (config_id : Z) (rel_path : string) (mtime : Z)
    (timestamp : Z) (m : monitor) (w : world) : monitor * world * verdict :=
  let w1 := emit (EvFileStateUpsert config_id rel_path "pending")
              (with_db (update_file_state config_id rel_path None mtime
                          "pending" (db w)) w) in
  let w2 := with_db (add_sync_history config_id "pending" (MsgDetected rel_path)
                       (Some timestamp) (db w1)).1 w1 in
  (m, w2, {| ready := true; triggered := sync_callback m |}).

(** [_handle_file_created(config_id, rel_path, timestamp)]. *)
Definition _handle_file_created (config_id : Z) (rel_path : string)
    (timestamp : Z) (m : monitor) (w : world) : monitor * world * verdict :=
  match get_sync_config config_id (db w) with
  | None => (m, w, dropped)
  | Some _ =>
      match read_source w rel_path with
      | None => (m, w, dropped)
      | Some stat =>
          let current_size := st_size stat in
          let file_key := (config_id, rel_path) in
          if current_size =? 0 then
            mark_and_trigger config_id rel_path (st_mtime stat) timestamp
              (with_file_sizes (delete file_key (file_sizes m)) m) w
          else
            match file_sizes m !! file_key with
            | Some last_size =>
                if negb (last_size =? current_size) then
                  (with_file_sizes (<[file_key := current_size]> (file_sizes m)) m,
                   w, dropped)
                else
                  mark_and_trigger config_id rel_path (st_mtime stat) timestamp
                    (with_file_sizes (delete file_key (file_sizes m)) m) w
            | None =>
                (with_file_sizes (<[file_key := current_size]> (file_sizes m)) m,
                 w, dropped)
            end
      end
  end.

(** [_handle_file_modified(config_id, rel_path, timestamp)]: the same
    steps, written out a second time in the source. *)
Definition _handle_file_modified (config_id : Z) (rel_path : string)
    (timestamp : Z) (m : monitor) (w : world) : monitor * world * verdict :=
  match get_sync_config config_id (db w) with
  | None => (m, w, dropped)
  | Some _ =>
      match read_source w rel_path with
      | None => (m, w, dropped)
      | Some stat =>
          let current_size := st_size stat in
          let file_key := (config_id, rel_path) in
          if current_size =? 0 then
            mark_and_trigger config_id rel_path (st_mtime stat) timestamp
              (with_file_sizes (delete file_key (file_sizes m)) m) w
          else
            match file_sizes m !! file_key with
            | Some last_size =>
                if negb (last_size =? current_size) then
                  (with_file_sizes (<[file_key := current_size]> (file_sizes m)) m,
                   w, dropped)
                else
                  mark_and_trigger config_id rel_path (st_mtime stat) timestamp
                    (with_file_sizes (delete file_key (file_sizes m)) m) w
            | None =>
                (with_file_sizes (<[file_key := current_size]> (file_sizes m)) m,
                 w, dropped)
            end
      end
  end.

(** [_handle_file_deleted(config_id, rel_path, timestamp)]. *)
Definition _handle_file_deleted (config_id : Z) (rel_path : string)
    (timestamp : Z) (m : monitor) (w : world) : monitor * world * verdict :=
  let w1 := emit (EvFileStateDelete config_id rel_path)
              (with_db (delete_file_state config_id rel_path (db w)) w) in
  let w2 := with_db (add_sync_history config_id "pending" (MsgDetected rel_path)
                       (Some timestamp) (db w1)).1 w1 in
  (m, w2, {| ready := true; triggered := sync_callback m |}).

(** One create or modify event as the watcher delivers it: the file has
    the given size when the handler stats it. *)
Inductive kind := Created | Modified.

Definition observe (config_id : Z) (rel_path : string) (timestamp : Z)
    (k : kind) (stat : file) (m : monitor) (w : world)
    : monitor * world * verdict :=
  let w1 := {| source := Some (<[rel_path := stat]> (default ∅ (source w)));
               target := target w; db := db w; events := events w |} in
  match k with
  | Created => _handle_file_created config_id rel_path timestamp m w1
  | Modified => _handle_file_modified config_id rel_path timestamp m w1
  end.


(** A series of events on a file that is being written: the sizes the
    handler stats are non-negative and strictly increasing. *)
Fixpoint growing_from (prev : Z) (evs : list (kind * file)) : Prop :=
  match evs with
  | [] => True
  | (_, f) :: rest => prev < st_size f ∧ growing_from (st_size f) rest
  end.


Definition pending_row (stat : file) : file_state :=
  {| file_hash := None; modified_time := st_mtime stat; sync_status := "pending" |}.

(** An event as [_on_file_event] puts it on the queue: its type
    ('created', 'modified', 'deleted', 'moved'), the absolute path and the
    time of arrival. *)
Record fs_event := { ev_type : string; ev_src_path : string; ev_timestamp : Z }.

(** [last_events] is keyed by [f"{event_type}:{src_path}"]; no event type
    holds a colon, so the string determines the pair. *)
Definition event_key (ev : fs_event) : string * string :=
  (ev_type ev, ev_src_path ev).

(** [_handle_event_with_debounce(event)]: the new [last_events] and
    whether the event went on to [_handle_event]. *)
Definition _handle_event_with_debounce (debounce_time : Z) (ev : fs_event)
    (last_events : gmap (string * string) Z) : gmap (string * string) Z * bool :=
  match last_events !! event_key ev with
  | Some last_time =>
      if ev_timestamp ev - last_time <? debounce_time then (last_events, false)
      else (<[event_key ev := ev_timestamp ev]> last_events, true)
  | None => (<[event_key ev := ev_timestamp ev]> last_events, true)
  end.

(** The loop of [_process_events] on the events of the queue, oldest
    first: the events that went on to [_handle_event], and [last_events]
    at the end. *)
Fixpoint process_events (debounce_time : Z) (evs : list fs_event)
    (last_events : gmap (string * string) Z)
    : list fs_event * gmap (string * string) Z :=
  match evs with
  | [] => ([], last_events)
  | ev :: rest =>
      let '(le, handled) := _handle_event_with_debounce debounce_time ev last_events in
      let '(hs, le') := process_events debounce_time rest le in
      (if handled then ev :: hs else hs, le')
  end.

(** [clear_old_events] with [max_age_hours * 3600] given as
    [max_age_seconds]. *)
Definition clear_old_events (now max_age_seconds : Z)
    (last_events : gmap (string * string) Z) : gmap (string * string) Z :=
  let events_to_remove :=
    filter (λ kv : string * string * Z, max_age_seconds < now - kv.2)
           (map_to_list last_events) in
  foldl (λ le (kv : string * string * Z), delete kv.1 le) last_events
        events_to_remove.

End Monitor.


(* ===================================================================== *)
(** * Python's [int(str)] and [str.split] *)
(* ===================================================================== *)

Module PyInt.

(** White space that [int] strips, for ASCII input: codes 9-13 and 28-32. *)
Definition is_space (c : ascii) : bool :=
  let n := nat_of_ascii c in
  ((9 <=? n)%nat && (n <=? 13)%nat) || ((28 <=? n)%nat && (n <=? 32)%nat).

Definition digit (c : ascii) : option Z :=
  let n := nat_of_ascii c in
  if ((48 <=? n)%nat && (n <=? 57)%nat) then Some (Z.of_nat (n - 48)) else None.

Fixpoint lstrip (s : string) : string :=
  match s with
  | EmptyString => EmptyString
  | String c rest => if is_space c then lstrip rest else s
  end.

Fixpoint rstrip (s : string) : string :=
  match s with
  | EmptyString => EmptyString
  | String c rest =>
      match rstrip rest with
      | EmptyString => if is_space c then EmptyString else String c EmptyString
      | r => String c r
      end
  end.

(** Decimal digits, single underscores allowed between two digits. *)
Fixpoint digits (acc : Z) (after_digit : bool) (s : string) : option Z :=
  match s with
  | EmptyString => if after_digit then Some acc else None
  | String c rest =>
      match digit c with
      | Some v => digits (10 * acc + v) true rest
      | None =>
          if Ascii.eqb c "_"%char && after_digit then digits acc false rest
          else None
      end
  end.

(** [int(s)] in base 10; [None] stands for ValueError. *)
Definition py_int (s : string) : option Z :=
  match rstrip (lstrip s) with
  | EmptyString => None
  | String c rest as t =>
      if Ascii.eqb c "+"%char then digits 0 false rest
      else if Ascii.eqb c "-"%char then Z.opp <$> digits 0 false rest
      else digits 0 false t
  end.

(** [s.split(sep)] for a one-character separator. *)
Fixpoint split (sep : ascii) (s : string) : list string :=
  match s with
  | EmptyString => [EmptyString]
  | String c rest =>
      if Ascii.eqb c sep then EmptyString :: split sep rest
      else
        match split sep rest with
        | x :: xs => String c x :: xs
        | [] => [String c EmptyString]
        end
  end.

(** Two decimal digits, as in the HH and MM of a schedule value. *)
Definition two_digits (n : nat) : string :=
  String (ascii_of_nat (48 + n / 10)) (String (ascii_of_nat (48 + n mod 10)) EmptyString).

Definition hh_mm (h m : nat) : string := two_digits h +:+ ":" +:+ two_digits m.

(** Whether a character occurs in a string. *)
Fixpoint mentions (sep : ascii) (s : string) : bool :=
  match s with
  | EmptyString => false
  | String c rest => Ascii.eqb c sep || mentions sep rest
  end.

End PyInt.

(* ===================================================================== *)
(** * The scheduler (src/core/scheduler.py) and the trigger entry point
      (src/core/orchestrator.py) *)
(* ===================================================================== *)

Module Scheduler.
Import Database Local PyInt.

(** What the code reads of [datetime.now()]: seconds on the clock, for
    differences, and the calendar fields. *)
Record datetime := { seconds : Z; day : Z; hour : Z; minute : Z }.

(** An entry of [task_queue]; [stop] puts [None] to wake the worker. *)
Record task := {
  task_type : string;
  task_config_id : Z;
  task_timestamp : datetime
}.

Record task_info := { start_time : datetime; status : string }.

(** What a job of the [schedule] library calls when it is due. *)
Inductive job_action :=
| EnqueueSyncTask (config_id : Z)
| CheckMonthlySync (config_id : Z) (day_of_month : Z)
| CheckCustomSync (config_id : Z) (cron_expression : string).

(** [schedule.every(interval).<unit>.at(at_time).do(action)]. *)
Record job := {
  interval : Z;
  unit : string;
  at_time : option string;
  action : job_action
}.

Inductive level := Info | Warning | Error.

Inductive log_text :=
| LogNotRunning
| LogNoConfig (config_id : Z)
| LogAlreadyRunning (config_id : Z)
| LogCapacityReached (max_tasks : nat)
| LogEnqueued (config_id : Z)
| LogCustomFailed
| LogTimeout (config_id : Z)
| LogTimeoutCheckFailed
| LogFinished (config_id : Z) (status : string).

Record scheduler := {
  running : bool;
  task_queue : list (option task);
  active_tasks : gmap Z task_info;
  schedules : gmap Z (job * string * string);
  max_concurrent_tasks : nat;
  task_timeout : Z;
  logged : list (level * log_text)
}.

(** [SyncScheduler.__init__]. *)
Definition init : scheduler :=
  {| running := false; task_queue := []; active_tasks := ∅; schedules := ∅;
     max_concurrent_tasks := 3; task_timeout := 3600; logged := [] |}.

Definition log (l : level) (t : log_text) (s : scheduler) : scheduler :=
  {| running := running s; task_queue := task_queue s;
     active_tasks := active_tasks s; schedules := schedules s;
     max_concurrent_tasks := max_concurrent_tasks s;
     task_timeout := task_timeout s; logged := logged s ++ [(l, t)] |}.

Definition with_task_queue (q : list (option task)) (s : scheduler) : scheduler :=
  {| running := running s; task_queue := q;
     active_tasks := active_tasks s; schedules := schedules s;
     max_concurrent_tasks := max_concurrent_tasks s;
     task_timeout := task_timeout s; logged := logged s |}.

Definition with_active_tasks (a : gmap Z task_info) (s : scheduler) : scheduler :=
  {| running := running s; task_queue := task_queue s;
     active_tasks := a; schedules := schedules s;
     max_concurrent_tasks := max_concurrent_tasks s;
     task_timeout := task_timeout s; logged := logged s |}.

Definition with_running (b : bool) (s : scheduler) : scheduler :=
  {| running := b; task_queue := task_queue s;
     active_tasks := active_tasks s; schedules := schedules s;
     max_concurrent_tasks := max_concurrent_tasks s;
     task_timeout := task_timeout s; logged := logged s |}.

Definition with_max_concurrent_tasks (k : nat) (s : scheduler) : scheduler :=
  {| running := running s; task_queue := task_queue s;
     active_tasks := active_tasks s; schedules := schedules s;
     max_concurrent_tasks := k;
     task_timeout := task_timeout s; logged := logged s |}.

Definition sync_task (now : datetime) (config_id : Z) : task :=
  {| task_type := "sync"; task_config_id := config_id; task_timestamp := now |}.

(** [_enqueue_sync_task(config_id)]. *)
Definition _enqueue_sync_task (now : datetime) (config_id : Z) (s : scheduler)
    : scheduler :=
  if bool_decide (is_Some (active_tasks s !! config_id)) then
    log Warning (LogAlreadyRunning config_id) s
  else if (max_concurrent_tasks s <=? size (active_tasks s))%nat then
    log Warning (LogCapacityReached (max_concurrent_tasks s)) s
  else
    log Info (LogEnqueued config_id)
      (with_task_queue (task_queue s ++ [Some (sync_task now config_id)]) s).

(** [run_sync_now(config_id)]. *)
Definition run_sync_now (now : datetime) (config_id : Z) (d : database)
    (s : scheduler) : bool * scheduler :=
  if negb (running s) then (false, log Error LogNotRunning s)
  else
    match get_sync_config config_id d with
    | None => (false, log Error (LogNoConfig config_id) s)
    | Some _ =>
        if bool_decide (is_Some (active_tasks s !! config_id)) then
          (false, log Warning (LogAlreadyRunning config_id) s)
        else if (max_concurrent_tasks s <=? size (active_tasks s))%nat then
          (false, log Warning (LogCapacityReached (max_concurrent_tasks s)) s)
        else
          (true, log Info (LogEnqueued config_id)
                   (with_task_queue
                      (task_queue s ++ [Some (sync_task now config_id)]) s))
    end.

(** [_check_monthly_sync(config_id, day_of_month)]. *)
Definition _check_monthly_sync (now : datetime) (config_id : Z)
    (day_of_month : Z) (s : scheduler) : scheduler :=
  if day now =? day_of_month then _enqueue_sync_task now config_id s else s.

(** [hour, minute = map(int, cron_expression.split(':'))]. *)
Definition parse_hour_minute (cron_expression : string) : option (Z * Z) :=
  match split ":"%char cron_expression with
  | [h; m] =>
      match py_int h, py_int m with
      | Some hour, Some minute => Some (hour, minute)
      | _, _ => None
      end
  | _ => None
  end.

(** [_check_custom_sync(config_id, cron_expression)]. *)
Definition _check_custom_sync (now : datetime) (config_id : Z)
    (cron_expression : string) (s : scheduler) : scheduler :=
  match parse_hour_minute cron_expression with
  | Some (h, m) =>
      if (hour now =? h) && (minute now =? m)
      then _enqueue_sync_task now config_id s
      else s
  | None => log Error LogCustomFailed s
  end.

(** The job [add_schedule] builds for a schedule type and value, before
    the [schedule] library checks it; [None] when the branch raises or
    the type is unknown. *)
Definition add_schedule_job (config_id : Z) (schedule_type schedule_value : string)
    : option job :=
  if String.eqb schedule_type "interval" then
    (λ n, {| interval := n; unit := "minutes"; at_time := None;
             action := EnqueueSyncTask config_id |}) <$> py_int schedule_value
  else if String.eqb schedule_type "daily" then
    Some {| interval := 1; unit := "day"; at_time := Some schedule_value;
            action := EnqueueSyncTask config_id |}
  else if String.eqb schedule_type "weekly" then
    match split ","%char schedule_value with
    | [d; time_str] =>
        Some {| interval := 1; unit := d; at_time := Some time_str;
                action := EnqueueSyncTask config_id |}
    | _ => None
    end
  else if String.eqb schedule_type "monthly" then
    match split ","%char schedule_value with
    | [d; time_str] =>
        (λ n, {| interval := 1; unit := "day"; at_time := Some time_str;
                 action := CheckMonthlySync config_id n |}) <$> py_int d
    | _ => None
    end
  else if String.eqb schedule_type "custom" then
    Some {| interval := 1; unit := "day"; at_time := Some "00:00";
            action := CheckCustomSync config_id schedule_value |}
  else None.

(** What a due job does. *)
Definition run_job (now : datetime) (a : job_action) (s : scheduler) : scheduler :=
  match a with
  | EnqueueSyncTask c => _enqueue_sync_task now c s
  | CheckMonthlySync c d => _check_monthly_sync now c d s
  | CheckCustomSync c e => _check_custom_sync now c e s
  end.

(** [_handle_sync_task] up to the call of [sync_config]: look the
    configuration up, register the task, write the 'running' row. *)
Definition handle_sync_task_begin (now : datetime) (config_id : Z)
    (s : scheduler) (w : world) : option (scheduler * world * nat) :=
  match get_sync_config config_id (db w) with
  | None => None
  | Some _ =>
      let s1 := with_active_tasks
                  (<[config_id := {| start_time := now; status := "running" |}]>
                     (active_tasks s)) s in
      let '(d, history_id) :=
        add_sync_history config_id "running" MsgSchedulerStart None (db w) in
      Some (s1, with_db d w, history_id)
  end.

(** [_handle_sync_task] after [sync_config] returned [result]. *)
Definition handle_sync_task_end (now : datetime) (config_id : Z)
    (history_id : nat) (result : bool) (s : scheduler) (w : world)
    : scheduler * world :=
  let status := if result then "completed" else "failed" in
  let w1 := with_db (update_sync_history history_id
                       (set_status_message_end status (MsgSchedulerDone status)
                          (seconds now)) (db w)) w in
  (log Info (LogFinished config_id status)
     (with_active_tasks (delete config_id (active_tasks s)) s), w1).

(** [_handle_sync_task(config_id, timestamp)], run without interruption. *)
Definition _handle_sync_task (E : Service.env) (now later : datetime)
    (config_id : Z) (s : scheduler) (w : world) : scheduler * world :=
  match handle_sync_task_begin now config_id s w with
  | None => (log Error (LogNoConfig config_id) s, w)
  | Some (s1, w1, history_id) =>
      let '(w2, result) := Service.sync_config E config_id w1 in
      handle_sync_task_end later config_id history_id result s1 w2
  end.

(** One pass of the loop of [_check_task_timeouts] in which every
    [add_sync_history] succeeds. *)
Definition check_task_timeouts (now : datetime) (s : scheduler) (w : world)
    : scheduler * world :=
  let tasks_to_remove :=
    filter (λ kv : Z * task_info,
              task_timeout s < seconds now - seconds (start_time kv.2))
           (map_to_list (active_tasks s)) in
  let w1 := foldl (λ w (kv : Z * task_info),
                     with_db (add_sync_history kv.1 "timeout" MsgTimeout
                                (Some (seconds now)) (db w)).1 w)
              w tasks_to_remove in
  let s1 := foldl (λ s (kv : Z * task_info), log Warning (LogTimeout kv.1) s)
              s tasks_to_remove in
  (with_active_tasks
     (foldl (λ a (kv : Z * task_info), delete kv.1 a) (active_tasks s)
        tasks_to_remove) s1, w1).

(** The first loop of [_check_task_timeouts] on the tasks that ran too
    long, in the order of the dictionary: the warning, then the history
    row.  [sync_history.config_id] references [sync_configs] and the
    connection enforces foreign keys, so the INSERT raises for a
    configuration that is gone; the loop stops there, which is [false]. *)
Fixpoint record_timeouts (now : datetime) (late : list (Z * task_info))
    (s : scheduler) (w : world) : scheduler * world * bool :=
  match late with
  | [] => (s, w, true)
  | kv :: rest =>
      let s1 := log Warning (LogTimeout kv.1) s in
      match get_sync_config kv.1 (db w) with
      | Some _ =>
          record_timeouts now rest s1
            (with_db (add_sync_history kv.1 "timeout" MsgTimeout
                        (Some (seconds now)) (db w)).1 w)
      | None => (s1, w, false)
      end
  end.

(** One pass of [_check_task_timeouts] with its [try]: an exception of
    the first loop leaves the [with] block before the second loop, so no
    task is removed, and the handler logs an error. *)
Definition _check_task_timeouts (now : datetime) (s : scheduler) (w : world)
    : scheduler * world :=
  let tasks_to_remove :=
    filter (λ kv : Z * task_info,
              task_timeout s < seconds now - seconds (start_time kv.2))
           (map_to_list (active_tasks s)) in
  let '(s1, w1, ok) := record_timeouts now tasks_to_remove s w in
  if ok then
    (with_active_tasks
       (foldl (λ a (kv : Z * task_info), delete kv.1 a) (active_tasks s1)
          tasks_to_remove) s1, w1)
  else (log Error LogTimeoutCheckFailed s1, w1).

(** ** The running system

    The threads of a started orchestrator, interleaved: the scheduler
    thread (due jobs), callers of [run_sync_now], the one worker thread of
    [_process_tasks], the timeout thread, and the threads that call
    [SyncOrchestrator.trigger_sync] (the monitor's per-event threads, the
    UI executor, the initial synchronisation).  Each action is one
    critical section or call; a run of [sync_config] spans two actions and
    takes effect on the world when it returns. *)

Inductive worker_state :=
| Idle
| Busy (config_id : Z) (history_id : nat)
| Exited.

Inductive origin := ByWorker | ByTrigger.

Record system := {
  sched : scheduler;
  the_world : world;
  worker : worker_state;
  runs : list (Z * origin)      (* the calls of sync_config in progress *)
}.

Inductive action_label :=
| DueJob (now : datetime) (a : job_action)
| RunSyncNow (now : datetime) (config_id : Z)
| WorkerTake (now : datetime)
| WorkerDone (now : datetime)
| Sweep (now : datetime)
| TriggerSync (config_id : Z)
| TriggerReturns (config_id : Z).

Global Instance origin_eq_dec : EqDecision origin.
Proof. solve_decision. Defined.

(** Removes the first occurrence of a run. *)
Fixpoint remove_run (r : Z * origin) (l : list (Z * origin)) : list (Z * origin) :=
  match l with
  | [] => []
  | x :: rest => if decide (x = r) then rest else x :: remove_run r rest
  end.

(** [exec E a sys]: the system after the action, [None] when the action
    cannot happen in [sys]. *)
Definition exec (E : Service.env) (a : action_label) (sys : system)
    : option system :=
  match a with
  | DueJob now act =>
      Some {| sched := run_job now act (sched sys); the_world := the_world sys;
              worker := worker sys; runs := runs sys |}
  | RunSyncNow now c =>
      Some {| sched := (run_sync_now now c (db (the_world sys)) (sched sys)).2;
              the_world := the_world sys;
              worker := worker sys; runs := runs sys |}
  | WorkerTake now =>
      match worker sys, task_queue (sched sys) with
      | Idle, None :: q =>
          Some {| sched := with_task_queue q (sched sys);
                  the_world := the_world sys; worker := Exited;
                  runs := runs sys |}
      | Idle, Some t :: q =>
          let s := with_task_queue q (sched sys) in
          if String.eqb (task_type t) "sync" then
            match handle_sync_task_begin now (task_config_id t) s (the_world sys) with
            | Some (s1, w1, history_id) =>
                Some {| sched := s1; the_world := w1;
                        worker := Busy (task_config_id t) history_id;
                        runs := runs sys ++ [(task_config_id t, ByWorker)] |}
            | None =>
                Some {| sched := log Error (LogNoConfig (task_config_id t)) s;
                        the_world := the_world sys; worker := Idle;
                        runs := runs sys |}
            end
          else
            Some {| sched := s; the_world := the_world sys; worker := Idle;
                    runs := runs sys |}
      | _, _ => None
      end
  | WorkerDone now =>
      match worker sys with
      | Busy c history_id =>
          let '(w2, result) := Service.sync_config E c (the_world sys) in
          let '(s1, w3) := handle_sync_task_end now c history_id result
                             (sched sys) w2 in
          Some {| sched := s1; the_world := w3; worker := Idle;
                  runs := remove_run (c, ByWorker) (runs sys) |}
      | _ => None
      end
  | Sweep now =>
      let '(s1, w1) := check_task_timeouts now (sched sys) (the_world sys) in
      Some {| sched := s1; the_world := w1; worker := worker sys;
              runs := runs sys |}
  | TriggerSync c =>
      Some {| sched := sched sys; the_world := the_world sys;
              worker := worker sys; runs := runs sys ++ [(c, ByTrigger)] |}
  | TriggerReturns c =>
      if bool_decide ((c, ByTrigger) ∈ runs sys) then
        Some {| sched := sched sys;
                the_world := (Service.sync_config E c (the_world sys)).1;
                worker := worker sys;
                runs := remove_run (c, ByTrigger) (runs sys) |}
      else None
  end.

Fixpoint exec_all (E : Service.env) (l : list action_label) (sys : system)
    : option system :=
  match l with
  | [] => Some sys
  | a :: rest =>
      match exec E a sys with
      | Some sys' => exec_all E rest sys'
      | None => None
      end
  end.

(** The system once [SyncOrchestrator.start] has started the scheduler:
    [__init__] then [start], with the attribute [max_concurrent_tasks]
    at [k]. *)
Definition started (k : nat) (w : world) : system :=
  {| sched := with_running true (with_max_concurrent_tasks k init);
     the_world := w; worker := Idle; runs := [] |}.

Definition reachable (E : Service.env) (k : nat) (w : world) (sys : system) : Prop :=
  ∃ l, exec_all E l (started k w) = Some sys.

(** The runs of one configuration in progress. *)
Definition runs_of (config_id : Z) (sys : system) : nat :=
  length (filter (λ r : Z * origin, r.1 = config_id) (runs sys)).

(** What [sync_config] returns inside [_handle_sync_task]. *)
Definition run_result (E : Service.env) (now : datetime) (c : Z)
    (s : scheduler) (w : world) : bool :=
  match handle_sync_task_begin now c s w with
  | Some (_, w1, _) => (Service.sync_config E c w1).2
  | None => false
  end.

(** The calls of [sync_config] in progress that the worker thread made. *)
Definition worker_runs (sys : system) : list (Z * origin) :=
  filter (λ r : Z * origin, r.2 = ByWorker) (runs sys).

(** What every step of the running system keeps: the capacity is never
    changed; a configuration is in [active_tasks] only while the worker
    runs it; with capacity 0 nothing is ever queued; and the worker has at
    most one call of [sync_config] in progress. *)
Definition inv (k : nat) (sys : system) : Prop :=
  max_concurrent_tasks (sched sys) = k
  ∧ (∀ c, is_Some (active_tasks (sched sys) !! c) →
       ∃ h, worker sys = Busy c h)
  ∧ (k = 0%nat → task_queue (sched sys) = [] ∧ ∀ c h, worker sys ≠ Busy c h)
  ∧ worker_runs sys
    = match worker sys with Busy c _ => [(c, ByWorker)] | _ => [] end.

Definition with_schedules (m : gmap Z (job * string * string)) (s : scheduler)
    : scheduler :=
  {| running := running s; task_queue := task_queue s;
     active_tasks := active_tasks s; schedules := m;
     max_concurrent_tasks := max_concurrent_tasks s;
     task_timeout := task_timeout s; logged := logged s |}.

(** [with self.lock:] around a method body.  [self.lock] is a
    [threading.Lock], which is not reentrant: when the calling thread
    holds it already ([held]), the thread waits for itself and the call
    never returns, which is [None] here.  Waiting for another thread only
    delays the call. *)
Definition with_lock {A} (held : bool) (body : option A) : option A :=
  if held then None else body.

(** [remove_schedule(config_id)]; the log lines are left out. *)
Definition remove_schedule (held : bool) (config_id : Z) (s : scheduler)
    : option (bool * scheduler) :=
  with_lock held
    (if bool_decide (is_Some (schedules s !! config_id)) then
       Some (true, with_schedules (delete config_id (schedules s)) s)
     else Some (false, s)).

(** [add_schedule(config_id, schedule_type, schedule_value)]; the log
    lines are left out.  [accepts] tells whether the [schedule] library
    takes the job ([at] raises on a malformed time, [every] on a bad
    interval); an exception makes the method answer [False]. *)
Definition add_schedule (accepts : job → bool) (held : bool) (config_id : Z)
    (schedule_type schedule_value : string) (d : database) (s : scheduler)
    : option (bool * scheduler) :=
  with_lock held
    (if negb (running s) then Some (false, s)
     else
       match get_sync_config config_id d with
       | None => Some (false, s)
       | Some _ =>
           match (if bool_decide (is_Some (schedules s !! config_id))
                  then remove_schedule true config_id s
                  else Some (false, s)) with
           | None => None
           | Some (_, s1) =>
               match add_schedule_job config_id schedule_type schedule_value with
               | Some j =>
                   if accepts j then
                     Some (true,
                           with_schedules
                             (<[config_id := (j, schedule_type, schedule_value)]>
                                (schedules s1)) s1)
                   else Some (false, s1)
               | None => Some (false, s1)
               end
           end
       end).

(** What [add_schedule] stores for a configuration that has no schedule
    yet. *)
Definition new_schedule (accepts : job → bool) (c : Z) (ty v : string)
    (d : database) (s : scheduler) : option (job * string * string) :=
  if running s && bool_decide (is_Some (get_sync_config c d)) then
    match add_schedule_job c ty v with
    | Some j => if accepts j then Some (j, ty, v) else None
    | None => None
    end
  else None.

(** [SyncOrchestrator._sync_schedules(configs)], from the dictionary
    [desired] it builds first: the type and value of the schedule of
    every active configuration that has one. *)
Definition _sync_schedules (accepts : job → bool)
    (desired : gmap Z (string * string)) (d : database) (s : scheduler)
    : option scheduler :=
  let existing : gset Z := dom (schedules s) in
  let s1 :=
    foldl (λ os config_id,
             os ≫= λ s, snd <$> remove_schedule false config_id s)
          (Some s) (elements (existing ∖ dom desired)) in
  foldl (λ os (kv : Z * (string * string)),
           os ≫= λ s,
             if bool_decide (kv.1 ∈ existing) then Some s
             else snd <$> add_schedule accepts false kv.1 kv.2.1 kv.2.2 d s)
        s1 (map_to_list desired).

End Scheduler.


(* ===================================================================== *)
(** * Sample folders and configurations *)
(* ===================================================================== *)

Module Examples.
Import Paths Database Local.

Definition local_config : config :=
  {| target_type := "local"; target_path := Some "/backup";
     delete_missing := true |}.

Definition no_target_config : config :=
  {| target_type := "local"; target_path := None; delete_missing := true |}.

(** A database with configuration 1 and nothing else. *)
Definition fresh_db : database :=
  {| sync_configs := {[ 1 := local_config ]}; file_states := ∅;
     sync_history := []; sync_file_operations := [] |}.

Definition new_report : file := {| st_size := 1; st_mtime := 10; md5 := "aa" |}.
Definition old_report : file := {| st_size := 2; st_mtime := 5; md5 := "bb" |}.
Definition user_notes : file := {| st_size := 7; st_mtime := 3; md5 := "uu" |}.

(** The source holds a newer [x.txt]; the destination holds the old
    [x.txt] and a file [x.txt.bak] that somebody else put there.  No
    [file_states] row exists. *)
Definition clobber_world : world :=
  {| source := Some {[ "x.txt" := new_report ]};
     target := Some {[ "x.txt" := old_report; "x.txt.bak" := user_notes ]};
     db := fresh_db; events := [] |}.

(** Source and destination both hold [x.txt.bak]; only [x.txt] differs. *)
Definition backup_in_source_world : world :=
  {| source := Some {[ "x.txt" := new_report; "x.txt.bak" := user_notes ]};
     target := Some {[ "x.txt" := old_report; "x.txt.bak" := user_notes ]};
     db := fresh_db; events := [] |}.

(** Two new files and an empty destination. *)
Definition two_files_world : world :=
  {| source := Some {[ "a.txt" := new_report; "b.txt" := user_notes ]};
     target := Some ∅;
     db := fresh_db; events := [] |}.

(** Source and destination agree on the one file; no row exists. *)
Definition in_sync_world : world :=
  {| source := Some {[ "x.txt" := new_report ]};
     target := Some {[ "x.txt" := new_report ]};
     db := fresh_db; events := [] |}.

(** A service whose remote managers all fail to connect. *)
Definition local_only (E : Local.env) : Service.env :=
  {| Service.local_env := E;
     Service.remote_manager := λ _ _ _ w, (w, Service.Raised) |}.

Definition midnight : Scheduler.datetime :=
  {| Scheduler.seconds := 0; Scheduler.day := 1; Scheduler.hour := 0;
     Scheduler.minute := 0 |}.

(* Examples *)
Definition stale_target_world : world :=
  {| source := Some {[ "a.txt" := new_report ]};
     target := Some {[ "a.txt" := new_report; "old.txt" := old_report ]};
     db := with_file_states {[ (1, "old.txt") := synced_row old_report ]} fresh_db;
     events := [] |}.

(** As [stale_target_world], with a file in the destination that the
    engine never wrote. *)
Definition kept_notes_world : world :=
  {| source := Some {[ "a.txt" := new_report ]};
     target := Some {[ "a.txt" := old_report; "notes.txt" := user_notes;
                       "old.txt" := old_report ]};
     db := with_file_states {[ (1, "old.txt") := synced_row old_report ]} fresh_db;
     events := [] |}.

Definition no_source_world : world :=
  {| source := None;
     target := Some {[ "old.txt" := old_report ]};
     db := with_file_states {[ (1, "old.txt") := synced_row old_report ]} fresh_db;
     events := [] |}.

Definition no_target_world : world :=
  {| source := Some {[ "a.txt" := new_report ]};
     target := None; db := fresh_db; events := [] |}.

Definition cannot_create_target : Local.env :=
  {| listdir := walk_sorted;
     makedirs_target_fails := true;
     makedirs_fails := λ _, false;
     backup_fails := λ _, false;
     copy_fails := λ _, false;
     backup_removal_fails := λ _, false;
     remove_fails := λ _, false;
     utcnow := 0 |}.

Definition ftp_typo_config : config :=
  {| target_type := "sftp"; target_path := None; delete_missing := true |}.

Definition typo_world : world :=
  {| source := Some {[ "x.txt" := new_report ]};
     target := Some ∅;
     db := {| sync_configs := {[ 1 := ftp_typo_config ]}; file_states := ∅;
              sync_history := []; sync_file_operations := [] |};
     events := [] |}.

Definition half_past_nine : Scheduler.datetime :=
  {| Scheduler.seconds := 34200; Scheduler.day := 1; Scheduler.hour := 9;
     Scheduler.minute := 30 |}.


End Examples.

(* ##################################################################### *)
(** * Part II: theorems *)
(* ##################################################################### *)

Local Open Scope list_scope.

(* ===================================================================== *)
(** * Facts about the tables *)
(* ===================================================================== *)

Module DatabaseTheory.
Import Paths Database Local.

Lemma elem_of_get_file_states c d p s :
  (p, s) ∈ get_file_states c d ↔ file_states d !! (c, p) = Some s.
Proof.
  unfold get_file_states. rewrite list_elem_of_omap. split.
  - intros ([[c' p'] s'] & Hin & Hf). simpl in Hf.
    case_decide; simplify_eq. by apply elem_of_map_to_list in Hin.
  - intros H. exists (c, p, s). split; [by apply elem_of_map_to_list|].
    simpl. by rewrite decide_True.
Qed.

Lemma lookup_get_file_states c d p :
  find (λ row : string * file_state, String.eqb row.1 p) (get_file_states c d)
  = (λ s, (p, s)) <$> file_states d !! (c, p).
Proof.
  destruct (find _ _) as [[p' s]|] eqn:Hf.
  - apply find_some in Hf as [Hin Heq]. simpl in Heq.
    apply String.eqb_eq in Heq as ->.
    apply list_elem_of_In, elem_of_get_file_states in Hin. by rewrite Hin.
  - destruct (file_states d !! (c, p)) as [s|] eqn:Hs; [|done].
    apply elem_of_get_file_states, list_elem_of_In in Hs.
    eapply find_none in Hf; [|exact Hs]. simpl in Hf.
    by rewrite String.eqb_refl in Hf.
Qed.

End DatabaseTheory.

(* ===================================================================== *)
(** * The local engine: how a run advances *)
(* ===================================================================== *)

Module LocalTheory.
Import Paths Database Local DatabaseTheory.

Ltac in_list H :=
  repeat (apply elem_of_cons in H as [?|H]; [simplify_eq/=; try done|]);
  try (by apply elem_of_nil in H).

Lemma copy_file_spec E p st :
  ∃ evs,
    events (st_world (_copy_file E p st).2) = events (st_world st) ++ evs
    ∧ source (st_world (_copy_file E p st).2) = source (st_world st)
    ∧ db (st_world (_copy_file E p st).2) = db (st_world st)
    ∧ plain evs
    ∧ (if (_copy_file E p st).1
       then EvCopied p ∈ evs ∧ failures evs = 0%nat
            ∧ st_stats (_copy_file E p st).2 = st_stats st
       else EvCopyFailed p ∈ evs ∧ failures evs = 1%nat
            ∧ st_stats (_copy_file E p st).2 = incr_errors (st_stats st)).
Proof.
  destruct st as [w s]. unfold _copy_file. simpl.
  destruct (read_target w p) as [old|] eqn:Ht;
    [destruct (backup_fails E p) eqn:Hb|];
    unfold read_source, write_target, emit, with_target, unlink_target; simpl;
    destruct (source w ≫= _) as [f|] eqn:Hs; simpl;
    try destruct (copy_fails E p) eqn:Hc; simpl;
    try destruct (backup_removal_fails E p) eqn:Hr; simpl;
    rewrite <- ?app_assoc; simpl;
    (eexists; split; [reflexivity|]);
    (split; [done|]); (split; [done|]);
    (split; [intros e He seen; in_list He|]);
    (split; [repeat constructor|]); done.
Qed.

Lemma justified_nil : justified [].
Proof. intros i e H. by rewrite lookup_nil in H. Qed.

Lemma needs_mono e seen pre : needs e seen → needs e (pre ++ seen).
Proof. destruct e; simpl; try done; intros H; apply elem_of_app; by right. Qed.

Lemma needs_mono_r e seen post : needs e seen → needs e (seen ++ post).
Proof. destruct e; simpl; try done; intros H; apply elem_of_app; by left. Qed.

Lemma justified_app a b : justified a → justified b → justified (a ++ b).
Proof.
  intros Ha Hb i e Hi.
  destruct (decide (i < length a)%nat) as [Hlt|Hge].
  - rewrite lookup_app_l in Hi by done.
    rewrite take_app_le by lia. by apply Ha.
  - rewrite lookup_app_r in Hi by lia.
    rewrite take_app_ge by lia. apply needs_mono. by apply Hb.
Qed.

Lemma justified_plain evs : plain evs → justified evs.
Proof. intros H i e Hi. apply H. by eapply list_elem_of_lookup_2. Qed.

Lemma justified_snoc evs e : justified evs → needs e evs → justified (evs ++ [e]).
Proof.
  intros Ha Hn i e' Hi.
  destruct (decide (i < length evs)%nat) as [Hlt|Hge].
  - rewrite lookup_app_l in Hi by done. rewrite take_app_le by lia. by apply Ha.
  - rewrite lookup_app_r in Hi by lia.
    destruct (i - length evs)%nat as [|n] eqn:Hn'; simpl in Hi; [|by rewrite lookup_nil in Hi].
    simplify_eq. assert (i = length evs) as -> by lia.
    rewrite take_app_le by lia. by rewrite firstn_all.
Qed.

Lemma failures_app a b : failures (a ++ b) = (failures a + failures b)%nat.
Proof. unfold failures. by rewrite filter_app, length_app. Qed.

Lemma advances_refl st : advances st st [].
Proof.
  unfold advances. rewrite app_nil_r. split_and!; try done.
  exists []. by rewrite app_nil_r.
Qed.

Lemma advances_trans st st1 st2 e1 e2 :
  advances st st1 e1 → advances st1 st2 e2 → advances st st2 (e1 ++ e2).
Proof.
  intros (H1 & H2 & H3 & H4 & H5 & H6 & o1 & H7 & H8)
         (G1 & G2 & G3 & G4 & G5 & G6 & o2 & G7 & G8).
  unfold advances. rewrite G1, H1, G2, H2, G3, H3, G4, H4, G5, H5, failures_app.
  rewrite app_assoc. split_and!; try done.
  - lia.
  - by apply justified_app.
  - exists (o1 ++ o2). rewrite G7, H7, app_assoc. split; [done|].
    by apply Forall_app.
Qed.

Lemma copy_file_advances E p st :
  ∃ evs, advances st (_copy_file E p st).2 evs
    ∧ db (st_world (_copy_file E p st).2) = db (st_world st)
    ∧ plain evs
    ∧ (∀ q, EvRemoved q ∉ evs)
    ∧ (if (_copy_file E p st).1
       then EvCopied p ∈ evs
            ∧ st_stats (_copy_file E p st).2 = st_stats st
       else EvCopyFailed p ∈ evs).
Proof.
  destruct st as [w s]. unfold _copy_file. simpl.
  destruct (read_target w p) as [old|] eqn:Ht;
    [destruct (backup_fails E p) eqn:Hb|];
    unfold read_source, write_target, emit, with_target, unlink_target; simpl;
    destruct (source w ≫= _) as [f|] eqn:Hs; simpl;
    try destruct (copy_fails E p) eqn:Hc; simpl;
    try destruct (backup_removal_fails E p) eqn:Hr; simpl;
    rewrite <- ?app_assoc; simpl;
    (eexists; split;
     [unfold advances; simpl; split_and!;
      [reflexivity|done|done|done|unfold failures; simpl; lia|
       apply justified_plain; intros e He seen; in_list He|
       exists []; by rewrite app_nil_r]|]);
    (split; [done|]);
    (split; [intros e He seen; in_list He|]);
    (split; [intros q He; in_list He|]);
    try (split; [|done]); repeat constructor.
Qed.


Lemma after_copy_advances c hid op p st st1 evs (bump : sync_stats → sync_stats) :
  advances st st1 evs → EvCopied p ∈ evs → (∀ q, EvRemoved q ∉ evs) →
  db (st_world st1) = db (st_world st) →
  (∀ s, errors (bump s) = errors s) →
  let st' := on_world (λ w, log_operation hid op p
                              (_update_file_state_in_db c p "synced" w))
               (on_stats bump st1) in
  ∃ evs', advances st st' evs'
    ∧ (∃ e, e ∈ evs' ∧ attempt_of p e)
    ∧ (∀ q, EvRemoved q ∉ evs')
    ∧ (∀ k, k ≠ (c, p) →
         file_states (db (st_world st')) !! k = file_states (db (st_world st)) !! k).
Proof.
  intros (H1 & H2 & H3 & H4 & H5 & H6 & ops & H7 & H8) Hc Hr Hdb Hb st'.
  subst st'. destruct st1 as [w1 s1]. simpl in *.
  unfold on_world, on_stats, _update_file_state_in_db, log_operation,
    read_source, emit, with_db.
  simpl. rewrite H2.
  destruct (source (st_world st) ≫= _) as [f|] eqn:Hs; simpl.
  - exists (evs ++ [EvFileStateUpsert c p "synced"]).
    split; [|split; [|split]].
    + unfold advances, emit, with_db, read_source; simpl.
      destruct hid; simpl; rewrite ?H1, ?H2, ?H3, ?H4, ?Hb, ?H5, ?H7, ?Hdb,
        ?failures_app, <- ?app_assoc; simpl;
        (split_and!; first [done | (unfold failures; simpl; lia)
                            | by apply justified_snoc | idtac]).
      * eexists. split; [reflexivity|done].
      * eexists. split; [reflexivity|].
        apply Forall_app. split; [done|]. by repeat constructor.
    + exists (EvCopied p). split; [apply elem_of_app; by left|].
      unfold attempt_of. auto.
    + intros q Hq. apply elem_of_app in Hq as [Hq|Hq]; [by eapply Hr|in_list Hq].
    + intros k Hk. destruct hid; simpl; rewrite Hdb;
        by rewrite lookup_insert_ne.
  - exists evs. split; [|split; [|split]].
    + unfold advances, with_db; simpl.
      destruct hid; simpl; rewrite ?H1, ?H2, ?H3, ?H4, ?Hb, ?H5, ?H7;
        (split_and!; try done).
      * by exists ops.
      * eexists (ops ++ [_]). rewrite <- app_assoc. split; [done|].
        apply Forall_app. split; [done|]. by repeat constructor.
    + exists (EvCopied p). split; [done|]. unfold attempt_of. auto.
    + done.
    + intros k Hk. destruct hid; simpl; by rewrite Hdb.
Qed.

Ltac solve_plain_advances :=
  unfold advances, emit, failures; simpl; split_and!;
  first [ done | lia
        | (apply justified_plain;
           let e := fresh "e" in let He := fresh "He" in
           intros e He ?; in_list He)
        | (exists []; by rewrite app_nil_r) ].

Lemma sync_source_file_advances E c hid tfs st p :
  ∃ evs, advances st (sync_source_file E c hid tfs st p) evs
    ∧ (∃ e, e ∈ evs ∧ attempt_of p e)
    ∧ (∀ q, EvRemoved q ∉ evs)
    ∧ (∀ k, k ≠ (c, p) →
         file_states (db (st_world (sync_source_file E c hid tfs st p))) !! k
         = file_states (db (st_world st)) !! k).
Proof.
  unfold sync_source_file.
  destruct (makedirs_fails E p).
  { exists [EvMakedirsFailed p]. split_and!.
    - solve_plain_advances.
    - exists (EvMakedirsFailed p). split; [by constructor|]. unfold attempt_of. auto.
    - intros q Hq. in_list Hq.
    - done. }
  pose proof (copy_file_advances E p st) as (evs & Hadv & Hdb & Hp & Hr & Hok).
  destruct (negb (bool_decide (p ∈ tfs))).
  { destruct (_copy_file E p st) as [[] st1]; simpl in *.
    - destruct Hok as [Hok Hst]. by eapply after_copy_advances.
    - exists evs. split_and!; try done.
      + exists (EvCopyFailed p). split; [done|]. unfold attempt_of. auto.
      + intros k _. by rewrite Hdb. }
  destruct (_need_update (st_world st) c p).
  { destruct (_copy_file E p st) as [[] st1]; simpl in *.
    - destruct Hok as [Hok Hst]. by eapply after_copy_advances.
    - exists evs. split_and!; try done.
      + exists (EvCopyFailed p). split; [done|]. unfold attempt_of. auto.
      + intros k _. by rewrite Hdb. }
  exists [EvSkipped p]. split_and!.
  - solve_plain_advances.
  - exists (EvSkipped p). split; [by constructor|]. unfold attempt_of. auto.
  - intros q Hq. in_list Hq.
  - done.
Qed.

Lemma delete_target_file_advances E c hid sfs (synced : gset string) st q :
  let st' := delete_target_file E c hid sfs synced st q in
  ∃ evs, advances st st' evs
    ∧ (∀ r, EvRemoved r ∈ evs → r = q ∧ (q ∉ sfs) ∧ q ∈ synced)
    ∧ (q ∉ sfs → q ∈ synced →
         (∃ e, e ∈ evs ∧ removal_of q e) ∨ read_target (st_world st') q = None)
    ∧ (∀ r, read_target (st_world st) r = None → read_target (st_world st') r = None)
    ∧ (∀ k, k ≠ (c, q) →
         file_states (db (st_world st')) !! k = file_states (db (st_world st)) !! k).
Proof.
  intros st'. subst st'. unfold delete_target_file.
  destruct (bool_decide (q ∈ sfs)) eqn:Hs.
  { exists []. split_and!; try done.
    - apply advances_refl.
    - intros r Hr. in_list Hr.
    - intros Hq. by apply bool_decide_eq_true in Hs. }
  apply bool_decide_eq_false in Hs.
  destruct (bool_decide (q ∈ synced)) eqn:Hy.
  2:{ exists []. split_and!; try done.
      - apply advances_refl.
      - intros r Hr. in_list Hr.
      - intros _ Hq. by apply bool_decide_eq_false in Hy. }
  apply bool_decide_eq_true in Hy.
  destruct st as [w s]. unfold _delete_file. simpl.
  destruct (read_target w q) as [f|] eqn:Ht.
  2:{ exists []. split_and!; try done.
      - apply advances_refl.
      - intros r Hr. in_list Hr.
      - intros _ _. by right. }
  destruct (remove_fails E q) eqn:Hf; simpl.
  { exists [EvRemoveFailed q]. split_and!; try done.
    - solve_plain_advances.
    - intros r Hr. in_list Hr.
    - intros _ _. left. exists (EvRemoveFailed q). split; [by constructor|].
      unfold removal_of. auto. }
  exists [EvRemoved q; EvFileStateDelete c q]. split_and!.
  - unfold advances, on_world, on_stats, emit, with_db, unlink_target, with_target;
      simpl.
    destruct hid; simpl; rewrite <- ?app_assoc; simpl;
      (split_and!; first [ done | (unfold failures; simpl; lia)
        | (apply (justified_snoc [EvRemoved q]);
           [apply justified_plain; intros e He ?; in_list He|by constructor])
        | idtac ]).
    + exists []. by rewrite app_nil_r.
    + eexists. split; [reflexivity|]. by repeat constructor.
  - intros r Hr. in_list Hr.
  - intros _ _. left. exists (EvRemoved q). split; [by constructor|].
    unfold removal_of. auto.
  - intros r Hr. unfold on_world, on_stats, emit, with_db, unlink_target,
      with_target, read_target in *; simpl in *.
    destruct hid; simpl; destruct (target w) as [t|]; simpl in *; try done;
      (destruct (decide (r = q)) as [->|Hne];
       [by rewrite lookup_delete_eq | by rewrite lookup_delete_ne]).
  - intros k Hk. unfold on_world, on_stats, emit, with_db; simpl.
    destruct hid; simpl; by rewrite lookup_delete_ne.
Qed.

Lemma copy_loop_advances E c hid tfs l st :
  let st' := foldl (sync_source_file E c hid tfs) st l in
  ∃ evs, advances st st' evs
    ∧ (∀ p, p ∈ l → ∃ e, e ∈ evs ∧ attempt_of p e)
    ∧ (∀ q, EvRemoved q ∉ evs)
    ∧ (∀ k, (∀ p, p ∈ l → k ≠ (c, p)) →
         file_states (db (st_world st')) !! k = file_states (db (st_world st)) !! k).
Proof.
  revert st. induction l as [|x l IH]; intros st st'; subst st'; simpl.
  { exists []. split_and!; try done.
    - apply advances_refl.
    - intros p Hp. in_list Hp.
    - intros q Hq. in_list Hq. }
  destruct (sync_source_file_advances E c hid tfs st x) as (e1 & A1 & B1 & C1 & D1).
  destruct (IH (sync_source_file E c hid tfs st x)) as (e2 & A2 & B2 & C2 & D2).
  exists (e1 ++ e2). split_and!.
  - by eapply advances_trans.
  - intros p Hp. apply elem_of_cons in Hp as [->|Hp].
    + destruct B1 as (e & He & Ha). exists e. split; [|done].
      apply elem_of_app. by left.
    + destruct (B2 p Hp) as (e & He & Ha). exists e. split; [|done].
      apply elem_of_app. by right.
  - intros q Hq. apply elem_of_app in Hq as [Hq|Hq]; [by eapply C1|by eapply C2].
  - intros k Hk. rewrite D2, D1; [done| |].
    + apply Hk. by constructor.
    + intros p Hp. apply Hk. by constructor.
Qed.

Lemma delete_loop_advances E c hid sfs (synced : gset string) l st :
  let st' := foldl (delete_target_file E c hid sfs synced) st l in
  ∃ evs, advances st st' evs
    ∧ (∀ r, EvRemoved r ∈ evs → r ∈ l ∧ (r ∉ sfs) ∧ r ∈ synced)
    ∧ (∀ q, q ∈ l → q ∉ sfs → q ∈ synced →
         (∃ e, e ∈ evs ∧ removal_of q e) ∨ read_target (st_world st') q = None)
    ∧ (∀ r, read_target (st_world st) r = None → read_target (st_world st') r = None)
    ∧ (∀ k, (∀ q, q ∈ l → k ≠ (c, q)) →
         file_states (db (st_world st')) !! k = file_states (db (st_world st)) !! k).
Proof.
  revert st. induction l as [|x l IH]; intros st st'; subst st'; simpl.
  { exists []. split_and!; try done.
    - apply advances_refl.
    - intros r Hr. in_list Hr.
    - intros q Hq. in_list Hq. }
  destruct (delete_target_file_advances E c hid sfs synced st x)
    as (e1 & A1 & B1 & C1 & D1 & F1).
  destruct (IH (delete_target_file E c hid sfs synced st x))
    as (e2 & A2 & B2 & C2 & D2 & F2).
  exists (e1 ++ e2). split_and!.
  - by eapply advances_trans.
  - intros r Hr. apply elem_of_app in Hr as [Hr|Hr].
    + destruct (B1 r Hr) as (-> & ? & ?). split_and!; try done. by constructor.
    + destruct (B2 r Hr) as (? & ? & ?). split_and!; try done. by constructor.
  - intros q Hq Hs Hy. apply elem_of_cons in Hq as [->|Hq].
    + destruct (C1 Hs Hy) as [(e & He & Ha)|Hn].
      * left. exists e. split; [|done]. apply elem_of_app. by left.
      * right. by apply D2.
    + destruct (C2 q Hq Hs Hy) as [(e & He & Ha)|Hn]; [|by right].
      left. exists e. split; [|done]. apply elem_of_app. by right.
  - intros r Hr. by apply D2, D1.
  - intros k Hk. rewrite F2, F1; [done| |].
    + apply Hk. by constructor.
    + intros q Hq. apply Hk. by constructor.
Qed.

Lemma get_files_list_empty E : _get_files_list E (Some ∅) = [].
Proof.
  unfold _get_files_list. induction (listdir E ∅) as [|p l IH]; [done|].
  simpl. rewrite lookup_empty. simpl. destruct (hidden p); simpl; exact IH.
Qed.

Lemma elem_of_synced c d q :
  q ∈ (list_to_set (get_file_states c d).*1 : gset string)
  ↔ is_Some (file_states d !! (c, q)).
Proof.
  rewrite elem_of_list_to_set, list_elem_of_fmap. split.
  - intros ([p s] & -> & Hin). simpl. apply elem_of_get_file_states in Hin. eauto.
  - intros [s Hs]. exists (q, s). split; [done|]. by apply elem_of_get_file_states.
Qed.

Lemma sync_folders_unfold E c dm hid w0 :
  sync_folders E c dm hid w0 =
  let w := (begin_history c hid w0).1 in
  let cid := (begin_history c hid w0).2 in
  match source w with
  | None =>
      {| st_world := with_db (update_sync_history cid
                                (set_status_message "error" MsgSourceMissing)
                                (db w)) w;
         st_stats := stats0 |}
  | Some _ =>
      if bool_decide (target w = None) && makedirs_target_fails E then
        {| st_world := with_db (update_sync_history cid
                                  (set_status_message "error" MsgTargetFolderFailed)
                                  (db w)) w;
           st_stats := incr_errors stats0 |}
      else
        let w := with_target (Some (default ∅ (target w))) w in
        let sfs := (_get_files_list E (source w)).*1 in
        let tfs := (_get_files_list E (target w)).*1 in
        let st := foldl (sync_source_file E c cid tfs)
                    {| st_world := w; st_stats := stats0 |} sfs in
        let st :=
          if dm then
            foldl (delete_target_file E c cid sfs
                     (list_to_set (get_file_states c (db (st_world st))).*1)) st tfs
          else st in
        finish_history E cid st
  end.
Proof.
  unfold sync_folders, begin_history.
  destruct hid as [[|i]|]; reflexivity.
Qed.

Lemma begin_history_spec c hid w :
  source (begin_history c hid w).1 = source w
  ∧ target (begin_history c hid w).1 = target w
  ∧ events (begin_history c hid w).1 = events w
  ∧ sync_configs (db (begin_history c hid w).1) = sync_configs (db w)
  ∧ file_states (db (begin_history c hid w).1) = file_states (db w)
  ∧ sync_file_operations (db (begin_history c hid w).1) = sync_file_operations (db w).
Proof. unfold begin_history. by destruct hid as [[|i]|]. Qed.

Lemma update_sync_history_spec id f d :
  sync_configs (update_sync_history id f d) = sync_configs d
  ∧ file_states (update_sync_history id f d) = file_states d
  ∧ sync_file_operations (update_sync_history id f d) = sync_file_operations d.
Proof. by destruct id. Qed.

Ltac early_return :=
  first [ done | apply justified_nil | congruence
        | (exists []; by rewrite app_nil_r)
        | solve [let q := fresh "q" in let Hq := fresh "Hq" in
                 intros q Hq; in_list Hq]
        | idtac ].

Lemma sync_folders_run E c dm hid w :
  let st := sync_folders E c dm hid w in
  ∃ evs, events (st_world st) = events w ++ evs
    ∧ justified evs
    ∧ source (st_world st) = source w
    ∧ sync_configs (db (st_world st)) = sync_configs (db w)
    ∧ (∃ ops, sync_file_operations (db (st_world st))
              = sync_file_operations (db w) ++ ops
            ∧ Forall (λ o, op_status o = "success") ops)
    ∧ (∀ q, EvRemoved q ∈ evs →
         dm = true ∧ q ∈ target_files E w ∧ (q ∉ source_files E w)
         ∧ is_Some (file_states (db w) !! (c, q)))
    ∧ (is_Some (source w) →
       (target w = None → makedirs_target_fails E = false) →
         errors (st_stats st) = failures evs
         ∧ (∀ p, p ∈ source_files E w → ∃ e, e ∈ evs ∧ attempt_of p e)
         ∧ (dm = true → ∀ q, q ∈ target_files E w → q ∉ source_files E w →
              is_Some (file_states (db w) !! (c, q)) →
              (∃ e, e ∈ evs ∧ removal_of q e)
              ∨ read_target (st_world st) q = None)).
Proof.
  intros st. subst st. rewrite sync_folders_unfold.
  destruct (begin_history_spec c hid w) as (Bs & Bt & Be & Bc & Bf & Bo).
  set (w1 := (begin_history c hid w).1) in *.
  set (cid := (begin_history c hid w).2) in *.
  cbv zeta.
  destruct (source w1) as [ts|] eqn:Hsrc; cbv beta iota.
  2:{ exists []. rewrite app_nil_r. simpl.
      destruct (update_sync_history_spec cid
                  (set_status_message "error" MsgSourceMissing) (db w1))
        as (U1 & U2 & U3).
      rewrite U1, U3. split_and!; early_return.
      intros [t Ht]. congruence. }
  destruct (bool_decide (target w1 = None) && makedirs_target_fails E) eqn:Hmk;
    cbv beta iota.
  { exists []. rewrite app_nil_r. simpl.
    destruct (update_sync_history_spec cid
                (set_status_message "error" MsgTargetFolderFailed) (db w1))
      as (U1 & U2 & U3).
    rewrite U1, U3. split_and!; early_return.
    intros _ Hm. apply andb_true_iff in Hmk as [Hn Hm'].
      apply bool_decide_eq_true in Hn. rewrite Bt in Hn.
      rewrite (Hm Hn) in Hm'. done. }
  set (w2 := with_target (Some (default ∅ (target w1))) w1).
  assert (Hsfs : (_get_files_list E (source w2)).*1 = source_files E w).
  { unfold source_files. simpl. by rewrite Hsrc, Bs. }
  assert (Htfs : (_get_files_list E (target w2)).*1 = target_files E w).
  { unfold target_files.
    replace (target w2) with (Some (default ∅ (target w)))
      by (unfold w2; simpl; by rewrite Bt).
    destruct (target w) as [t|]; [done|].
    change (default ∅ None) with (∅ : gmap string file).
    by rewrite get_files_list_empty. }
  rewrite Hsfs, Htfs.
  set (st0 := {| st_world := w2; st_stats := stats0 |}).
  destruct (copy_loop_advances E c cid (target_files E w) (source_files E w) st0)
    as (e1 & A1 & B1 & C1 & D1).
  set (st1 := foldl (sync_source_file E c cid (target_files E w)) st0
                (source_files E w)) in *.
  assert (Hrow : ∀ q, q ∉ source_files E w →
            file_states (db (st_world st1)) !! (c, q) = file_states (db w) !! (c, q)).
  { intros q Hq. rewrite D1; [simpl; by rewrite Bf|].
    intros p Hp Heq. simplify_eq. done. }
  destruct dm.
  - destruct (delete_loop_advances E c cid (source_files E w)
                (list_to_set (get_file_states c (db (st_world st1))).*1)
                (target_files E w) st1) as (e2 & A2 & B2 & C2 & D2 & F2).
    set (st2 := foldl _ st1 (target_files E w)) in *.
    pose proof (advances_trans _ _ _ _ _ A1 A2)
      as (H1 & H2 & H3 & H4 & H5 & H6 & ops & H7 & H8).
    exists (e1 ++ e2). unfold finish_history, on_world, with_db. simpl.
    destruct (update_sync_history_spec cid
      (λ r, {| h_config_id := h_config_id r;
               h_status := if decide (errors (st_stats st2) = 0%nat)
                           then "success" else "error";
               h_message := MsgEngineDone (st_stats st2);
               h_files_count := (copied (st_stats st2) + updated (st_stats st2)
                                 + skipped (st_stats st2))%nat;
               h_files_processed := (copied (st_stats st2) + updated (st_stats st2))%nat;
               h_files_copied := copied (st_stats st2);
               h_files_updated := updated (st_stats st2);
               h_files_deleted := deleted (st_stats st2);
               h_errors := errors (st_stats st2);
               h_end_time := Some (utcnow E) |}) (db (st_world st2)))
      as (U1 & U2 & U3).
    rewrite U1, U3, H1, H2, H3, H7. simpl. rewrite Be, Bc, Bo, ?Hsrc.
    split_and!; try done.
    + by exists ops.
    + intros q Hq. apply elem_of_app in Hq as [Hq|Hq]; [by apply C1 in Hq|].
      destruct (B2 q Hq) as (Hq1 & Hq2 & Hq3). split_and!; try done.
      apply elem_of_synced in Hq3. by rewrite Hrow in Hq3.
    + intros _ _. split_and!.
      * by rewrite H5.
      * intros p Hp. destruct (B1 p Hp) as (e & He & Ha). exists e.
        split; [|done]. apply elem_of_app. by left.
      * intros _ q Hq1 Hq2 Hq3.
        destruct (C2 q Hq1 Hq2) as [(e & He & Ha)|Hn].
        { apply elem_of_synced. by rewrite Hrow. }
        { left. exists e. split; [|done]. apply elem_of_app. by right. }
        { by right. }
  - destruct A1 as (H1 & H2 & H3 & H4 & H5 & H6 & ops & H7 & H8).
    exists e1. unfold finish_history, on_world, with_db. simpl.
    destruct (update_sync_history_spec cid
      (λ r, {| h_config_id := h_config_id r;
               h_status := if decide (errors (st_stats st1) = 0%nat)
                           then "success" else "error";
               h_message := MsgEngineDone (st_stats st1);
               h_files_count := (copied (st_stats st1) + updated (st_stats st1)
                                 + skipped (st_stats st1))%nat;
               h_files_processed := (copied (st_stats st1) + updated (st_stats st1))%nat;
               h_files_copied := copied (st_stats st1);
               h_files_updated := updated (st_stats st1);
               h_files_deleted := deleted (st_stats st1);
               h_errors := errors (st_stats st1);
               h_end_time := Some (utcnow E) |}) (db (st_world st1)))
      as (U1 & U2 & U3).
    rewrite U1, U3, H1, H2, H3, H7. simpl. rewrite Be, Bc, Bo, ?Hsrc.
    split_and!;
      first [ done | by exists ops
            | solve [intros q Hq; by apply C1 in Hq] ].
Qed.

(** The walk by key order yields every file once. *)
Lemma walk_sorted_ok (E : env) : listdir E = walk_sorted → listdir_ok E.
Proof.
  intros HE t. rewrite HE. unfold walk_sorted. split.
  - apply NoDup_fst_map_to_list.
  - intros p. rewrite list_elem_of_fmap. split.
    + intros ([p' f] & -> & Hin). apply elem_of_map_to_list in Hin. eauto.
    + intros [f Hf]. exists (p, f). split; [done|]. by apply elem_of_map_to_list.
Qed.

End LocalTheory.

(* ===================================================================== *)
(** * The reconciler on concrete folders *)
(* ===================================================================== *)

Module ReconcilerCases.
Import Paths Database Local Examples.

(** C1, at a failing input.  Configuration 1 has [delete_missing] on and
    no [file_states] row; the destination file [x.txt.bak] is not in the
    source.  Synchronising updates [x.txt]: [_copy_file] writes its backup
    over [x.txt.bak] and removes it after the copy, so the destination
    entry without a row is gone after the run, with no error counted. *)
Theorem untracked_backup_name_is_deleted :
  let w' := (Service.sync_config (local_only quiet) 1 clobber_world).1 in
  delete_missing local_config = true
  ∧ file_states (db clobber_world) !! (1, "x.txt.bak") = None
  ∧ read_target clobber_world "x.txt.bak" = Some user_notes
  ∧ read_target w' "x.txt.bak" = None
  ∧ h_errors <$> sync_history (db w') = [0%nat]
  ∧ events (st_world (sync_folders quiet 1 true None clobber_world))
    = [EvBackupMade "x.txt"; EvCopied "x.txt"; EvBackupRemoved "x.txt";
       EvFileStateUpsert 1 "x.txt" "synced"].
Proof. vm_compute. by split_and!. Qed.

(** C3, at a failing input.  The first run updates [x.txt] and, through
    the backup of that copy, removes the destination's [x.txt.bak], which
    it had just skipped as unchanged; it reports no error.  The second
    run, with nothing changed in between, copies [x.txt.bak] again: its
    counters show one created file, not an all-skip run. *)
Theorem second_run_copies_again :
  let st1 := sync_folders quiet 1 true None backup_in_source_world in
  let st2 := sync_folders quiet 1 true None (st_world st1) in
  let w1 := (Service.sync_config (local_only quiet) 1 backup_in_source_world).1 in
  let w2 := (Service.sync_config (local_only quiet) 1 w1).1 in
  st_stats st1 = {| copied := 0; updated := 1; deleted := 0; skipped := 1; errors := 0 |}
  ∧ st_stats st2 = {| copied := 1; updated := 0; deleted := 0; skipped := 1; errors := 0 |}
  ∧ h_files_copied <$> sync_history (db w2) = [0%nat; 1%nat]
  ∧ h_errors <$> sync_history (db w2) = [0%nat; 0%nat].
Proof. vm_compute. by split_and!. Qed.

End ReconcilerCases.

(* ===================================================================== *)
(** * The reconciler: what every run does *)
(* ===================================================================== *)

Module ReconcilerTheory.
Import Paths Database Local Examples LocalTheory.

(** The delete pass removes a destination file only when deleting is
    enabled, the walk of the destination listed the file, no source file
    has its path, and [file_states] held a row for the path when the run
    began. *)
Lemma delete_pass_needs_file_state E c dm hid w evs q :
  events (st_world (sync_folders E c dm hid w)) = events w ++ evs →
  EvRemoved q ∈ evs →
  dm = true ∧ q ∈ target_files E w ∧ (q ∉ source_files E w)
  ∧ is_Some (file_states (db w) !! (c, q)).
Proof.
  intros Hev Hq.
  destruct (sync_folders_run E c dm hid w) as (evs' & H1 & _ & _ & _ & _ & H6 & _).
  rewrite H1 in Hev. apply app_inv_head in Hev. subst evs'. by apply H6.
Qed.

(** C4, as amended.  Whatever fails, the effects [sync_folders] appends
    to the log are ordered: a [file_states] row is written for a path only
    after the copy of that path succeeded in this run, and a row is
    deleted only after the removal of that destination file succeeded. *)
Theorem engine_writes_file_state_after_transfer E c dm hid w :
  ∃ evs,
    events (st_world (sync_folders E c dm hid w)) = events w ++ evs
    ∧ (∀ i c' p s, evs !! i = Some (EvFileStateUpsert c' p s) →
         EvCopied p ∈ take i evs)
    ∧ (∀ i c' p, evs !! i = Some (EvFileStateDelete c' p) →
         EvRemoved p ∈ take i evs).
Proof.
  destruct (sync_folders_run E c dm hid w) as (evs & H1 & H2 & _).
  exists evs. split_and!; [done| |].
  - intros i c' p s Hi. exact (H2 i _ Hi).
  - intros i c' p Hi. exact (H2 i _ Hi).
Qed.

(** C4 as stated fails on a run of the service: source and destination
    agree on [x.txt], so the engine skips it and copies nothing, and
    [update_file_states] still writes the row of [x.txt]. *)
Lemma file_state_written_without_transfer :
  let w' := (Service.sync_config (local_only quiet) 1 in_sync_world).1 in
  events w' = [EvSkipped "x.txt"; EvFileStateUpsert 1 "x.txt" "synced"]
  ∧ ¬ justified (events w').
Proof.
  assert (Hev : events (Service.sync_config (local_only quiet) 1 in_sync_world).1
                = [EvSkipped "x.txt"; EvFileStateUpsert 1 "x.txt" "synced"])
    by (vm_compute; reflexivity).
  cbv zeta. split; [exact Hev|]. rewrite Hev. intros H.
  specialize (H 1%nat _ eq_refl). simpl in H. in_list H.
Qed.




End ReconcilerTheory.


(* ===================================================================== *)
(** * The service: file states and history rows of a run *)
(* ===================================================================== *)

Module ServiceTheory.
Import Paths Database Local Examples DatabaseTheory LocalTheory.

Lemma elem_of_files_list E t p :
  p ∈ (_get_files_list E (Some t)).*1 →
  is_Some (t !! p) ∧ hidden p = false.
Proof.
  unfold _get_files_list. rewrite list_elem_of_fmap.
  intros ([p' f] & -> & Hin). apply list_elem_of_omap in Hin as (x & Hx & Hf).
  destruct (hidden x) eqn:Hh; [done|].
  destruct (t !! x) as [f'|] eqn:Ht; simplify_eq/=. eauto.
Qed.

Lemma elem_of_files_list_2 E t p :
  listdir_ok E → is_Some (t !! p) → hidden p = false →
  p ∈ (_get_files_list E (Some t)).*1.
Proof.
  intros HE [f Hf] Hh. unfold _get_files_list. rewrite list_elem_of_fmap.
  exists (p, f). split; [done|]. apply list_elem_of_omap. exists p.
  split; [by apply HE|]. by rewrite Hh, Hf.
Qed.

Lemma elem_of_source_files E w p :
  p ∈ source_files E w → is_Some (read_source w p) ∧ hidden p = false.
Proof.
  unfold source_files, read_source.
  destruct (source w) as [t|]; simpl; [apply elem_of_files_list|].
  intros H. in_list H.
Qed.

Lemma elem_of_source_files_2 E w p :
  listdir_ok E → is_Some (read_source w p) → hidden p = false →
  p ∈ source_files E w.
Proof.
  intros HE. unfold source_files, read_source.
  destruct (source w) as [t|]; simpl; [by apply elem_of_files_list_2|].
  by intros [? ?].
Qed.

Lemma update_one_spec c x w :
  let w' := _update_file_state_in_db c x "synced" w in
  source w' = source w ∧ target w' = target w
  ∧ sync_configs (db w') = sync_configs (db w)
  ∧ sync_history (db w') = sync_history (db w)
  ∧ sync_file_operations (db w') = sync_file_operations (db w)
  ∧ (∀ k, k ≠ (c, x) → file_states (db w') !! k = file_states (db w) !! k)
  ∧ (∀ f, read_source w x = Some f →
       file_states (db w') !! (c, x) = Some (synced_row f)).
Proof.
  unfold _update_file_state_in_db. destruct (read_source w x) as [f|]; simpl.
  - split_and!; try done.
    + intros k Hk. by rewrite lookup_insert_ne.
    + intros f' ?. simplify_eq. by rewrite lookup_insert_eq.
  - by split_and!.
Qed.

Lemma upsert_all_spec c l w :
  let w' := upsert_all c l w in
  source w' = source w ∧ target w' = target w
  ∧ sync_configs (db w') = sync_configs (db w)
  ∧ sync_history (db w') = sync_history (db w)
  ∧ sync_file_operations (db w') = sync_file_operations (db w)
  ∧ (∀ k, (∀ p, p ∈ l → k ≠ (c, p)) →
       file_states (db w') !! k = file_states (db w) !! k)
  ∧ (∀ p f, p ∈ l → read_source w p = Some f →
       file_states (db w') !! (c, p) = Some (synced_row f)).
Proof.
  unfold upsert_all. revert w. induction l as [|x l IH]; intros w; simpl.
  { split_and!; try done. intros p f Hp. in_list Hp. }
  destruct (update_one_spec c x w) as (A1 & A2 & A3 & A4 & A5 & A6 & A7).
  destruct (IH (_update_file_state_in_db c x "synced" w))
    as (B1 & B2 & B3 & B4 & B5 & B6 & B7).
  split_and!; try congruence.
  - intros k Hk. rewrite B6, A6; [done| |].
    + apply Hk. by constructor.
    + intros p Hp. apply Hk. by constructor.
  - intros p f Hp Hf.
    destruct (decide (p ∈ l)) as [Hin|Hnin].
    + apply B7; [done|]. unfold read_source in *. by rewrite A1.
    + apply elem_of_cons in Hp as [->|Hp]; [|done].
      rewrite B6; [by apply A7|]. intros q Hq Heq. simplify_eq. done.
Qed.

Lemma prune_spec c sfs l w :
  let w' := prune c sfs l w in
  source w' = source w ∧ target w' = target w
  ∧ sync_configs (db w') = sync_configs (db w)
  ∧ sync_history (db w') = sync_history (db w)
  ∧ sync_file_operations (db w') = sync_file_operations (db w)
  ∧ (∀ k, file_states (db w) !! k = None → file_states (db w') !! k = None)
  ∧ (∀ p, p ∈ l.*1 → p ∉ sfs → file_states (db w') !! (c, p) = None)
  ∧ (∀ k, (∀ p, p ∈ l.*1 → p ∉ sfs → k ≠ (c, p)) →
       file_states (db w') !! k = file_states (db w) !! k).
Proof.
  unfold prune. revert w. induction l as [|[x s] l IH]; intros w; simpl.
  { split_and!; try done. intros p Hp. in_list Hp. }
  set (w1 := if bool_decide (x ∈ sfs) then w
             else emit (EvFileStateDelete c x)
                    (with_db (delete_file_state c x (db w)) w)).
  assert (A : source w1 = source w ∧ target w1 = target w
    ∧ sync_configs (db w1) = sync_configs (db w)
    ∧ sync_history (db w1) = sync_history (db w)
    ∧ sync_file_operations (db w1) = sync_file_operations (db w)
    ∧ (∀ k, file_states (db w) !! k = None → file_states (db w1) !! k = None)
    ∧ (x ∉ sfs → file_states (db w1) !! (c, x) = None)
    ∧ (∀ k, (x ∉ sfs → k ≠ (c, x)) →
         file_states (db w1) !! k = file_states (db w) !! k)).
  { subst w1. destruct (bool_decide (x ∈ sfs)) eqn:Hx; simpl.
    - apply bool_decide_eq_true in Hx. by split_and!.
    - apply bool_decide_eq_false in Hx. split_and!; try done.
      + intros k Hk. destruct (decide (k = (c, x))) as [->|Hne].
        * by rewrite lookup_delete_eq.
        * by rewrite lookup_delete_ne.
      + intros _. by rewrite lookup_delete_eq.
      + intros k Hk. rewrite lookup_delete_ne; [done|]. intros Heq. symmetry in Heq. by apply Hk. }
  destruct A as (A1 & A2 & A3 & A4 & A5 & A6 & A7 & A8).
  destruct (IH w1) as (B1 & B2 & B3 & B4 & B5 & B6 & B7 & B8).
  split_and!; try congruence.
  - intros k Hk. by apply B6, A6.
  - intros p Hp Hs. apply elem_of_cons in Hp as [->|Hp].
    + by apply B6, A7.
    + by apply B7.
  - intros k Hk. rewrite B8, A8; [done| |].
    + intros Hx. apply Hk; [by constructor|done].
    + intros p Hp Hs. apply Hk; [by constructor|done].
Qed.

Lemma update_file_states_unfold E c w :
  update_file_states E c w
  = prune c (source_files E w)
      (get_file_states c (db (upsert_all c (source_files E w) w)))
      (upsert_all c (source_files E w) w).
Proof. reflexivity. Qed.

Lemma update_file_states_spec E c w :
  let w' := update_file_states E c w in
  source w' = source w ∧ target w' = target w
  ∧ sync_configs (db w') = sync_configs (db w)
  ∧ sync_history (db w') = sync_history (db w)
  ∧ sync_file_operations (db w') = sync_file_operations (db w)
  ∧ (∀ p f, p ∈ source_files E w → read_source w p = Some f →
       file_states (db w') !! (c, p) = Some (synced_row f))
  ∧ (∀ p, p ∉ source_files E w → file_states (db w') !! (c, p) = None)
  ∧ (∀ c' p, c' ≠ c →
       file_states (db w') !! (c', p) = file_states (db w) !! (c', p)).
Proof.
  intros w'. subst w'. rewrite update_file_states_unfold.
  set (sfs := source_files E w).
  destruct (upsert_all_spec c sfs w) as (A1 & A2 & A3 & A4 & A5 & A6 & A7).
  set (w1 := upsert_all c sfs w) in *.
  destruct (prune_spec c sfs (get_file_states c (db w1)) w1)
    as (B1 & B2 & B3 & B4 & B5 & B6 & B7 & B8).
  split_and!; try congruence.
  - intros p f Hp Hf. rewrite B8; [by apply A7|].
    intros q _ Hq Heq. simplify_eq. done.
  - intros p Hp. destruct (file_states (db w1) !! (c, p)) as [s|] eqn:Hrow.
    + apply B7; [|done]. apply list_elem_of_fmap. exists (p, s).
      split; [done|]. by apply elem_of_get_file_states.
    + by apply B6.
  - intros c' p Hc. rewrite B8, A6; [done| |].
    + intros q _ Heq. simplify_eq.
    + intros q _ _ Heq. simplify_eq.
Qed.

(** The row [sync_folders] leaves under the history id it was given, for
    each of its three ways out. *)
Lemma sync_folders_row E c dm i w :
  let st := sync_folders E c dm (Some (S i)) w in
  let s := st_stats st in
  sync_history (db (st_world st))
  = alter (match source w with
           | None => set_status_message "error" MsgSourceMissing
           | Some _ =>
               if bool_decide (target w = None) && makedirs_target_fails E
               then set_status_message "error" MsgTargetFolderFailed
               else λ r,
                 {| h_config_id := h_config_id r;
                    h_status := if decide (errors s = 0)%nat then "success" else "error";
                    h_message := MsgEngineDone s;
                    h_files_count := (copied s + updated s + skipped s)%nat;
                    h_files_processed := (copied s + updated s)%nat;
                    h_files_copied := copied s;
                    h_files_updated := updated s;
                    h_files_deleted := deleted s;
                    h_errors := errors s;
                    h_end_time := Some (utcnow E) |}
           end) i (sync_history (db w))
  ∧ (source w = None → s = stats0)
  ∧ (is_Some (source w) → target w = None → makedirs_target_fails E = true →
       s = incr_errors stats0).
Proof.
  cbv zeta. rewrite sync_folders_unfold. cbv zeta.
  change (begin_history c (Some (S i)) w) with (w, S i).
  cbn [fst snd].
  destruct (source w) as [ts|] eqn:Hsrc; cbv beta iota.
  2:{ split_and!; [done|done|]. by intros [? ?]. }
  destruct (bool_decide (target w = None) && makedirs_target_fails E) eqn:Hmk;
    cbv beta iota.
  { split_and!; [done|done|done]. }
  split_and!; [|done|].
  2:{ intros _ Ht Hf. rewrite Ht, Hf in Hmk.
      by rewrite bool_decide_eq_true_2 in Hmk. }
  set (w2 := with_target (Some (default ∅ (target w))) w).
  set (sfs := (_get_files_list E (source w2)).*1).
  set (tfs := (_get_files_list E (target w2)).*1).
  set (st0 := {| st_world := w2; st_stats := stats0 |}).
  destruct (copy_loop_advances E c (S i) tfs sfs st0) as (e1 & A1 & _).
  set (st1 := foldl (sync_source_file E c (S i) tfs) st0 sfs) in *.
  destruct dm.
  - destruct (delete_loop_advances E c (S i) sfs
                (list_to_set (get_file_states c (db (st_world st1))).*1) tfs st1)
      as (e2 & A2 & _).
    set (st2 := foldl _ st1 tfs) in *.
    destruct (advances_trans _ _ _ _ _ A1 A2) as (_ & _ & _ & H4 & _).
    unfold finish_history, on_world, with_db. simpl. by rewrite H4.
  - destruct A1 as (_ & _ & _ & H4 & _).
    unfold finish_history, on_world, with_db. simpl. by rewrite H4.
Qed.

Lemma not_remote_local : "local" ∉ Service.remote_types.
Proof. intros H. unfold Service.remote_types in H. in_list H. Qed.

Lemma alter_snoc {A} (f : A → A) (l : list A) (x : A) :
  alter f (length l) (l ++ [x]) = l ++ [f x].
Proof. induction l as [|y l IH]; [done|]. simpl. f_equal. exact IH. Qed.

Lemma alter_prefix {A} (f : A → A) (l k : list A) :
  alter f (length l) (l ++ k) = l ++ alter f 0%nat k.
Proof. induction l as [|y l IH]; [done|]. simpl. f_equal. exact IH. Qed.

Lemma alter_middle {A} (f : A → A) (l : list A) (x : A) (k : list A) :
  alter f (length l) ((l ++ [x]) ++ k) = l ++ f x :: k.
Proof. by rewrite <- app_assoc, alter_prefix. Qed.

Lemma service_history E c cfg w :
  get_sync_config c (db w) = Some cfg →
  Service.remote_keeps_history E →
  let n := length (sync_history (db w)) in
  let w' := (Service.sync_config E c w).1 in
  let ok := (Service.sync_config E c w).2 in
  ∃ r rest, sync_history (db w') = sync_history (db w) ++ r :: rest
    ∧ h_config_id r = c ∧ finalized r
    ∧ (target_type cfg = "local" → rest = [])
    ∧ (target_type cfg ≠ "local" →
         h_status r = if ok then "completed" else "failed")
    ∧ Service.reports E c cfg w r ok.
Proof.
  intros Hcfg Hrem n w' ok. subst n w' ok.
  unfold Service.reports, Service.service_begin, Service.sync_config.
  rewrite Hcfg. unfold add_sync_history. cbv zeta beta iota. cbn [fst].
  set (hist := sync_history (db w)).
  set (row := new_row c "running" MsgServiceStart None).
  set (w1 := with_db (with_sync_history (hist ++ [row]) (db w)) w).
  destruct (String.eqb (target_type cfg) "local") eqn:Hty.
  - apply String.eqb_eq in Hty.
    assert (Hnr : target_type cfg ∉ Service.remote_types)
      by (rewrite Hty; apply not_remote_local).
    destruct (target_path cfg) as [tp|] eqn:Htp.
    + destruct (sync_folders_row (Service.local_env E) c (delete_missing cfg)
                  (length hist) w1) as (Hrow & Hs0 & Hs1).
      cbv zeta in Hrow, Hs0, Hs1.
      change (source w1) with (source w) in Hrow, Hs0, Hs1.
      change (target w1) with (target w) in Hrow, Hs1.
      change (sync_history (db w1)) with (hist ++ [row]) in Hrow.
      rewrite alter_snoc in Hrow.
      set (st := sync_folders _ _ _ _ w1) in *.
      destruct (update_file_states_spec (Service.local_env E) c (st_world st))
        as (U1 & U2 & U3 & U4 & _).
      set (w2 := update_file_states _ c (st_world st)) in *.
      rewrite <- U4 in Hrow.
      simpl. unfold get_sync_history_record. rewrite Hrow.
      rewrite lookup_app_r by lia. rewrite Nat.sub_diag. cbn [lookup list_lookup].
      destruct (source w) as [ts|] eqn:Hsrc.
      * destruct (bool_decide (target w = None)
                  && makedirs_target_fails (Service.local_env E)) eqn:Hmk.
        -- apply andb_true_iff in Hmk as [Hnone Hfail].
           apply bool_decide_eq_true in Hnone.
           rewrite (Hs1 (mk_is_Some _ _ eq_refl) Hnone Hfail) in *.
           cbn [h_status set_status_message].
           rewrite bool_decide_eq_false_2 by (intros H; in_list H).
           rewrite Hrow. eexists _, []. split; [reflexivity|].
           split_and!; try done.
           ++ intros _ _ _ Hok. by rewrite (Hok Hnone) in Hfail.
           ++ intros [[_ ?]|[? _]]; congruence.
        -- destruct (decide (errors (st_stats st) = 0%nat)) as [He|He];
             cbn [h_status];
             rewrite bool_decide_eq_false_2 by (intros H; in_list H);
             rewrite Hrow; (eexists _, []; split; [reflexivity|]);
             (split_and!; try done);
             try (intros [[_ ?]|[? _]]; congruence);
             try (intros _ _ _ Ht Hf; rewrite Ht, Hf in Hmk;
                  by rewrite bool_decide_eq_true_2 in Hmk);
             intros _ _ _ _; unfold Service.closed_with; cbn;
             [rewrite bool_decide_eq_true_2 by done
             |rewrite bool_decide_eq_false_2 by done]; by split_and!.
      * rewrite (Hs0 eq_refl) in *.
        cbn [h_status set_status_message].
        rewrite bool_decide_eq_false_2 by (intros H; in_list H).
        rewrite Hrow. eexists _, []. split; [reflexivity|].
        split_and!; try done.
        all: try (by intros _ _ [? ?]).
        all: intros [[_ ?]|[? _]]; congruence.
    + simpl. exists (set_status_message_end "failed" MsgServiceError
                       (utcnow (Service.local_env E)) row), [].
      rewrite alter_snoc. split_and!; try done; by intros _ [? ?].
  - assert (Hne : target_type cfg ≠ "local").
    { intros Heq. rewrite Heq in Hty. done. }
    destruct (bool_decide (target_type cfg ∈ Service.remote_types)) eqn:Hrt.
    + apply bool_decide_eq_true in Hrt.
      pose proof (Hrem (target_type cfg) c (delete_missing cfg) w1) as [rest Hpre].
      destruct (Service.remote_manager E (target_type cfg) c (delete_missing cfg) w1)
        as [w2 [|result]] eqn:Hrun; simpl in Hpre |- *.
      * rewrite Hpre, alter_middle. eexists _, rest. split; [reflexivity|].
        split_and!; try done. all: intros [[? _]|[_ ?]]; done.
      * unfold get_sync_history_record. rewrite Hpre.
        rewrite <- app_assoc, lookup_app_r by lia. rewrite Nat.sub_diag. simpl.
        rewrite alter_prefix. simpl.
        eexists _, rest. split; [reflexivity|].
        unfold Service.closed_with.
        split_and!; try done.
        all: try (intros [[? _]|[_ ?]]; done).
        all: try intros _; simpl.
        all: destruct (bool_decide (errors result = 0%nat)); by split_and!.
    + apply bool_decide_eq_false in Hrt.
      simpl. rewrite alter_snoc. eexists _, []. split; [reflexivity|].
      by split_and!.
Qed.

Lemma sync_config_local_file_states E c cfg tp w :
  get_sync_config c (db w) = Some cfg →
  target_type cfg = "local" → target_path cfg = Some tp →
  ∃ w1 st,
    source w1 = source w
    ∧ st = sync_folders (Service.local_env E) c (delete_missing cfg)
             (Some (S (length (sync_history (db w))))) w1
    ∧ source (Service.sync_config E c w).1
      = source (update_file_states (Service.local_env E) c (st_world st))
    ∧ file_states (db (Service.sync_config E c w).1)
      = file_states (db (update_file_states (Service.local_env E) c (st_world st)))
    ∧ events (Service.sync_config E c w).1
      = events (update_file_states (Service.local_env E) c (st_world st)).
Proof.
  intros Hcfg Hty Htp. unfold Service.sync_config.
  rewrite Hcfg, Hty, Htp. unfold add_sync_history. cbv zeta beta iota.
  change ("local" =? "local")%string with true. cbv iota.
  exists (with_db (with_sync_history (sync_history (db w) ++
            [new_row c "running" MsgServiceStart None]) (db w)) w).
  eexists. split; [done|]. split; [reflexivity|].
  cbn [fst snd].
  destruct (get_sync_history_record _ _) as [r|]; [|done].
  destruct (bool_decide _); [|done].
  unfold with_db. cbn [source db events]. by split_and!.
Qed.

(** C10.  After a run of [sync_config] on a configuration with a local
    target, whatever the engine copied, skipped or failed to copy:
    [file_states] holds a row for the configuration and a path exactly
    when the path is a file of the source folder that the walk does not
    hide, and that row is the 'synced' row of the source file (its hash
    and modification time).  Rows of paths that left the source are
    gone.  The source folder itself is unchanged. *)
Theorem file_states_mirror_source E c cfg tp w :
  listdir_ok (Service.local_env E) →
  get_sync_config c (db w) = Some cfg →
  target_type cfg = "local" → target_path cfg = Some tp →
  let w' := (Service.sync_config E c w).1 in
  source w' = source w
  ∧ (∀ p, is_Some (file_states (db w') !! (c, p))
          ↔ is_Some (read_source w p) ∧ hidden p = false)
  ∧ (∀ p f, read_source w p = Some f → hidden p = false →
       file_states (db w') !! (c, p) = Some (synced_row f)).
Proof.
  intros HE Hcfg Hty Htp w'. subst w'.
  destruct (sync_config_local_file_states E c cfg tp w Hcfg Hty Htp)
    as (w1 & st & Hs1 & Hst & Hsrc & Hfs & _).
  rewrite Hsrc, Hfs.
  destruct (sync_folders_run (Service.local_env E) c (delete_missing cfg)
              (Some (S (length (sync_history (db w))))) w1)
    as (evs & _ & _ & Hs2 & _).
  rewrite <- Hst in Hs2.
  destruct (update_file_states_spec (Service.local_env E) c (st_world st))
    as (U1 & _ & _ & _ & _ & U6 & U7 & _).
  assert (Hrs : ∀ p, read_source (st_world st) p = read_source w p).
  { intros p. unfold read_source. by rewrite Hs2, Hs1. }
  assert (Hpos : ∀ p f, read_source w p = Some f → hidden p = false →
            file_states (db (update_file_states (Service.local_env E) c
              (st_world st))) !! (c, p) = Some (synced_row f)).
  { intros p f Hf Hh. apply U6; [|by rewrite Hrs].
    apply elem_of_source_files_2; [done|by rewrite Hrs, Hf|done]. }
  split_and!.
  - by rewrite U1, Hs2, Hs1.
  - intros p. split.
    + intros Hrow.
      destruct (decide (p ∈ source_files (Service.local_env E) (st_world st)))
        as [Hin|Hnin].
      * apply elem_of_source_files in Hin. by rewrite Hrs in Hin.
      * rewrite (U7 p Hnin) in Hrow. by destruct Hrow.
    + intros [[f Hf] Hh]. rewrite (Hpos p f Hf Hh). eauto.
  - exact Hpos.
Qed.

(** [file_states_mirror_source] on folders that already agree: the file
    is skipped and its row is written all the same. *)
Lemma file_states_mirror_source_witness :
  let w' := (Service.sync_config (local_only quiet) 1 in_sync_world).1 in
  source w' = source in_sync_world
  ∧ (∀ p, is_Some (file_states (db w') !! (1, p))
          ↔ is_Some (read_source in_sync_world p) ∧ hidden p = false)
  ∧ (∀ p f, read_source in_sync_world p = Some f → hidden p = false →
       file_states (db w') !! (1, p) = Some (synced_row f)).
Proof.
  apply (file_states_mirror_source (local_only quiet) 1 local_config "/backup"
           in_sync_world).
  - apply walk_sorted_ok. reflexivity.
  - reflexivity.
  - reflexivity.
  - reflexivity.
Defined.

Lemma local_only_keeps_history E : Service.remote_keeps_history (local_only E).
Proof. intros ty c dm w. simpl. done. Qed.

(** C7, as amended.  For an existing configuration, a call of
    [SyncService.sync_config] appends a history row of its own and leaves
    it with a status other than 'running' and 'in_progress'; for a local
    target it is the only row added.  What the row holds depends on how
    the call went ([Service.reports]): closed by the service as
    'completed' or 'failed' with end time and counters for a remote
    target; closed by the local engine as 'success' or 'error' with end
    time and counters when the engine reached its loops; set to 'error'
    with a message, without end time and with counters 0, when the source
    folder is missing (the call then returns [True]) or the destination
    folder cannot be created; closed as 'failed' when the configuration
    cannot be run or the manager raised.
    A run through the scheduler's [_handle_sync_task] leaves two rows:
    the scheduler's, 'completed' when [sync_config] returned [True] and
    'failed' otherwise, with its end time, followed by the service's, as
    above; and the task is no longer in [active_tasks]. *)
Theorem run_leaves_finalized_rows E now later c cfg s w :
  get_sync_config c (db w) = Some cfg →
  Service.remote_keeps_history E →
  let ws := with_db (add_sync_history c "running" MsgSchedulerStart None (db w)).1 w in
  (∃ r rest,
     sync_history (db (Service.sync_config E c w).1)
     = sync_history (db w) ++ r :: rest
     ∧ h_config_id r = c ∧ finalized r
     ∧ (target_type cfg = "local" → rest = [])
     ∧ (target_type cfg ≠ "local" →
          h_status r = if (Service.sync_config E c w).2
                       then "completed" else "failed")
     ∧ Service.reports E c cfg w r (Service.sync_config E c w).2)
  ∧ (∃ r1 r2 rest,
       sync_history (db (Scheduler._handle_sync_task E now later c s w).2)
       = sync_history (db w) ++ r1 :: r2 :: rest
       ∧ h_config_id r1 = c
       ∧ h_status r1 = (if Scheduler.run_result E now c s w then "completed" else "failed")
       ∧ h_end_time r1 = Some (Scheduler.seconds later)
       ∧ h_config_id r2 = c ∧ finalized r2
       ∧ (target_type cfg = "local" → rest = [])
       ∧ Service.reports E c cfg ws r2 (Scheduler.run_result E now c s w)
       ∧ Scheduler.active_tasks (Scheduler._handle_sync_task E now later c s w).1
           !! c = None).
Proof.
  intros Hcfg Hrem ws. split; [by apply service_history|].
  unfold Scheduler._handle_sync_task, Scheduler.run_result, Scheduler.handle_sync_task_begin.
  rewrite Hcfg. subst ws. unfold add_sync_history. cbv zeta beta iota. cbn [fst].
  set (hist := sync_history (db w)).
  set (row := new_row c "running" MsgSchedulerStart None).
  set (w1 := with_db (with_sync_history (hist ++ [row]) (db w)) w).
  destruct (service_history E c cfg w1 Hcfg Hrem)
    as (r & rest & Hh & Hid & Hfin & Hloc & _ & Hrep).
  destruct (Service.sync_config E c w1) as [w2 result]. simpl in Hh, Hrep |- *.
  rewrite Hh.
  replace (length hist) with (length hist + 0)%nat by lia.
  assert (Hal : ∀ f : history_row → history_row,
            alter f (length hist + 0)%nat ((hist ++ [row]) ++ r :: rest)
            = hist ++ f row :: r :: rest).
  { intros f. rewrite Nat.add_0_r, <- app_assoc. by rewrite alter_prefix. }
  rewrite Hal. eexists _, r, rest. split_and!; try done.
  by rewrite lookup_delete_eq.
Qed.

(** C7 as stated fails: a run of the scheduler's worker on folders that
    already agree reports no error and leaves two history rows, one
    'completed' (the scheduler's) and one 'success' (the one the local
    engine finalizes); called directly, the service leaves one row whose
    final status is 'success', not 'completed'. *)
Lemma scheduled_run_writes_two_rows :
  let w' := (Scheduler._handle_sync_task (local_only quiet) midnight midnight 1
               (Scheduler.with_running true Scheduler.init) in_sync_world).2 in
  let w'' := (Service.sync_config (local_only quiet) 1 in_sync_world).1 in
  h_status <$> sync_history (db w') = ["completed"; "success"]
  ∧ h_errors <$> sync_history (db w') = [0%nat; 0%nat]
  ∧ (¬ ∃ r, sync_history (db w') = sync_history (db in_sync_world) ++ [r])
  ∧ h_status <$> sync_history (db w'') = ["success"].
Proof.
  cbv zeta. split_and!; try (vm_compute; reflexivity).
  intros [r Hr]. apply (f_equal length) in Hr. vm_compute in Hr. discriminate Hr.
Qed.

(** [run_leaves_finalized_rows] on folders that already agree. *)
Lemma run_leaves_finalized_rows_witness :
  let ws := with_db (add_sync_history 1 "running" MsgSchedulerStart None
                       (db in_sync_world)).1 in_sync_world in
  (∃ r rest,
     sync_history (db (Service.sync_config (local_only quiet) 1 in_sync_world).1)
     = sync_history (db in_sync_world) ++ r :: rest
     ∧ h_config_id r = 1 ∧ finalized r
     ∧ (target_type local_config = "local" → rest = [])
     ∧ (target_type local_config ≠ "local" →
          h_status r = if (Service.sync_config (local_only quiet) 1 in_sync_world).2
                       then "completed" else "failed")
     ∧ Service.reports (local_only quiet) 1 local_config in_sync_world r
         (Service.sync_config (local_only quiet) 1 in_sync_world).2)
  ∧ (∃ r1 r2 rest,
       sync_history (db (Scheduler._handle_sync_task (local_only quiet) midnight
                           midnight 1 Scheduler.init in_sync_world).2)
       = sync_history (db in_sync_world) ++ r1 :: r2 :: rest
       ∧ h_config_id r1 = 1
       ∧ h_status r1 = (if Scheduler.run_result (local_only quiet) midnight 1
                             Scheduler.init in_sync_world
                        then "completed" else "failed")
       ∧ h_end_time r1 = Some (Scheduler.seconds midnight)
       ∧ h_config_id r2 = 1 ∧ finalized r2
       ∧ (target_type local_config = "local" → rest = [])
       ∧ Service.reports (local_only quiet) 1 local_config ws r2
           (Scheduler.run_result (local_only quiet) midnight 1
              Scheduler.init in_sync_world)
       ∧ Scheduler.active_tasks
           (Scheduler._handle_sync_task (local_only quiet) midnight midnight 1
              Scheduler.init in_sync_world).1 !! 1 = None).
Proof.
  apply (run_leaves_finalized_rows (local_only quiet) midnight midnight 1
           local_config Scheduler.init in_sync_world).
  - reflexivity.
  - apply local_only_keeps_history.
Defined.

End ServiceTheory.


(* ===================================================================== *)
(** * The file monitor: size stability *)
(* ===================================================================== *)

Module MonitorTheory.
Import Paths Database Local Examples Monitor.

Lemma observe_spec c p ts k stat m w :
  let r := observe c p ts k stat m w in
  let n := st_size stat in
  let known := bool_decide (is_Some (get_sync_config c (db w))) in
  sync_callback r.1.1 = sync_callback m
  ∧ sync_configs (db r.1.2) = sync_configs (db w)
  ∧ ready r.2
    = known && ((n =? 0) || bool_decide (file_sizes m !! (c, p) = Some n))
  ∧ triggered r.2 = ready r.2 && sync_callback m
  ∧ file_sizes r.1.1
    = if negb known then file_sizes m
      else if ready r.2 then delete (c, p) (file_sizes m)
      else <[(c, p) := n]> (file_sizes m).
Proof.
  cbv zeta. unfold observe.
  destruct k; unfold _handle_file_created, _handle_file_modified,
    get_sync_config, read_source; simpl;
    rewrite lookup_insert_eq;
    (destruct (sync_configs (db w) !! c) as [cfg|] eqn:Hc; simpl;
     [|by split_and!]);
    (destruct (st_size stat =? 0) eqn:Hz; simpl; [by split_and!|]);
    (destruct (file_sizes m !! (c, p)) as [last|] eqn:Hl; simpl;
     [|by split_and!]);
    (destruct (last =? st_size stat) eqn:Hs; simpl;
     [apply Z.eqb_eq in Hs; subst last; rewrite bool_decide_eq_true_2 by done;
      by split_and!
     |apply Z.eqb_neq in Hs; rewrite bool_decide_eq_false_2 by congruence;
      by split_and!]).
Qed.

Lemma growing_from_weaken prev prev' evs :
  prev' ≤ prev → growing_from prev evs → growing_from prev' evs.
Proof. destruct evs as [|[k f] rest]; simpl; [done|]. intros ? [? ?]. split; [lia|done]. Qed.




End MonitorTheory.


(* ===================================================================== *)
(** * The scheduler: custom schedules, capacity, exclusion *)
(* ===================================================================== *)

Module SchedulerTheory.
Import Paths Database Local Examples PyInt Scheduler.

Lemma parse_hh_mm (h m : nat) :
  (h < 24)%nat → (m < 60)%nat →
  parse_hour_minute (hh_mm h m) = Some (Z.of_nat h, Z.of_nat m).
Proof.
  intros Hh Hm.
  assert (Hall : forallb (λ h, forallb (λ m,
            bool_decide (parse_hour_minute (hh_mm h m)
                         = Some (Z.of_nat h, Z.of_nat m)))
            (seq 0 60)) (seq 0 24) = true) by (vm_compute; reflexivity).
  rewrite forallb_forall in Hall.
  specialize (Hall h). rewrite in_seq in Hall.
  specialize (Hall ltac:(lia)). rewrite forallb_forall in Hall.
  specialize (Hall m). rewrite in_seq in Hall.
  specialize (Hall ltac:(lia)). by apply bool_decide_eq_true in Hall.
Qed.

(** What [_enqueue_sync_task] checks before it queues a task: the
    configuration is not in [active_tasks], and fewer than
    [max_concurrent_tasks] tasks are active. *)
Lemma enqueue_admitted now c s :
  active_tasks s !! c = None →
  (size (active_tasks s) < max_concurrent_tasks s)%nat →
  _enqueue_sync_task now c s
  = log Info (LogEnqueued c)
      (with_task_queue (task_queue s ++ [Some (sync_task now c)]) s).
Proof.
  intros Hc Hk. unfold _enqueue_sync_task.
  rewrite bool_decide_eq_false_2 by (rewrite Hc; by intros [? ?]).
  apply Nat.leb_gt in Hk. by rewrite Hk.
Qed.

Lemma enqueue_refused now c s :
  ¬ (active_tasks s !! c = None
     ∧ (size (active_tasks s) < max_concurrent_tasks s)%nat) →
  task_queue (_enqueue_sync_task now c s) = task_queue s.
Proof.
  intros Hno. unfold _enqueue_sync_task.
  destruct (bool_decide (is_Some (active_tasks s !! c))) eqn:Ha; [done|].
  apply bool_decide_eq_false in Ha.
  destruct (max_concurrent_tasks s <=? size (active_tasks s))%nat eqn:Hk; [done|].
  apply Nat.leb_gt in Hk. exfalso. apply Hno. split; [|done].
  by apply eq_None_not_Some.
Qed.

Lemma enqueue_keeps now c s :
  active_tasks (_enqueue_sync_task now c s) = active_tasks s
  ∧ schedules (_enqueue_sync_task now c s) = schedules s.
Proof.
  unfold _enqueue_sync_task.
  destruct (bool_decide _); [done|]. by destruct (_ <=? _)%nat.
Qed.

(** C8, as amended.  For a schedule of type custom whose value is a time
    of day written HH:MM, [add_schedule] registers a job that runs once a
    day (at 00:00).  A run of that job appends the synchronisation task
    to the queue exactly when the current hour equals HH, the current
    minute equals MM, and [_enqueue_sync_task] admits the task (the
    configuration is not in [active_tasks] and fewer than
    [max_concurrent_tasks] tasks are active); in every other case the
    queue is as before, and outside the minute HH:MM the scheduler is
    left exactly as it is: nothing is remembered for a later run.  The
    job never touches [active_tasks] or [schedules]. *)
Theorem custom_schedule now c (h m : nat) s :
  (h < 24)%nat → (m < 60)%nat →
  let s' := run_job now (CheckCustomSync c (hh_mm h m)) s in
  let matching := hour now = Z.of_nat h ∧ minute now = Z.of_nat m in
  let admitted := active_tasks s !! c = None
                  ∧ (size (active_tasks s) < max_concurrent_tasks s)%nat in
  add_schedule_job c "custom" (hh_mm h m)
  = Some {| interval := 1; unit := "day"; at_time := Some "00:00";
            action := CheckCustomSync c (hh_mm h m) |}
  ∧ (matching ∧ admitted →
       task_queue s' = task_queue s ++ [Some (sync_task now c)])
  ∧ (¬ (matching ∧ admitted) → task_queue s' = task_queue s)
  ∧ (¬ matching → s' = s)
  ∧ active_tasks s' = active_tasks s
  ∧ schedules s' = schedules s.
Proof.
  intros Hh Hm. cbv zeta. split; [reflexivity|].
  cbn [run_job]. unfold _check_custom_sync. rewrite parse_hh_mm by done.
  destruct (hour now =? Z.of_nat h) eqn:H1;
    destruct (minute now =? Z.of_nat m) eqn:H2;
    cbn [andb]; rewrite ?Z.eqb_eq, ?Z.eqb_neq in *.
  - split_and!.
    + intros [_ [Hc Hk]]. by rewrite enqueue_admitted.
    + intros Hno. apply enqueue_refused. intros Ha. apply Hno. by split.
    + intros Hno. exfalso. apply Hno. by split.
    + apply enqueue_keeps.
    + apply enqueue_keeps.
  - split_and!; try done. by intros [[_ ?] _].
  - split_and!; try done. by intros [[? _] _].
  - split_and!; try done. by intros [[? _] _].
Qed.

(** [custom_schedule] for the value 09:30, evaluated at 09:30 while
    nothing runs: the task is queued. *)
Lemma custom_schedule_witness :
  task_queue (run_job half_past_nine (CheckCustomSync 1 (hh_mm 9 30))
                (with_running true init))
  = task_queue (with_running true init) ++ [Some (sync_task half_past_nine 1)].
Proof.
  destruct (custom_schedule half_past_nine 1 9 30 (with_running true init))
    as (_ & Hq & _); [lia|lia|].
  apply Hq. split; [split; reflexivity|].
  split; [reflexivity|]. vm_compute. lia.
Defined.

Lemma log_fields l t s :
  running (log l t s) = running s ∧ task_queue (log l t s) = task_queue s
  ∧ active_tasks (log l t s) = active_tasks s
  ∧ max_concurrent_tasks (log l t s) = max_concurrent_tasks s
  ∧ logged (log l t s) = logged s ++ [(l, t)].
Proof. done. Qed.

Lemma enqueue_spec now c s :
  let s' := _enqueue_sync_task now c s in
  active_tasks s' = active_tasks s
  ∧ max_concurrent_tasks s' = max_concurrent_tasks s
  ∧ running s' = running s
  ∧ (is_Some (active_tasks s !! c) →
       task_queue s' = task_queue s
       ∧ logged s' = logged s ++ [(Warning, LogAlreadyRunning c)])
  ∧ ((max_concurrent_tasks s ≤ size (active_tasks s))%nat →
       task_queue s' = task_queue s
       ∧ ∃ t, logged s' = logged s ++ [(Warning, t)])
  ∧ (task_queue s' = task_queue s
     ∨ task_queue s' = task_queue s ++ [Some (sync_task now c)]
       ∧ active_tasks s !! c = None
       ∧ (size (active_tasks s) < max_concurrent_tasks s)%nat).
Proof.
  cbv zeta. unfold _enqueue_sync_task.
  destruct (bool_decide (is_Some (active_tasks s !! c))) eqn:Ha.
  { split_and!; try done.
    - intros _. split; [done|]. eauto.
    - by left. }
  apply bool_decide_eq_false in Ha.
  destruct (max_concurrent_tasks s <=? size (active_tasks s))%nat eqn:Hk.
  { split_and!; try done.
    - intros _. split; [done|]. eauto.
    - by left. }
  apply Nat.leb_gt in Hk. split_and!; try done.
  - intros Hge. lia.
  - right. split_and!; try done. by apply eq_None_not_Some.
Qed.

Ltac dropped_with lv t :=
  split_and!;
  first [ done | by left
        | (intros _; split_and!; first [done | by exists lv, t]) ].

Lemma run_sync_now_spec now c d s :
  let r := run_sync_now now c d s in
  active_tasks r.2 = active_tasks s
  ∧ max_concurrent_tasks r.2 = max_concurrent_tasks s
  ∧ running r.2 = running s
  ∧ (is_Some (active_tasks s !! c)
     ∨ (max_concurrent_tasks s ≤ size (active_tasks s))%nat →
       r.1 = false ∧ task_queue r.2 = task_queue s
       ∧ ∃ l t, logged r.2 = logged s ++ [(l, t)] ∧ l ≠ Info)
  ∧ (task_queue r.2 = task_queue s
     ∨ task_queue r.2 = task_queue s ++ [Some (sync_task now c)]
       ∧ active_tasks s !! c = None
       ∧ (size (active_tasks s) < max_concurrent_tasks s)%nat).
Proof.
  cbv zeta. unfold run_sync_now.
  destruct (running s) eqn:Hrun; simpl.
  2:{ dropped_with Error LogNotRunning. }
  destruct (get_sync_config c d); simpl.
  2:{ dropped_with Error (LogNoConfig c). }
  destruct (bool_decide (is_Some (active_tasks s !! c))) eqn:Ha; simpl.
  { dropped_with Warning (LogAlreadyRunning c). }
  apply bool_decide_eq_false in Ha.
  destruct (max_concurrent_tasks s <=? size (active_tasks s))%nat eqn:Hk; simpl.
  { dropped_with Warning (LogCapacityReached (max_concurrent_tasks s)). }
  apply Nat.leb_gt in Hk. split_and!; try done.
  - intros [?|?]; [done|lia].
  - right. split_and!; try done. by apply eq_None_not_Some.
Qed.

Lemma run_job_spec now a s :
  let s' := run_job now a s in
  active_tasks s' = active_tasks s
  ∧ max_concurrent_tasks s' = max_concurrent_tasks s
  ∧ (task_queue s' = task_queue s
     ∨ (size (active_tasks s) < max_concurrent_tasks s)%nat).
Proof.
  cbv zeta. destruct a as [c|c d|c e]; simpl.
  - destruct (enqueue_spec now c s) as (A1 & A2 & _ & _ & _ & [A6|(_ & _ & A6)]);
      split_and!; auto.
  - unfold _check_monthly_sync. destruct (day now =? d); [|by split_and!; auto].
    destruct (enqueue_spec now c s) as (A1 & A2 & _ & _ & _ & [A6|(_ & _ & A6)]);
      split_and!; auto.
  - unfold _check_custom_sync. destruct (parse_hour_minute e) as [[h m]|];
      [|by split_and!; auto].
    destruct (_ && _); [|by split_and!; auto].
    destruct (enqueue_spec now c s) as (A1 & A2 & _ & _ & _ & [A6|(_ & _ & A6)]);
      split_and!; auto.
Qed.

Lemma foldl_delete_keys {K V} `{Countable K} (l : list (K * V)) (a : gmap K V) k :
  foldl (λ a (kv : K * V), delete kv.1 a) a l !! k
  = if bool_decide (k ∈ l.*1) then None else a !! k.
Proof.
  revert a. induction l as [|[k' v] l IH]; intros a; [done|].
  rewrite fmap_cons. cbn [foldl fst]. rewrite IH.
  repeat case_bool_decide; try done.
  - exfalso. apply H1. apply elem_of_cons; by right.
  - apply elem_of_cons in H1 as [->|?]; [|done]. apply lookup_delete_eq.
  - rewrite lookup_delete_ne; [done|]. intros ->. apply H1, elem_of_cons; by left.
Qed.

Lemma foldl_delete_lookup (l : list (Z * task_info)) (a : gmap Z task_info) c :
  is_Some (foldl (λ a (kv : Z * task_info), delete kv.1 a) a l !! c) →
  is_Some (a !! c).
Proof.
  revert a. induction l as [|x l IH]; intros a; simpl; [done|].
  intros H. apply IH in H. destruct (decide (x.1 = c)) as [<-|Hne].
  - rewrite lookup_delete_eq in H. by destruct H.
  - by rewrite lookup_delete_ne in H.
Qed.

Lemma foldl_log_fields (l : list (Z * task_info)) s :
  let s' := foldl (λ s (kv : Z * task_info), log Warning (LogTimeout kv.1) s) s l in
  task_queue s' = task_queue s ∧ max_concurrent_tasks s' = max_concurrent_tasks s
  ∧ running s' = running s.
Proof.
  revert s. induction l as [|x l IH]; intros s; simpl; [done|].
  destruct (IH (log Warning (LogTimeout x.1) s)) as (A & B & C). by split_and!.
Qed.

Lemma check_task_timeouts_spec now s w :
  let r := check_task_timeouts now s w in
  task_queue r.1 = task_queue s
  ∧ max_concurrent_tasks r.1 = max_concurrent_tasks s
  ∧ running r.1 = running s
  ∧ (∀ c, is_Some (active_tasks r.1 !! c) → is_Some (active_tasks s !! c)).
Proof.
  cbv zeta. unfold check_task_timeouts. simpl.
  set (l := filter _ _).
  destruct (foldl_log_fields l s) as (A & B & C).
  split_and!; try done. intros c. apply foldl_delete_lookup.
Qed.

Lemma size_at_most_one (a : gmap Z task_info) c :
  (∀ c', is_Some (a !! c') → c' = c) → (size a ≤ 1)%nat.
Proof.
  intros H. rewrite <- size_dom.
  transitivity (size ({[ c ]} : gset Z)); [|by rewrite size_singleton].
  apply subseteq_size. intros c' Hc'. apply elem_of_dom in Hc'.
  apply H in Hc'. set_solver.
Qed.

Lemma size_zero_of_no_key (a : gmap Z task_info) :
  (∀ c', ¬ is_Some (a !! c')) → size a = 0%nat.
Proof.
  intros H. apply map_size_empty_iff. apply map_empty. intros i.
  apply eq_None_not_Some. apply H.
Qed.

Lemma filter_remove_run_other (r : Z * origin) l :
  r.2 ≠ ByWorker →
  filter (λ x : Z * origin, x.2 = ByWorker) (remove_run r l)
  = filter (λ x : Z * origin, x.2 = ByWorker) l.
Proof.
  intros Hr. induction l as [|x l IH]; simpl; [done|].
  destruct (decide (x = r)) as [->|Hne].
  - by rewrite filter_cons_False.
  - rewrite !filter_cons. by rewrite IH.
Qed.

Lemma filter_remove_run_worker c l :
  filter (λ x : Z * origin, x.2 = ByWorker) l = [(c, ByWorker)] →
  filter (λ x : Z * origin, x.2 = ByWorker) (remove_run (c, ByWorker) l) = [].
Proof.
  induction l as [|x l IH]; simpl; [done|].
  destruct (decide (x = (c, ByWorker))) as [->|Hne].
  - rewrite filter_cons_True by done. by intros [= Hl].
  - destruct (decide (x.2 = ByWorker)) as [Hx|Hx].
    + rewrite filter_cons_True by done. intros [= Hx' Hl]. done.
    + rewrite !filter_cons_False by done. apply IH.
Qed.

Lemma started_inv k w : inv k (started k w).
Proof.
  unfold inv, started, worker_runs. simpl. split_and!; try done.
  intros c [x Hx]. by rewrite lookup_empty in Hx.
Qed.

Ltac idle_has_no_task I2 :=
  let c0 := fresh "c0" in let Hc := fresh "Hc" in
  let h := fresh "h" in let Hh := fresh "Hh" in
  intros c0 Hc; destruct (I2 c0 Hc) as [h Hh]; congruence.

Lemma exec_inv E k a sys sys' :
  inv k sys → exec E a sys = Some sys' → inv k sys'.
Proof.
  intros (I1 & I2 & I3 & I4) Hex. unfold inv, worker_runs in *.
  destruct a as [now act|now c|now|now|now|c|c]; cbn [exec] in Hex.
  - injection Hex as <-. simpl.
    destruct (run_job_spec now act (sched sys)) as (A1 & A2 & A3).
    rewrite A1, A2. split_and!; try done.
    intros Hk. destruct (I3 Hk) as [Hq Hw]. split; [|done].
    destruct A3 as [->|Hlt]; [done|lia].
  - injection Hex as <-. simpl.
    destruct (run_sync_now_spec now c (db (the_world sys)) (sched sys))
      as (A1 & A2 & _ & _ & A5).
    rewrite A1, A2. split_and!; try done.
    intros Hk. destruct (I3 Hk) as [Hq Hw]. split; [|done].
    destruct A5 as [->|(_ & _ & Hlt)]; [done|lia].
  - destruct (worker sys) eqn:Hw; try done.
    destruct (task_queue (sched sys)) as [|[t|] q] eqn:Hq; try done.
    + assert (Hk : k ≠ 0%nat).
      { intros Hk. destruct (I3 Hk) as [Hq' _]. congruence. }
      destruct (String.eqb (task_type t) "sync").
      * unfold handle_sync_task_begin in Hex.
        destruct (get_sync_config _ _); injection Hex as <-; simpl.
        -- split_and!; [done| |done|].
           ++ intros c0 [x Hx]. destruct (decide (task_config_id t = c0)) as [<-|Hne].
              ** eauto.
              ** rewrite lookup_insert_ne in Hx by done.
                 destruct (I2 c0) as [h Hh]; [eauto|]. congruence.
           ++ rewrite filter_app, I4. simpl. by rewrite filter_cons_True.
        -- split_and!; [done| |done|done]. idle_has_no_task I2.
      * injection Hex as <-. simpl. split_and!; [done| |done|done].
        idle_has_no_task I2.
    + injection Hex as <-. simpl. split_and!; [done| | |done].
      * idle_has_no_task I2.
      * intros Hk. destruct (I3 Hk) as [Hq' _]. congruence.
  - destruct (worker sys) as [|c h|] eqn:Hw; try done.
    destruct (Service.sync_config E c (the_world sys)) as [w2 result].
    simpl in Hex. injection Hex as <-. simpl. split_and!; [done| | |].
    + intros c' [x Hx]. destruct (decide (c = c')) as [->|Hne].
      * by rewrite lookup_delete_eq in Hx.
      * rewrite lookup_delete_ne in Hx by done.
        destruct (I2 c') as [h' Hh']; [eauto|]. congruence.
    + intros Hk. destruct (I3 Hk) as [Hq Hb]. by specialize (Hb c h).
    + by apply filter_remove_run_worker.
  - pose proof (check_task_timeouts_spec now (sched sys) (the_world sys)) as HA.
    destruct (check_task_timeouts now (sched sys) (the_world sys)) as [s1 w1].
    cbv zeta in HA. simpl in HA. destruct HA as (A1 & A2 & _ & A4).
    injection Hex as <-. simpl. rewrite A1, A2.
    split_and!; [done| |done|done].
    intros c0 Hc. by apply I2, A4.
  - injection Hex as <-. simpl. split_and!; [done|done|done|].
    rewrite filter_app, I4. simpl. rewrite filter_cons_False by done.
    rewrite filter_nil. apply app_nil_r.
  - destruct (bool_decide _); [|done]. injection Hex as <-. simpl.
    split_and!; [done|done|done|].
    rewrite filter_remove_run_other by done. done.
Qed.

Lemma exec_all_inv E k l : ∀ sys sys',
  inv k sys → exec_all E l sys = Some sys' → inv k sys'.
Proof.
  induction l as [|a l IH]; intros sys sys' Hi Hex; simpl in Hex.
  - by simplify_eq.
  - destruct (exec E a sys) as [sys1|] eqn:Ha; [|done].
    eapply IH; [|done]. by eapply exec_inv.
Qed.

Lemma inv_size k sys : inv k sys → (size (active_tasks (sched sys)) ≤ k)%nat.
Proof.
  intros (I1 & I2 & I3 & I4).
  destruct (decide (k = 0%nat)) as [Hk|Hk].
  - destruct (I3 Hk) as [_ Hb]. rewrite size_zero_of_no_key; [lia|].
    intros c Hc. destruct (I2 c Hc) as [h Hh]. by specialize (Hb c h).
  - destruct (worker sys) as [|c h|] eqn:Hw.
    + rewrite size_zero_of_no_key; [lia|].
      intros c Hc. destruct (I2 c Hc) as [h Hh]. congruence.
    + transitivity 1%nat; [|lia]. apply (size_at_most_one _ c).
      intros c' Hc'. destruct (I2 c' Hc') as [h' Hh']. congruence.
    + rewrite size_zero_of_no_key; [lia|].
      intros c Hc. destruct (I2 c Hc) as [h Hh]. congruence.
Qed.

Lemma worker_run_of_active k sys c :
  inv k sys → is_Some (active_tasks (sched sys) !! c) → (c, ByWorker) ∈ runs sys.
Proof.
  intros (_ & I2 & _ & I4) Hc. destruct (I2 c Hc) as [h Hh].
  rewrite Hh in I4. unfold worker_runs in I4.
  assert (H : (c, ByWorker) ∈ filter (λ r : Z * origin, r.2 = ByWorker) (runs sys))
    by (rewrite I4; apply list_elem_of_singleton; done).
  by apply list_elem_of_filter in H as [_ H].
Qed.

Lemma worker_runs_of_le_1 k sys c :
  inv k sys →
  (length (filter (λ r : Z * origin, r = (c, ByWorker)) (runs sys)) ≤ 1)%nat.
Proof.
  intros (_ & _ & _ & I4). unfold worker_runs in I4.
  assert (Hle : ∀ l : list (Z * origin),
             (length (filter (λ r : Z * origin, r = (c, ByWorker)) l)
              ≤ length (filter (λ r : Z * origin, r.2 = ByWorker) l))%nat).
  { induction l as [|r l IH]; [done|].
    destruct (decide (r = (c, ByWorker))) as [->|Hne].
    - rewrite !filter_cons_True by done. simpl. lia.
    - rewrite (filter_cons_False (λ r, r = (c, ByWorker))) by done.
      destruct (decide (r.2 = ByWorker)).
      + rewrite filter_cons_True by done. simpl. lia.
      + by rewrite filter_cons_False by done. }
  etransitivity; [apply Hle|]. rewrite I4. destruct (worker sys); simpl; lia.
Qed.

(** C5.  In every state the started scheduler reaches, with capacity
    [k]: the capacity is still [k], [active_tasks] holds at most [k]
    entries, and when it holds [k] or more, [_enqueue_sync_task] (a
    scheduled tick) and [run_sync_now] leave the queue as it is and log a
    warning; [run_sync_now] returns [False]. *)
Theorem concurrency_bound E k w l sys now c :
  exec_all E l (started k w) = Some sys →
  max_concurrent_tasks (sched sys) = k
  ∧ (size (active_tasks (sched sys)) ≤ k)%nat
  ∧ ((k ≤ size (active_tasks (sched sys)))%nat →
       (task_queue (_enqueue_sync_task now c (sched sys)) = task_queue (sched sys)
        ∧ ∃ t, logged (_enqueue_sync_task now c (sched sys))
               = logged (sched sys) ++ [(Warning, t)])
       ∧ (let r := run_sync_now now c (db (the_world sys)) (sched sys) in
          r.1 = false ∧ task_queue r.2 = task_queue (sched sys)
          ∧ ∃ lv t, logged r.2 = logged (sched sys) ++ [(lv, t)] ∧ lv ≠ Info)).
Proof.
  intros Hex.
  assert (Hi : inv k sys) by (eapply exec_all_inv; [apply started_inv|done]).
  split; [apply Hi|]. split; [by apply inv_size|].
  intros Hk. destruct Hi as (I1 & _). rewrite <- I1 in Hk. split.
  - by apply enqueue_spec.
  - cbv zeta. apply run_sync_now_spec. by right.
Qed.

(** C2, as amended.  In every state the started scheduler reaches: the
    worker has at most one run of a configuration in progress; while a
    configuration is in [active_tasks] the worker is running it, and a
    scheduled tick or [run_sync_now] for it is dropped (queue unchanged,
    warning logged, [False] returned).  A call of
    [SyncOrchestrator.trigger_sync] (file events, the manual run of the
    UI, the initial synchronisation) consults neither: it starts one more
    run in every state. *)
Theorem scheduler_path_exclusion E k w l sys now c :
  exec_all E l (started k w) = Some sys →
  (length (filter (λ r : Z * origin, r = (c, ByWorker)) (runs sys)) ≤ 1)%nat
  ∧ (is_Some (active_tasks (sched sys) !! c) →
       (c, ByWorker) ∈ runs sys
       ∧ task_queue (_enqueue_sync_task now c (sched sys)) = task_queue (sched sys)
       ∧ logged (_enqueue_sync_task now c (sched sys))
         = logged (sched sys) ++ [(Warning, LogAlreadyRunning c)]
       ∧ (run_sync_now now c (db (the_world sys)) (sched sys)).1 = false
       ∧ task_queue (run_sync_now now c (db (the_world sys)) (sched sys)).2
         = task_queue (sched sys))
  ∧ (∃ sys', exec E (TriggerSync c) sys = Some sys'
             ∧ sched sys' = sched sys
             ∧ runs_of c sys' = S (runs_of c sys)).
Proof.
  intros Hex.
  assert (Hi : inv k sys) by (eapply exec_all_inv; [apply started_inv|done]).
  split_and!.
  - by eapply worker_runs_of_le_1.
  - intros Hc. split; [by eapply worker_run_of_active|].
    destruct (enqueue_spec now c (sched sys)) as (_ & _ & _ & A & _).
    destruct (A Hc) as [A1 A2].
    destruct (run_sync_now_spec now c (db (the_world sys)) (sched sys))
      as (_ & _ & _ & B & _).
    destruct B as (B1 & B2 & _); [by left|]. done.
  - eexists. split; [reflexivity|]. split; [done|].
    unfold runs_of. simpl. rewrite filter_app, length_app.
    rewrite filter_cons_True by done. simpl. lia.
Qed.

(** [concurrency_bound] with capacity 1 while the worker runs
    configuration 1: a tick for configuration 2 is dropped. *)
Lemma concurrency_bound_witness :
  ∃ sys,
    exec_all (local_only quiet) [RunSyncNow midnight 1; WorkerTake midnight]
      (started 1 in_sync_world) = Some sys
    ∧ size (active_tasks (sched sys)) = 1%nat
    ∧ max_concurrent_tasks (sched sys) = 1%nat
    ∧ (size (active_tasks (sched sys)) ≤ 1)%nat
    ∧ ((1 ≤ size (active_tasks (sched sys)))%nat →
       (task_queue (_enqueue_sync_task midnight 2 (sched sys)) = task_queue (sched sys)
        ∧ ∃ t, logged (_enqueue_sync_task midnight 2 (sched sys))
               = logged (sched sys) ++ [(Warning, t)])
       ∧ (let r := run_sync_now midnight 2 (db (the_world sys)) (sched sys) in
          r.1 = false ∧ task_queue r.2 = task_queue (sched sys)
          ∧ ∃ lv t, logged r.2 = logged (sched sys) ++ [(lv, t)] ∧ lv ≠ Info)).
Proof.
  eexists. split; [vm_compute; reflexivity|]. split; [vm_compute; reflexivity|].
  apply (concurrency_bound (local_only quiet) 1 in_sync_world
           [RunSyncNow midnight 1; WorkerTake midnight] _ midnight 2).
  vm_compute; reflexivity.
Defined.

(** [scheduler_path_exclusion] while the worker runs configuration 1. *)
Lemma scheduler_path_exclusion_witness :
  ∃ sys,
    exec_all (local_only quiet) [RunSyncNow midnight 1; WorkerTake midnight]
      (started 3 in_sync_world) = Some sys
    ∧ is_Some (active_tasks (sched sys) !! 1)
    ∧ (length (filter (λ r : Z * origin, r = (1%Z, ByWorker)) (runs sys)) ≤ 1)%nat
    ∧ (is_Some (active_tasks (sched sys) !! 1) →
         (1, ByWorker) ∈ runs sys
         ∧ task_queue (_enqueue_sync_task midnight 1 (sched sys))
           = task_queue (sched sys)
         ∧ logged (_enqueue_sync_task midnight 1 (sched sys))
           = logged (sched sys) ++ [(Warning, LogAlreadyRunning 1)]
         ∧ (run_sync_now midnight 1 (db (the_world sys)) (sched sys)).1 = false
         ∧ task_queue (run_sync_now midnight 1 (db (the_world sys)) (sched sys)).2
           = task_queue (sched sys))
    ∧ (∃ sys', exec (local_only quiet) (TriggerSync 1) sys = Some sys'
               ∧ sched sys' = sched sys
               ∧ runs_of 1 sys' = S (runs_of 1 sys)).
Proof.
  eexists. split; [vm_compute; reflexivity|]. split; [vm_compute; eauto|].
  apply (scheduler_path_exclusion (local_only quiet) 3 in_sync_world
           [RunSyncNow midnight 1; WorkerTake midnight] _ midnight 1).
  vm_compute; reflexivity.
Defined.

(** C2 as stated fails: while the worker runs configuration 1, which is
    in [active_tasks], a file event or a manual run calls
    [trigger_sync], and a second run of configuration 1 is in progress
    beside the first. *)
Lemma trigger_sync_runs_overlap :
  ∃ sys,
    exec_all (local_only quiet)
      [RunSyncNow midnight 1; WorkerTake midnight; TriggerSync 1]
      (started 3 in_sync_world) = Some sys
    ∧ reachable (local_only quiet) 3 in_sync_world sys
    ∧ is_Some (active_tasks (sched sys) !! 1)
    ∧ runs sys = [(1, ByWorker); (1, ByTrigger)]
    ∧ runs_of 1 sys = 2%nat
    ∧ ¬ (runs_of 1 sys ≤ 1)%nat.
Proof.
  eexists. split; [vm_compute; reflexivity|]. split_and!.
  - by exists [RunSyncNow midnight 1; WorkerTake midnight; TriggerSync 1].
  - vm_compute; eauto.
  - reflexivity.
  - reflexivity.
  - vm_compute. lia.
Qed.

(** C8 as stated fails: the custom schedule of configuration 1 has the
    value 00:00 and its job is evaluated at 00:00, within the matching
    minute, while the worker runs configuration 1; the evaluation queues
    nothing and logs the warning of [_enqueue_sync_task]. *)
Lemma custom_tick_dropped_while_running :
  ∃ sys,
    exec_all (local_only quiet) [RunSyncNow midnight 1; WorkerTake midnight]
      (started 3 in_sync_world) = Some sys
    ∧ add_schedule_job 1 "custom" (hh_mm 0 0)
      = Some {| interval := 1; unit := "day"; at_time := Some "00:00";
                action := CheckCustomSync 1 (hh_mm 0 0) |}
    ∧ hour midnight = 0 ∧ minute midnight = 0
    ∧ task_queue (sched sys) = []
    ∧ task_queue (run_job midnight (CheckCustomSync 1 (hh_mm 0 0)) (sched sys)) = []
    ∧ last (logged (run_job midnight (CheckCustomSync 1 (hh_mm 0 0)) (sched sys)))
      = Some (Warning, LogAlreadyRunning 1).
Proof.
  eexists. split; [vm_compute; reflexivity|].
  split_and!; vm_compute; reflexivity.
Qed.

End SchedulerTheory.


(* ===================================================================== *)
(** * The local engine: counters, untouched files, convergence, preview *)
(* ===================================================================== *)

Module EngineTheory.
Import Paths Database Local Examples.
Import DatabaseTheory LocalTheory ReconcilerTheory ServiceTheory.

Lemma backup_name_ne p : backup_name p ≠ p.
Proof.
  unfold backup_name. induction p as [|a p IH]; [done|].
  simpl. intros H. injection H as H. by apply IH.
Qed.

Ltac lookups :=
  repeat first
    [ rewrite lookup_insert_eq | rewrite lookup_delete_eq
    | rewrite lookup_insert_ne by (first [done | by apply not_eq_sym])
    | rewrite lookup_delete_ne by (first [done | by apply not_eq_sym])
    | rewrite lookup_empty ].

(** What [_copy_file] does to the destination folder. *)
Lemma copy_file_target E p st :
  let r := _copy_file E p st in
  let w := st_world st in
  let w' := st_world r.2 in
  (∀ q, q ≠ p → q ≠ backup_name p → read_target w' q = read_target w q)
  ∧ (if r.1
     then ∃ f, read_source w p = Some f ∧ read_target w' p = Some f
          ∧ copy_fails E p = false
          ∧ match read_target w p with
            | Some _ =>
                backup_fails E p = false → backup_removal_fails E p = false →
                read_target w' (backup_name p) = None
            | None => read_target w' (backup_name p) = read_target w (backup_name p)
            end
     else read_target w' p = read_target w p
          ∧ (copy_fails E p = true ∨ read_source w p = None)).
Proof.
  pose proof (backup_name_ne p) as Hbk.
  destruct st as [w s]. cbv zeta. unfold _copy_file. simpl.
  destruct (read_target w p) as [old|] eqn:Ht;
    [destruct (backup_fails E p) eqn:Hb|];
    unfold read_source, read_target, write_target, emit, with_target,
      unlink_target in *; simpl in *;
    (destruct (source w ≫= _) as [f|] eqn:Hs; simpl;
     [destruct (copy_fails E p) eqn:Hc; simpl;
      [|destruct (backup_removal_fails E p) eqn:Hr; simpl]|]);
    (destruct (target w) as [t|] eqn:Htg; simpl in *; try discriminate);
    (split; [intros q Hq1 Hq2; by lookups|]);
    try (exists f; split_and!; [done|by lookups|done|]);
    try done; try (by lookups); try (intros; by lookups);
    (split; [by lookups|auto]).
Qed.

Lemma after_copy_world c hid op p w f :
  read_source w p = Some f →
  let w' := log_operation hid op p (_update_file_state_in_db c p "synced" w) in
  source w' = source w ∧ target w' = target w
  ∧ file_states (db w') = <[(c, p) := synced_row f]> (file_states (db w)).
Proof.
  intros Hf. cbv zeta. unfold _update_file_state_in_db. rewrite Hf.
  unfold log_operation. by destruct hid.
Qed.

(** The three ways the body of the copy loop can go, with what each
    leaves in the destination folder, in [file_states] and in the
    counters. *)
Lemma sync_source_file_cases E c hid tfs st p :
  let st' := sync_source_file E c hid tfs st p in
  let w := st_world st in
  let w' := st_world st' in
  source w' = source w
  ∧ ((st_stats st' = incr_errors (st_stats st)
      ∧ file_states (db w') = file_states (db w)
      ∧ (makedirs_fails E p = true ∨ copy_fails E p = true ∨ read_source w p = None)
      ∧ (∀ q, q ≠ backup_name p → read_target w' q = read_target w q))
     ∨ (makedirs_fails E p = false ∧ (p ∈ tfs) ∧ _need_update w c p = false
        ∧ st_stats st' = incr_skipped (st_stats st)
        ∧ db w' = db w ∧ target w' = target w)
     ∨ (∃ f, read_source w p = Some f
        ∧ makedirs_fails E p = false ∧ copy_fails E p = false
        ∧ (((p ∉ tfs) ∧ st_stats st' = incr_copied (st_stats st))
           ∨ ((p ∈ tfs) ∧ _need_update w c p = true
              ∧ st_stats st' = incr_updated (st_stats st)))
        ∧ file_states (db w') = <[(c, p) := synced_row f]> (file_states (db w))
        ∧ read_target w' p = Some f
        ∧ (∀ q, q ≠ p → q ≠ backup_name p → read_target w' q = read_target w q)
        ∧ match read_target w p with
          | Some _ =>
              backup_fails E p = false → backup_removal_fails E p = false →
              read_target w' (backup_name p) = None
          | None => read_target w' (backup_name p) = read_target w (backup_name p)
          end)).
Proof.
  cbv zeta. unfold sync_source_file.
  destruct (makedirs_fails E p) eqn:Hmk.
  { split; [done|]. left. split_and!; auto. }
  pose proof (copy_file_spec E p st) as (evs & _ & Hsrc & Hdb & _ & Hst).
  pose proof (copy_file_target E p st) as (Hframe & Hres). cbv zeta in Hframe, Hres.
  destruct (negb (bool_decide (p ∈ tfs))) eqn:Hin.
  - apply negb_true_iff, bool_decide_eq_false in Hin.
    destruct (_copy_file E p st) as [[] st1]; cbn [fst snd] in *.
    + destruct Hres as (f & Hf & Htp & Hcf & Hbak). destruct Hst as (_ & _ & Hstats).
      assert (Hf1 : read_source (st_world st1) p = Some f)
        by (unfold read_source in *; by rewrite Hsrc).
      destruct (after_copy_world c hid "copied" p (st_world st1) f Hf1)
        as (A1 & A2 & A3).
      unfold on_world, on_stats. cbn [st_world st_stats].
      split; [by rewrite A1|]. right. right. exists f.
      unfold read_target in *. rewrite A2, A3, Hdb.
      split_and!; try done. left. by rewrite Hstats.
    + destruct Hst as (_ & _ & Hstats). split; [done|]. left.
      split_and!; [done|by rewrite Hdb| |].
      * destruct Hres as [_ [?|?]]; auto.
      * intros q Hq. destruct (decide (q = p)) as [->|Hne]; [apply Hres|].
        by apply Hframe.
  - apply negb_false_iff, bool_decide_eq_true in Hin.
    destruct (_need_update (st_world st) c p) eqn:Hnu.
    2:{ split; [done|]. right. left. by split_and!. }
    destruct (_copy_file E p st) as [[] st1]; cbn [fst snd] in *.
    + destruct Hres as (f & Hf & Htp & Hcf & Hbak). destruct Hst as (_ & _ & Hstats).
      assert (Hf1 : read_source (st_world st1) p = Some f)
        by (unfold read_source in *; by rewrite Hsrc).
      destruct (after_copy_world c hid "updated" p (st_world st1) f Hf1)
        as (A1 & A2 & A3).
      unfold on_world, on_stats. cbn [st_world st_stats].
      split; [by rewrite A1|]. right. right. exists f.
      unfold read_target in *. rewrite A2, A3, Hdb.
      split_and!; try done. right. by rewrite Hstats.
    + destruct Hst as (_ & _ & Hstats). split; [done|]. left.
      split_and!; [done|by rewrite Hdb| |].
      * destruct Hres as [_ [?|?]]; auto.
      * intros q Hq. destruct (decide (q = p)) as [->|Hne]; [apply Hres|].
        by apply Hframe.
Qed.

Lemma delete_target_file_cases E c hid sfs (synced : gset string) st q :
  let st' := delete_target_file E c hid sfs synced st q in
  let w := st_world st in
  let w' := st_world st' in
  source w' = source w
  ∧ ((st' = st ∧ (q ∈ sfs ∨ q ∉ synced ∨ read_target w q = None))
     ∨ ((q ∉ sfs) ∧ q ∈ synced ∧ is_Some (read_target w q)
        ∧ remove_fails E q = true
        ∧ st_stats st' = incr_errors (st_stats st)
        ∧ db w' = db w ∧ target w' = target w)
     ∨ ((q ∉ sfs) ∧ q ∈ synced ∧ is_Some (read_target w q)
        ∧ remove_fails E q = false
        ∧ st_stats st' = incr_deleted (st_stats st)
        ∧ file_states (db w') = delete (c, q) (file_states (db w))
        ∧ read_target w' q = None
        ∧ ∀ r, r ≠ q → read_target w' r = read_target w r)).
Proof.
  cbv zeta. unfold delete_target_file.
  destruct (bool_decide (q ∈ sfs)) eqn:Hs.
  { apply bool_decide_eq_true in Hs. split; [done|]. left. auto. }
  apply bool_decide_eq_false in Hs.
  destruct (bool_decide (q ∈ synced)) eqn:Hy.
  2:{ apply bool_decide_eq_false in Hy. split; [done|]. left. auto. }
  apply bool_decide_eq_true in Hy.
  destruct st as [w s]. unfold _delete_file. simpl.
  destruct (read_target w q) as [f|] eqn:Ht.
  2:{ split; [done|]. left. auto. }
  destruct (remove_fails E q) eqn:Hf; simpl.
  { split; [done|]. right. left. split_and!; eauto. }
  split; [by destruct hid|]. right. right.
  split_and!; eauto; try (by destruct hid).
  - unfold read_target, unlink_target, with_target, emit, with_db in *.
    destruct hid; simpl; destruct (target w); simpl; try done; by lookups.
  - intros r Hr.
    unfold read_target, unlink_target, with_target, emit, with_db in *.
    destruct hid; simpl; destruct (target w); simpl; try done; by lookups.
Qed.

Lemma need_update_ext w w' c p :
  read_source w' p = read_source w p →
  read_target w' p = read_target w p →
  file_states (db w') !! (c, p) = file_states (db w) !! (c, p) →
  _need_update w' c p = _need_update w c p.
Proof.
  intros Hs Ht Hr. unfold _need_update.
  by rewrite !lookup_get_file_states, Hs, Ht, Hr.
Qed.

Lemma need_update_fresh w c p f :
  read_source w p = Some f → read_target w p = Some f →
  file_states (db w) !! (c, p) = Some (synced_row f) →
  _need_update w c p = false.
Proof.
  intros Hs Ht Hr. unfold _need_update.
  rewrite lookup_get_file_states, Hs, Ht, Hr.
  rewrite Z.eqb_refl, Z.ltb_irrefl, String.eqb_refl. simpl.
  by rewrite bool_decide_eq_true_2.
Qed.

Lemma step_leaves_file_up_to_date E c hid tfs st p :
  makedirs_fails E p = false → copy_fails E p = false →
  is_Some (read_source (st_world st) p) →
  _need_update (st_world (sync_source_file E c hid tfs st p)) c p = false.
Proof.
  intros Hmk Hcf [f Hf].
  destruct (sync_source_file_cases E c hid tfs st p) as (Hsrc & Hcases).
  cbv zeta in Hsrc, Hcases.
  destruct Hcases as [(_ & _ & Hwhy & _)|[(_ & _ & Hnu & _ & Hdb & Htg)|Hcopy]].
  - destruct Hwhy as [?|[?|?]]; congruence.
  - rewrite <- Hnu. apply need_update_ext.
    + unfold read_source. by rewrite Hsrc.
    + unfold read_target. by rewrite Htg.
    + by rewrite Hdb.
  - destruct Hcopy as (f' & Hf' & _ & _ & _ & Hrow & Htp & _).
    apply (need_update_fresh _ c p f').
    + unfold read_source in *. by rewrite Hsrc.
    + done.
    + rewrite Hrow. apply lookup_insert_eq.
Qed.

(** After the body of the copy loop ran for a file and neither the
    creation of its folder, nor the backup copy, nor the copy failed, the
    file is up to date, whether it was copied, updated or skipped: the
    destination holds it, a comparison made right after would skip it,
    and no error was counted.  A failure to remove the backup does not
    matter. *)
Theorem processed_file_is_up_to_date E c hid tfs st p :
  makedirs_fails E p = false → backup_fails E p = false →
  copy_fails E p = false →
  is_Some (read_source (st_world st) p) →
  let st' := sync_source_file E c hid tfs st p in
  _need_update (st_world st') c p = false
  ∧ is_Some (read_target (st_world st') p)
  ∧ errors (st_stats st') = errors (st_stats st).
Proof.
  intros Hmk _ Hcf Hsrc st'.
  pose proof (step_leaves_file_up_to_date E c hid tfs st p Hmk Hcf Hsrc) as Hup.
  fold st' in Hup. split; [done|]. split.
  - unfold _need_update in Hup.
    destruct (read_source (st_world st') p); [|done].
    destruct (read_target (st_world st') p); [eauto|done].
  - destruct (sync_source_file_cases E c hid tfs st p) as (_ & Hcases).
    cbv zeta in Hcases. fold st' in Hcases. destruct Hsrc as [f Hf].
    destruct Hcases as [(_ & _ & Hwhy & _)|[(_ & _ & _ & -> & _)|
                          (f' & _ & _ & _ & Hst & _)]].
    + destruct Hwhy as [?|[?|?]]; congruence.
    + done.
    + by destruct Hst as [[_ ->]|(_ & _ & ->)].
Qed.

(** [processed_file_is_up_to_date] on a file that is updated, with its
    backup made and removed. *)
Lemma processed_file_is_up_to_date_witness :
  let st' := sync_source_file quiet 1 1 ["x.txt"; "x.txt.bak"]
               {| st_world := clobber_world; st_stats := stats0 |} "x.txt" in
  _need_update (st_world st') 1 "x.txt" = false
  ∧ is_Some (read_target (st_world st') "x.txt")
  ∧ errors (st_stats st') = errors stats0.
Proof.
  apply (processed_file_is_up_to_date quiet 1 1 ["x.txt"; "x.txt.bak"]
           {| st_world := clobber_world; st_stats := stats0 |} "x.txt").
  - reflexivity.
  - reflexivity.
  - reflexivity.
  - exists new_report. reflexivity.
Defined.

Lemma copy_loop_counts E c hid tfs l : ∀ st,
  let s := st_stats st in
  let s' := st_stats (foldl (sync_source_file E c hid tfs) st l) in
  (copied s' + updated s' + skipped s' + errors s'
   = copied s + updated s + skipped s + errors s + length l)%nat
  ∧ deleted s' = deleted s.
Proof.
  induction l as [|p l IH]; intros st; cbv zeta; [simpl; split; [lia|done]|].
  cbn [foldl length]. destruct (IH (sync_source_file E c hid tfs st p)) as [A B].
  cbv zeta in A, B. rewrite A, B.
  destruct (sync_source_file_cases E c hid tfs st p) as (_ & Hcases).
  cbv zeta in Hcases.
  destruct Hcases as [(-> & _)|[(_ & _ & _ & -> & _)|(f & _ & _ & _ & Hst & _)]];
    [simpl; split; [lia|done]..|].
  destruct Hst as [[_ ->]|(_ & _ & ->)]; simpl; split; (lia || done).
Qed.

Lemma delete_loop_counts E c hid sfs (synced : gset string) l : ∀ st,
  let s := st_stats st in
  let s' := st_stats (foldl (delete_target_file E c hid sfs synced) st l) in
  copied s' = copied s ∧ updated s' = updated s ∧ skipped s' = skipped s
  ∧ (deleted s ≤ deleted s')%nat ∧ (errors s ≤ errors s')%nat
  ∧ (deleted s' + errors s'
     ≤ deleted s + errors s + length (filter (λ q, q ∉ sfs) l))%nat.
Proof.
  induction l as [|q l IH]; intros st; cbv zeta; [simpl; split_and!; (done || lia)|].
  cbn [foldl]. destruct (IH (delete_target_file E c hid sfs synced st q))
    as (A1 & A2 & A3 & A4 & A5 & A6).
  cbv zeta in A1, A2, A3, A4, A5, A6. rewrite A1, A2, A3.
  destruct (delete_target_file_cases E c hid sfs synced st q) as (_ & Hcases).
  cbv zeta in Hcases.
  destruct Hcases as [[Heq _]|[(Hq & _ & _ & _ & Hst & _)|(Hq & _ & _ & _ & Hst & _)]].
  - rewrite Heq in *. split_and!; try done.
    destruct (decide (q ∉ sfs)).
    + rewrite filter_cons_True by done. simpl. lia.
    + by rewrite filter_cons_False by done.
  - rewrite Hst in *. simpl in *. rewrite filter_cons_True by done. simpl.
    split_and!; (done || lia).
  - rewrite Hst in *. simpl in *. rewrite filter_cons_True by done. simpl.
    split_and!; (done || lia).
Qed.

Lemma copy_loop_frame E c hid tfs l q : ∀ st,
  q ∉ l → (∀ p, p ∈ l → q ≠ backup_name p) →
  read_target (st_world (foldl (sync_source_file E c hid tfs) st l)) q
  = read_target (st_world st) q.
Proof.
  induction l as [|p l IH]; intros st Hq Hb; [done|].
  cbn [foldl]. rewrite IH.
  2:{ intros ?. apply Hq, elem_of_cons. by right. }
  2:{ intros p' ?. apply Hb, elem_of_cons. by right. }
  assert (q ≠ p) by (intros ->; apply Hq, elem_of_cons; by left).
  assert (q ≠ backup_name p) by (apply Hb, elem_of_cons; by left).
  destruct (sync_source_file_cases E c hid tfs st p) as (_ & Hcases).
  cbv zeta in Hcases.
  destruct Hcases as [(_ & _ & _ & Hfr)|[(_ & _ & _ & _ & _ & Htg)|
                        (f & _ & _ & _ & _ & _ & _ & Hfr & _)]].
  - by apply Hfr.
  - unfold read_target. by rewrite Htg.
  - by apply Hfr.
Qed.

Lemma delete_loop_frame E c hid sfs (synced : gset string) l q : ∀ st,
  q ∈ sfs ∨ q ∉ synced ∨ q ∉ l →
  let st' := foldl (delete_target_file E c hid sfs synced) st l in
  read_target (st_world st') q = read_target (st_world st) q
  ∧ file_states (db (st_world st')) !! (c, q)
    = file_states (db (st_world st)) !! (c, q).
Proof.
  induction l as [|r l IH]; intros st Hq; [done|].
  cbv zeta. cbn [foldl].
  destruct (IH (delete_target_file E c hid sfs synced st r)) as [A B].
  { destruct Hq as [?|[?|Hq]]; auto. right. right. intros ?. apply Hq, elem_of_cons.
    by right. }
  cbv zeta in A, B. rewrite A, B.
  destruct (delete_target_file_cases E c hid sfs synced st r) as (_ & Hcases).
  cbv zeta in Hcases.
  destruct Hcases as [[Heq _]|[(_ & _ & _ & _ & _ & Hdb & Htg)|
                        (Hr1 & Hr2 & _ & _ & _ & Hfs & _ & Hfr)]].
  - by rewrite Heq.
  - unfold read_target. by rewrite Htg, Hdb.
  - assert (q ≠ r).
    { intros ->. destruct Hq as [?|[?|Hq]]; [done..|]. apply Hq, elem_of_cons.
      by left. }
    split; [by apply Hfr|]. rewrite Hfs. apply lookup_delete_ne. congruence.
Qed.

Lemma finish_history_world E hid st :
  let st' := finish_history E hid st in
  st_stats st' = st_stats st
  ∧ source (st_world st') = source (st_world st)
  ∧ target (st_world st') = target (st_world st)
  ∧ file_states (db (st_world st')) = file_states (db (st_world st)).
Proof.
  cbv zeta. unfold finish_history, on_world, with_db. cbn [st_world st_stats source target db].
  split_and!; try done.
  apply update_sync_history_spec.
Qed.

Lemma target_files_ensured E w :
  (_get_files_list E (target (with_target (Some (default ∅ (target w))) w))).*1
  = target_files E w.
Proof.
  unfold target_files. cbn [target with_target].
  destruct (target w) as [t|]; [done|]. by rewrite get_files_list_empty.
Qed.

Lemma read_target_ensured w q :
  read_target (with_target (Some (default ∅ (target w))) w) q = read_target w q.
Proof.
  unfold read_target. cbn [target with_target].
  destruct (target w) as [t|]; [done|]. simpl. apply lookup_empty.
Qed.

Lemma sync_folders_loops E c dm hid w :
  is_Some (source w) →
  (target w = None → makedirs_target_fails E = false) →
  let w1 := (begin_history c hid w).1 in
  let cid := (begin_history c hid w).2 in
  let w2 := with_target (Some (default ∅ (target w1))) w1 in
  sync_folders E c dm hid w
  = finish_history E cid
      (if dm
       then delete_pass E c cid (source_files E w2) (target_files E w2)
              (copy_pass E c cid w2)
       else copy_pass E c cid w2)
  ∧ source w2 = source w
  ∧ (∀ q, read_target w2 q = read_target w q)
  ∧ is_Some (target w2)
  ∧ file_states (db w2) = file_states (db w)
  ∧ source_files E w2 = source_files E w
  ∧ target_files E w2 = target_files E w.
Proof.
  intros [ts Hsrc] Htgt. cbv zeta. rewrite sync_folders_unfold. cbv zeta.
  destruct (begin_history_spec c hid w) as (B1 & B2 & _ & _ & B5 & _).
  set (w1 := (begin_history c hid w).1) in *.
  set (cid := (begin_history c hid w).2).
  rewrite B1, Hsrc.
  assert (Hcond : bool_decide (target w1 = None) && makedirs_target_fails E = false).
  { rewrite B2. destruct (target w) eqn:Ht; [done|]. rewrite Htgt by done.
    apply andb_false_r. }
  rewrite Hcond. split_and!; try done.
  - cbn [source with_target]. by rewrite B1.
  - intros q. rewrite read_target_ensured. unfold read_target. by rewrite B2.
  - unfold source_files. cbn [source with_target]. by rewrite B1.
  - unfold target_files at 1. rewrite target_files_ensured.
    unfold target_files. by rewrite B2.
Qed.

(** The counters of a run that reached the loops account for every file:
    each source file is counted once as copied, updated, skipped or as an
    error of the copy loop, and the removals and the errors of the delete
    pass together are at most the destination files that have no source
    file. *)
Theorem run_counts_every_file E c dm hid w :
  is_Some (source w) →
  (target w = None → makedirs_target_fails E = false) →
  let s := st_stats (sync_folders E c dm hid w) in
  ∃ e1 e2 : nat,
    errors s = (e1 + e2)%nat
    ∧ (copied s + updated s + skipped s + e1)%nat = length (source_files E w)
    ∧ (deleted s + e2
       ≤ length (filter (λ q, q ∉ source_files E w) (target_files E w)))%nat
    ∧ (dm = false → deleted s = 0%nat ∧ e2 = 0%nat).
Proof.
  intros Hsrc Htgt. cbv zeta.
  destruct (sync_folders_loops E c dm hid w Hsrc Htgt)
    as (-> & _ & _ & _ & _ & Hsfs & Htfs).
  set (cid := (begin_history c hid w).2).
  set (w2 := with_target _ _) in *.
  destruct (finish_history_world E cid
              (if dm then delete_pass E c cid (source_files E w2) (target_files E w2)
                            (copy_pass E c cid w2)
               else copy_pass E c cid w2)) as (-> & _).
  destruct (copy_loop_counts E c cid (target_files E w2) (source_files E w2)
              {| st_world := w2; st_stats := stats0 |}) as [C1 C2].
  cbv zeta in C1, C2. simpl in C1, C2. fold (copy_pass E c cid w2) in C1, C2.
  rewrite <- Hsfs, <- Htfs.
  destruct dm.
  - destruct (delete_loop_counts E c cid (source_files E w2)
                (list_to_set (get_file_states c (db (st_world (copy_pass E c cid w2)))).*1)
                (target_files E w2) (copy_pass E c cid w2))
      as (D1 & D2 & D3 & D4 & D5 & D6).
    cbv zeta in D1, D2, D3, D4, D5, D6.
    fold (delete_pass E c cid (source_files E w2) (target_files E w2)
            (copy_pass E c cid w2)) in D1, D2, D3, D4, D5, D6.
    set (s2 := st_stats (delete_pass _ _ _ _ _ _)) in *.
    exists (errors (st_stats (copy_pass E c cid w2))),
           (errors s2 - errors (st_stats (copy_pass E c cid w2)))%nat.
    split_and!; [lia|lia|lia|done].
  - exists (errors (st_stats (copy_pass E c cid w2))), 0%nat.
    split_and!; [lia|lia|lia|]. intros _. by rewrite C2.
Qed.

Lemma run_counts_every_file_witness :
  let s := st_stats (sync_folders (copy_of_fails "a.txt") 1 true None two_files_world) in
  ∃ e1 e2 : nat,
    errors s = (e1 + e2)%nat
    ∧ (copied s + updated s + skipped s + e1)%nat
      = length (source_files (copy_of_fails "a.txt") two_files_world)
    ∧ (deleted s + e2
       ≤ length (filter (λ q, q ∉ source_files (copy_of_fails "a.txt") two_files_world)
                   (target_files (copy_of_fails "a.txt") two_files_world)))%nat
    ∧ (true = false → deleted s = 0%nat ∧ e2 = 0%nat).
Proof.
  apply (run_counts_every_file (copy_of_fails "a.txt") 1 true None two_files_world).
  - vm_compute. eauto.
  - intros H. vm_compute in H. discriminate H.
Defined.

(** A destination file is left as it is by a run unless its path is the
    path of a source file, or the backup name of one, or deleting is
    enabled and the path was listed in the destination and has a row in
    [file_states].  This holds whichever folder creations, copies and
    removals fail, in a run in which no backup copy and no removal of a
    backup fails (the runs the folder model covers, see [_copy_file]). *)
Theorem untouched_destination_files E c dm hid w q :
  (∀ p, backup_fails E p = false ∧ backup_removal_fails E p = false) →
  q ∉ source_files E w →
  (∀ p, p ∈ source_files E w → q ≠ backup_name p) →
  dm = false ∨ q ∉ target_files E w ∨ file_states (db w) !! (c, q) = None →
  read_target (st_world (sync_folders E c dm hid w)) q = read_target w q.
Proof.
  intros _ Hq Hbak Hdel.
  destruct (source w) as [ts|] eqn:Hsrc.
  2:{ rewrite sync_folders_unfold. cbv zeta.
      destruct (begin_history_spec c hid w) as (B1 & B2 & _).
      rewrite B1, Hsrc. unfold read_target. cbn [st_world with_db target].
      by rewrite B2. }
  destruct (bool_decide (target w = None) && makedirs_target_fails E) eqn:Hcond.
  { rewrite sync_folders_unfold. cbv zeta.
    destruct (begin_history_spec c hid w) as (B1 & B2 & _).
    rewrite B1, Hsrc, B2, Hcond. unfold read_target. cbn [st_world with_db target].
    by rewrite B2. }
  assert (Htgt : target w = None → makedirs_target_fails E = false).
  { intros Ht. rewrite Ht in Hcond. by rewrite bool_decide_eq_true_2 in Hcond. }
  destruct (sync_folders_loops E c dm hid w (mk_is_Some _ _ Hsrc) Htgt)
    as (-> & Hs2 & Ht2 & _ & Hfs2 & Hsfs & Htfs).
  set (cid := (begin_history c hid w).2).
  set (w2 := with_target _ _) in *.
  destruct (finish_history_world E cid
              (if dm then delete_pass E c cid (source_files E w2) (target_files E w2)
                            (copy_pass E c cid w2)
               else copy_pass E c cid w2)) as (_ & _ & Hft & _).
  unfold read_target at 1. rewrite Hft. fold (read_target
    (st_world (if dm then delete_pass E c cid (source_files E w2) (target_files E w2)
                            (copy_pass E c cid w2)
               else copy_pass E c cid w2)) q).
  rewrite <- Ht2.
  assert (Hcopy : read_target (st_world (copy_pass E c cid w2)) q = read_target w2 q).
  { unfold copy_pass. rewrite copy_loop_frame; [done|by rewrite Hsfs|].
    intros p Hp. apply Hbak. by rewrite <- Hsfs. }
  destruct dm; [|done].
  rewrite <- Hcopy. unfold delete_pass.
  apply delete_loop_frame.
  destruct Hdel as [?|[Hdel|Hdel]]; [done| |].
  - right. right. by rewrite Htfs.
  - right. left. rewrite elem_of_synced.
    destruct (copy_loop_advances E c cid (target_files E w2) (source_files E w2)
                {| st_world := w2; st_stats := stats0 |}) as (evs & _ & _ & _ & Hrows).
    cbv zeta in Hrows. fold (copy_pass E c cid w2) in Hrows.
    rewrite Hrows.
    + cbn [st_world]. rewrite Hfs2, Hdel. by intros [? ?].
    + intros p Hp [= ->]. apply Hq. by rewrite <- Hsfs.
Qed.

(** [untouched_destination_files] on a run with deleting enabled that
    updates [a.txt] and removes the tracked [old.txt]: the file
    [notes.txt], which has no row, stays. *)
Lemma untouched_destination_files_witness :
  read_target (st_world (sync_folders quiet 1 true None kept_notes_world)) "notes.txt"
  = read_target kept_notes_world "notes.txt"
  ∧ read_target (st_world (sync_folders quiet 1 true None kept_notes_world)) "old.txt"
    = None.
Proof.
  split; [|vm_compute; reflexivity].
  apply (untouched_destination_files quiet 1 true None kept_notes_world "notes.txt").
  - done.
  - refine (bool_decide_unpack _ _). vm_compute. exact I.
  - apply Forall_forall. refine (bool_decide_unpack _ _). vm_compute. exact I.
  - right. right. reflexivity.
Defined.

Lemma copy_loop_source E c hid tfs l st :
  source (st_world (foldl (sync_source_file E c hid tfs) st l)) = source (st_world st).
Proof.
  destruct (copy_loop_advances E c hid tfs l st) as (evs & Hadv & _).
  apply Hadv.
Qed.

Lemma copy_loop_rows E c hid tfs l st q :
  q ∉ l →
  file_states (db (st_world (foldl (sync_source_file E c hid tfs) st l))) !! (c, q)
  = file_states (db (st_world st)) !! (c, q).
Proof.
  intros Hq.
  destruct (copy_loop_advances E c hid tfs l st) as (evs & _ & _ & _ & Hrows).
  apply Hrows. intros p Hp [= ->]. done.
Qed.

Lemma copy_loop_converges E c hid tfs l : ∀ st,
  never_fails E → NoDup l →
  (∀ p, p ∈ l → is_Some (read_source (st_world st) p)) →
  (∀ p q, p ∈ l → q ∈ l → q ≠ backup_name p) →
  let st' := foldl (sync_source_file E c hid tfs) st l in
  errors (st_stats st') = errors (st_stats st)
  ∧ (∀ p, p ∈ l → _need_update (st_world st') c p = false)
  ∧ (∀ q, q ∉ l → is_Some (read_target (st_world st') q) →
       is_Some (read_target (st_world st) q)).
Proof.
  induction l as [|p l IH]; intros st HF Hnd Hsrc Hbak; cbv zeta.
  { split_and!; [done| |done]. intros p Hp. by apply elem_of_nil in Hp. }
  apply NoDup_cons in Hnd as [Hp Hnd]. cbn [foldl].
  set (st1 := sync_source_file E c hid tfs st p).
  destruct HF as [HF0 HF]. destruct (HF p) as (F1 & F2 & F3 & F4 & F5).
  assert (Hsp : is_Some (read_source (st_world st) p))
    by (apply Hsrc, elem_of_cons; by left).
  pose proof (step_leaves_file_up_to_date E c hid tfs st p F1 F3 Hsp) as Hup.
  fold st1 in Hup.
  destruct (sync_source_file_cases E c hid tfs st p) as (Hs1 & Hcases).
  cbv zeta in Hs1, Hcases. fold st1 in Hs1, Hcases.
  assert (Herr : errors (st_stats st1) = errors (st_stats st)
          ∧ ∀ q, q ≠ p → is_Some (read_target (st_world st1) q) →
                 is_Some (read_target (st_world st) q)).
  { destruct Hcases as [(_ & _ & Hwhy & _)|[(_ & _ & _ & Hst & _ & Htg)|
                          (f & Hf & _ & _ & Hst & _ & _ & Hfr & Hbk)]].
    - destruct Hsp as [f Hf]. destruct Hwhy as [?|[?|?]]; congruence.
    - rewrite Hst. split; [done|]. intros q _. unfold read_target. by rewrite Htg.
    - split; [by destruct Hst as [[_ ->]|(_ & _ & ->)]|].
      intros q Hq Hsome. destruct (decide (q = backup_name p)) as [->|Hqb].
      + destruct (read_target (st_world st) p) eqn:Htp.
        * rewrite Hbk in Hsome by done. by destruct Hsome.
        * by rewrite Hbk in Hsome.
      + by rewrite Hfr in Hsome. }
  destruct Herr as [Herr Hadd].
  destruct (IH st1) as (I1 & I2 & I3); [by split|done| |  |].
  { intros p' Hp'. unfold read_source. rewrite Hs1. apply Hsrc, elem_of_cons.
    by right. }
  { intros p' q Hp' Hq'. apply Hbak; apply elem_of_cons; by right. }
  cbv zeta in I1, I2, I3.
  split_and!.
  - by rewrite I1.
  - intros p' Hp'. apply elem_of_cons in Hp' as [->|Hp']; [|by apply I2].
    rewrite <- Hup. apply need_update_ext.
    + unfold read_source. by rewrite copy_loop_source.
    + apply copy_loop_frame; [done|].
      intros p' Hp'. apply Hbak; apply elem_of_cons; [by right|by left].
    + by apply copy_loop_rows.
  - intros q Hq Hsome. apply Hadd.
    + intros ->. apply Hq, elem_of_cons. by left.
    + apply I3; [|done]. intros ?. apply Hq, elem_of_cons. by right.
Qed.

Lemma delete_loop_converges E c hid sfs (synced : gset string) l : ∀ st,
  never_fails E →
  let st' := foldl (delete_target_file E c hid sfs synced) st l in
  errors (st_stats st') = errors (st_stats st)
  ∧ source (st_world st') = source (st_world st)
  ∧ (∀ q, q ∈ l → q ∉ sfs → q ∈ synced → read_target (st_world st') q = None)
  ∧ (∀ q, read_target (st_world st) q = None → read_target (st_world st') q = None)
  ∧ (∀ k, file_states (db (st_world st)) !! k = None →
          file_states (db (st_world st')) !! k = None).
Proof.
  induction l as [|r l IH]; intros st HF; cbv zeta.
  { split_and!; try done. intros q Hq. by apply elem_of_nil in Hq. }
  cbn [foldl]. set (st1 := delete_target_file E c hid sfs synced st r).
  destruct (IH st1 HF) as (I1 & I2 & I3 & I4 & I5). cbv zeta in I1, I2, I3, I4, I5.
  destruct HF as [_ HF]. destruct (HF r) as (_ & _ & _ & _ & F5).
  destruct (delete_target_file_cases E c hid sfs synced st r) as (Hs1 & Hcases).
  cbv zeta in Hs1, Hcases. fold st1 in Hs1, Hcases.
  assert (Hstep : errors (st_stats st1) = errors (st_stats st)
            ∧ ((r ∉ sfs) → r ∈ synced → read_target (st_world st1) r = None)
            ∧ (∀ q, read_target (st_world st) q = None →
                    read_target (st_world st1) q = None)
            ∧ (∀ k, file_states (db (st_world st)) !! k = None →
                    file_states (db (st_world st1)) !! k = None)).
  { destruct Hcases as [[Heq Hwhy]|[(_ & _ & _ & Hrf & _)|
                          (_ & _ & _ & _ & Hst & Hfs & Hgone & Hfr)]].
    - rewrite Heq. split_and!; try done. intros ? ?.
      destruct Hwhy as [?|[?|?]]; done.
    - congruence.
    - rewrite Hst, Hfs. split_and!; try done.
      + intros q Hq. destruct (decide (q = r)) as [->|?]; [done|]. by rewrite Hfr.
      + intros k Hk. destruct (decide (k = (c, r))) as [->|?];
          [apply lookup_delete_eq|by rewrite lookup_delete_ne]. }
  destruct Hstep as (S1 & S2 & S3 & S4).
  split_and!.
  - by rewrite I1.
  - by rewrite I2.
  - intros q Hq Hq1 Hq2. apply elem_of_cons in Hq as [->|Hq]; [|by apply I3].
    apply I4. by apply S2.
  - intros q Hq. by apply I4, S3.
  - intros k Hk. by apply I5, S4.
Qed.

Lemma files_list_NoDup E folder :
  listdir_ok E → NoDup (_get_files_list E folder).*1.
Proof.
  intros HE. destruct folder as [t|]; [|constructor].
  unfold _get_files_list. destruct (HE t) as [Hnd _]. revert Hnd.
  generalize (listdir E t). intros l.
  induction l as [|p l IH]; intros Hnd; [constructor|].
  apply NoDup_cons in Hnd as [Hp Hnd]. cbn [omap list_omap].
  destruct (hidden p); [by apply IH|].
  destruct (t !! p) as [f|]; cbn [fmap option_fmap option_map]; [|by apply IH].
  rewrite fmap_cons. apply NoDup_cons. split; [|by apply IH].
  cbn [fst]. intros Hin. apply Hp.
  apply list_elem_of_fmap in Hin as ([p' f'] & -> & Hin).
  apply list_elem_of_omap in Hin as (x & Hx & Hfx).
  destruct (hidden x); [done|]. destruct (t !! x); [|done].
  simpl in Hfx. by simplify_eq.
Qed.

Lemma copy_file_keeps_target E p st :
  is_Some (target (st_world st)) →
  is_Some (target (st_world (_copy_file E p st).2)).
Proof.
  destruct st as [w s]. unfold _copy_file. simpl. intros [t Ht].
  destruct (read_target w p) as [old|];
    [destruct (backup_fails E p)|];
    unfold read_source, write_target, emit, with_target, unlink_target; simpl;
    (destruct (source w ≫= _) as [f|]; simpl;
     [destruct (copy_fails E p); simpl;
      [|destruct (backup_removal_fails E p); simpl]|]);
    rewrite ?Ht; simpl; eauto.
Qed.

Lemma sync_source_file_keeps_target E c hid tfs st p :
  is_Some (target (st_world st)) →
  is_Some (target (st_world (sync_source_file E c hid tfs st p))).
Proof.
  intros Ht. unfold sync_source_file.
  destruct (makedirs_fails E p); [done|].
  pose proof (copy_file_keeps_target E p st Ht) as Hc.
  assert (Hlog : ∀ op w, target (log_operation hid op p
                            (_update_file_state_in_db c p "synced" w)) = target w).
  { intros op w. unfold log_operation, _update_file_state_in_db.
    destruct (read_source w p); by destruct hid. }
  destruct (negb (bool_decide (p ∈ tfs))).
  - destruct (_copy_file E p st) as [[] st1]; [|done].
    unfold on_world, on_stats. cbn [st_world fst snd] in *. by rewrite Hlog.
  - destruct (_need_update (st_world st) c p); [|done].
    destruct (_copy_file E p st) as [[] st1]; [|done].
    unfold on_world, on_stats. cbn [st_world fst snd] in *. by rewrite Hlog.
Qed.

Lemma copy_loop_keeps_target E c hid tfs l : ∀ st,
  is_Some (target (st_world st)) →
  is_Some (target (st_world (foldl (sync_source_file E c hid tfs) st l))).
Proof.
  induction l as [|p l IH]; intros st Ht; [done|].
  cbn [foldl]. by apply IH, sync_source_file_keeps_target.
Qed.

Lemma delete_loop_keeps_target E c hid sfs (synced : gset string) l : ∀ st,
  is_Some (target (st_world st)) →
  is_Some (target (st_world (foldl (delete_target_file E c hid sfs synced) st l))).
Proof.
  induction l as [|q l IH]; intros st Ht; [done|].
  cbn [foldl]. apply IH. unfold delete_target_file.
  destruct (bool_decide (q ∈ sfs)); [done|].
  destruct (bool_decide (q ∈ synced)); [|done].
  destruct st as [w s]. unfold _delete_file. simpl in *.
  destruct (read_target w q); [|done].
  destruct (remove_fails E q); simpl; [done|].
  destruct Ht as [t Ht].
  destruct hid; simpl; rewrite Ht; simpl; eauto.
Qed.

Lemma first_run_converges E c dm hid w :
  listdir_ok E → never_fails E → is_Some (source w) →
  (∀ p q, p ∈ source_files E w → q ∈ source_files E w → q ≠ backup_name p) →
  let st1 := sync_folders E c dm hid w in
  let w1 := st_world st1 in
  source w1 = source w
  ∧ is_Some (target w1)
  ∧ errors (st_stats st1) = 0%nat
  ∧ (∀ p, p ∈ source_files E w → _need_update w1 c p = false)
  ∧ (dm = true → ∀ q, is_Some (read_target w1 q) → hidden q = false →
       q ∉ source_files E w → file_states (db w1) !! (c, q) = None).
Proof.
  intros HE HF Hsrc Hbak. cbv zeta.
  assert (Htgt : target w = None → makedirs_target_fails E = false)
    by (intros _; apply HF).
  destruct (sync_folders_loops E c dm hid w Hsrc Htgt)
    as (-> & Hs2 & Ht2 & Htg2 & Hfs2 & Hsfs & Htfs).
  set (cid := (begin_history c hid w).2).
  set (w2 := with_target _ _) in *.
  set (st := if dm then _ else _).
  destruct (finish_history_world E cid st) as (Fst & Fsrc & Ftg & Ffs).
  cbv zeta in Fst, Fsrc, Ftg, Ffs.
  assert (Hnu : ∀ p, _need_update (st_world (finish_history E cid st)) c p
                     = _need_update (st_world st) c p).
  { intros p. apply need_update_ext.
    - unfold read_source. by rewrite Fsrc.
    - unfold read_target. by rewrite Ftg.
    - by rewrite Ffs. }
  assert (Hrt : ∀ q, read_target (st_world (finish_history E cid st)) q
                     = read_target (st_world st) q).
  { intros q. unfold read_target. by rewrite Ftg. }
  rewrite Fst, Fsrc, Ffs, Ftg.
  (* the copy pass *)
  destruct (copy_loop_converges E c cid (target_files E w2) (source_files E w2)
              {| st_world := w2; st_stats := stats0 |} HF)
    as (C1 & C2 & C3).
  { by apply files_list_NoDup. }
  { intros p Hp. apply elem_of_source_files in Hp as [Hp _]. done. }
  { intros p q Hp Hq. rewrite Hsfs in Hp, Hq. by apply Hbak. }
  cbv zeta in C1, C2, C3. fold (copy_pass E c cid w2) in C1, C2, C3.
  cbn [st_world st_stats] in C1, C2, C3.
  pose proof (copy_loop_source E c cid (target_files E w2) (source_files E w2)
                {| st_world := w2; st_stats := stats0 |}) as C0.
  fold (copy_pass E c cid w2) in C0. cbn [st_world] in C0.
  pose proof (copy_loop_keeps_target E c cid (target_files E w2) (source_files E w2)
                {| st_world := w2; st_stats := stats0 |} Htg2) as C4.
  fold (copy_pass E c cid w2) in C4.
  destruct dm; subst st.
  2:{ split_and!; [by rewrite C0|done|done| |done].
      intros p Hp. rewrite Hnu. apply C2. by rewrite Hsfs. }
  (* the delete pass *)
  unfold delete_pass in *.
  set (synced := list_to_set (get_file_states c (db (st_world (copy_pass E c cid w2)))).*1
                 : gset string) in *.
  destruct (delete_loop_converges E c cid (source_files E w2) synced
              (target_files E w2) (copy_pass E c cid w2) HF)
    as (D1 & D2 & D3 & D4 & D5).
  cbv zeta in D1, D2, D3, D4, D5.
  pose proof (delete_loop_keeps_target E c cid (source_files E w2) synced
                (target_files E w2) (copy_pass E c cid w2) C4) as D6.
  set (st2 := foldl _ (copy_pass E c cid w2) (target_files E w2)) in *.
  assert (Dfr : ∀ p, p ∈ source_files E w →
            read_target (st_world st2) p = read_target (st_world (copy_pass E c cid w2)) p
            ∧ file_states (db (st_world st2)) !! (c, p)
              = file_states (db (st_world (copy_pass E c cid w2))) !! (c, p)).
  { intros p Hp. apply (delete_loop_frame E c cid (source_files E w2) synced
                          (target_files E w2) p (copy_pass E c cid w2)).
    left. by rewrite Hsfs. }
  split_and!.
  - by rewrite D2, C0.
  - done.
  - by rewrite D1, C1.
  - intros p Hp. rewrite Hnu. destruct (Dfr p Hp) as [R1 R2].
    rewrite <- (C2 p) by (by rewrite Hsfs).
    apply need_update_ext; [|done|done].
    unfold read_source. by rewrite D2.
  - intros _ q Hq Hvis Hnot. rewrite Hrt in Hq.
    destruct (file_states (db (st_world st2)) !! (c, q)) as [row|] eqn:Hrow; [|done].
    exfalso.
    assert (Hrow1 : is_Some (file_states (db (st_world (copy_pass E c cid w2))) !! (c, q))).
    { destruct (file_states (db (st_world (copy_pass E c cid w2))) !! (c, q)) eqn:Hr;
        [done|]. apply D5 in Hr. congruence. }
    assert (Hq1 : is_Some (read_target (st_world (copy_pass E c cid w2)) q)).
    { destruct (read_target (st_world (copy_pass E c cid w2)) q) eqn:Hr; [done|].
      apply D4 in Hr. rewrite Hr in Hq. by destruct Hq. }
    assert (Hq2 : is_Some (read_target w2 q)).
    { apply C3; [by rewrite Hsfs|done]. }
    assert (Hin : q ∈ target_files E w2).
    { unfold target_files. destruct (target w2) as [t|] eqn:Ht; [|by destruct Htg2].
      apply elem_of_files_list_2; [done| |done].
      unfold read_target in Hq2. by rewrite Ht in Hq2. }
    rewrite D3 in Hq; [by destruct Hq|done|by rewrite Hsfs|].
    by apply elem_of_synced.
Qed.

Lemma skip_loop E c hid tfs l : ∀ st,
  never_fails E →
  (∀ p, p ∈ l → p ∈ tfs ∧ _need_update (st_world st) c p = false) →
  let st' := foldl (sync_source_file E c hid tfs) st l in
  source (st_world st') = source (st_world st)
  ∧ target (st_world st') = target (st_world st)
  ∧ db (st_world st') = db (st_world st)
  ∧ copied (st_stats st') = copied (st_stats st)
  ∧ updated (st_stats st') = updated (st_stats st)
  ∧ deleted (st_stats st') = deleted (st_stats st)
  ∧ errors (st_stats st') = errors (st_stats st)
  ∧ skipped (st_stats st') = (skipped (st_stats st) + length l)%nat.
Proof.
  induction l as [|p l IH]; intros st HF Hl; cbv zeta.
  { simpl. split_and!; (done || lia). }
  cbn [foldl length].
  destruct (Hl p) as [Hin Hnu]; [apply elem_of_cons; by left|].
  assert (Hstep : sync_source_file E c hid tfs st p
                  = {| st_world := emit (EvSkipped p) (st_world st);
                       st_stats := incr_skipped (st_stats st) |}).
  { unfold sync_source_file. destruct HF as [_ HF].
    destruct (HF p) as (-> & _). rewrite (bool_decide_eq_true_2 _ Hin).
    cbn [negb]. by rewrite Hnu. }
  rewrite Hstep.
  destruct (IH {| st_world := emit (EvSkipped p) (st_world st);
                  st_stats := incr_skipped (st_stats st) |} HF)
    as (A1 & A2 & A3 & A4 & A5 & A6 & A7 & A8).
  { intros q Hq. destruct (Hl q) as [? Hq']; [apply elem_of_cons; by right|].
    split; [done|]. rewrite <- Hq'. by apply need_update_ext. }
  cbv zeta in A1, A2, A3, A4, A5, A6, A7, A8.
  rewrite A1, A2, A3, A4, A5, A6, A7, A8. simpl. split_and!; (done || lia).
Qed.

Lemma idle_delete_loop E c hid sfs (synced : gset string) l : ∀ st,
  (∀ q, q ∈ l → q ∈ sfs ∨ q ∉ synced) →
  foldl (delete_target_file E c hid sfs synced) st l = st.
Proof.
  induction l as [|q l IH]; intros st Hl; [done|].
  cbn [foldl].
  assert (Hstep : delete_target_file E c hid sfs synced st q = st).
  { unfold delete_target_file.
    destruct (Hl q) as [Hq|Hq]; [apply elem_of_cons; by left| |].
    - by rewrite bool_decide_eq_true_2.
    - destruct (bool_decide (q ∈ sfs)); [done|]. by rewrite bool_decide_eq_false_2. }
  rewrite Hstep. apply IH. intros r Hr. apply Hl, elem_of_cons. by right.
Qed.

Lemma run_on_converged E c dm hid w :
  listdir_ok E → never_fails E → is_Some (source w) → is_Some (target w) →
  (∀ p, p ∈ source_files E w → _need_update w c p = false) →
  (dm = true → ∀ q, is_Some (read_target w q) → hidden q = false →
     q ∉ source_files E w → file_states (db w) !! (c, q) = None) →
  let st := sync_folders E c dm hid w in
  st_stats st = {| copied := 0; updated := 0; deleted := 0;
                   skipped := length (source_files E w); errors := 0 |}
  ∧ target (st_world st) = target w
  ∧ file_states (db (st_world st)) = file_states (db w).
Proof.
  intros HE HF Hsrc [tt Htt] Hup Hrows. cbv zeta.
  assert (Htgt : target w = None → makedirs_target_fails E = false)
    by (intros _; apply HF).
  destruct (sync_folders_loops E c dm hid w Hsrc Htgt)
    as (-> & Hs2 & Ht2 & Htg2 & Hfs2 & Hsfs & Htfs).
  set (cid := (begin_history c hid w).2).
  set (w2 := with_target _ _) in *.
  assert (Htw2 : target w2 = target w).
  { unfold w2. cbn [target with_target].
    destruct (begin_history_spec c hid w) as (_ & -> & _). by rewrite Htt. }
  set (st := if dm then _ else _).
  destruct (finish_history_world E cid st) as (-> & _ & -> & ->).
  (* the copy pass skips every file *)
  destruct (skip_loop E c cid (target_files E w2) (source_files E w2)
              {| st_world := w2; st_stats := stats0 |} HF)
    as (A1 & A2 & A3 & A4 & A5 & A6 & A7 & A8).
  { intros p Hp. rewrite Hsfs in Hp. cbn [st_world].
    assert (Hnu : _need_update w2 c p = false).
    { rewrite <- (Hup p Hp). apply need_update_ext; [|done|by rewrite Hfs2].
      unfold read_source. by rewrite Hs2. }
    split; [|done].
    unfold target_files. rewrite Htw2, Htt.
    pose proof (Hup p Hp) as Hnu0. unfold _need_update in Hnu0.
    apply elem_of_source_files in Hp as [_ Hvis].
    apply elem_of_files_list_2; [done| |done].
    destruct (read_source w p); [|done].
    destruct (read_target w p) as [ft|] eqn:Hrt; [|done].
    unfold read_target in Hrt. rewrite Htt in Hrt. simpl in Hrt. eauto. }
  cbv zeta in A1, A2, A3, A4, A5, A6, A7, A8.
  fold (copy_pass E c cid w2) in A1, A2, A3, A4, A5, A6, A7, A8.
  cbn [st_world st_stats stats0 copied updated deleted skipped errors] in *.
  assert (Hst : st = copy_pass E c cid w2).
  { subst st. destruct dm; [|done]. unfold delete_pass. apply idle_delete_loop.
    intros q Hq. destruct (decide (q ∈ source_files E w2)) as [?|Hns]; [by left|].
    right. rewrite elem_of_synced, A3, Hfs2.
    rewrite Htfs in Hq. unfold target_files in Hq. rewrite Htt in Hq.
    apply elem_of_files_list in Hq as [Hq Hvis].
    rewrite (Hrows eq_refl q); [by intros [? ?]| |done|by rewrite <- Hsfs].
    unfold read_target. by rewrite Htt. }
  rewrite Hst, A2, A3, Htw2, Hfs2. split_and!; [|done|done].
  destruct (st_stats (copy_pass E c cid w2)) as [a b d e f]. simpl in *.
  rewrite <- Hsfs. by subst.
Qed.

(** Idempotence, where it holds: when no system call fails and no
    source file carries the backup name of another source file, a second
    run on the folders the first run left skips every source file; it
    copies, updates and deletes nothing and leaves the destination folder
    and [file_states] as they are. *)
Theorem second_run_skips_everything E c dm hid hid' w :
  listdir_ok E → never_fails E → is_Some (source w) →
  (∀ p q, p ∈ source_files E w → q ∈ source_files E w → q ≠ backup_name p) →
  let st1 := sync_folders E c dm hid w in
  let st2 := sync_folders E c dm hid' (st_world st1) in
  errors (st_stats st1) = 0%nat
  ∧ st_stats st2 = {| copied := 0; updated := 0; deleted := 0;
                      skipped := length (source_files E w); errors := 0 |}
  ∧ target (st_world st2) = target (st_world st1)
  ∧ file_states (db (st_world st2)) = file_states (db (st_world st1)).
Proof.
  intros HE HF Hsrc Hbak. cbv zeta.
  destruct (first_run_converges E c dm hid w HE HF Hsrc Hbak)
    as (R1 & R2 & R3 & R4 & R5). cbv zeta in R1, R2, R3, R4, R5.
  set (w1 := st_world (sync_folders E c dm hid w)) in *.
  assert (Hsfs : source_files E w1 = source_files E w)
    by (unfold source_files; by rewrite R1).
  split; [done|]. rewrite <- Hsfs.
  apply run_on_converged; try done.
  - by rewrite R1.
  - intros p Hp. apply R4. by rewrite <- Hsfs.
  - intros Hdm q Hq Hvis Hns. apply R5; try done. by rewrite <- Hsfs.
Qed.

Lemma second_run_skips_everything_witness :
  let st1 := sync_folders quiet 1 true None clobber_world in
  let st2 := sync_folders quiet 1 true None (st_world st1) in
  errors (st_stats st1) = 0%nat
  ∧ st_stats st2 = {| copied := 0; updated := 0; deleted := 0;
                      skipped := length (source_files quiet clobber_world);
                      errors := 0 |}
  ∧ target (st_world st2) = target (st_world st1)
  ∧ file_states (db (st_world st2)) = file_states (db (st_world st1)).
Proof.
  apply (second_run_skips_everything quiet 1 true None None clobber_world).
  - apply walk_sorted_ok. reflexivity.
  - split; [reflexivity|]. intros p. repeat split.
  - exists {[ "x.txt" := new_report ]}. reflexivity.
  - intros p q Hp Hq.
    assert (Hl : source_files quiet clobber_world = ["x.txt"])
      by (vm_compute; reflexivity).
    rewrite Hl in Hp, Hq.
    apply list_elem_of_singleton in Hp. apply list_elem_of_singleton in Hq.
    rewrite Hp, Hq. apply not_eq_sym, backup_name_ne.
Defined.

Lemma paths_of_filter (P : string → Prop) `{∀ p, Decision (P p)}
    (l : list (string * file)) :
  fi_path <$> (info_of <$> filter (λ pf, P pf.1) l) = filter P l.*1.
Proof.
  induction l as [|pf l IH]; [done|].
  rewrite fmap_cons. destruct (decide (P pf.1)).
  - rewrite !filter_cons_True by done. rewrite !fmap_cons. by rewrite IH.
  - by rewrite !filter_cons_False by done.
Qed.

Lemma three_way_split (P : string → Prop) (Q : string → bool)
    `{∀ p, Decision (P p)} (l : list string) :
  (length (filter (λ p, ¬ P p) l)
   + length (filter (λ p, P p ∧ Q p = true) l)
   + length (filter (λ p, P p ∧ Q p = false) l))%nat = length l.
Proof.
  induction l as [|p l IH]; [done|].
  destruct (decide (P p)) as [HP|HP]; destruct (Q p) eqn:HQ.
  - rewrite (filter_cons_False (λ p, ¬ P p)) by tauto.
    rewrite (filter_cons_True (λ p, P p ∧ Q p = true)) by done.
    rewrite (filter_cons_False (λ p, P p ∧ Q p = false)) by (intros [_ ?]; congruence).
    simpl. lia.
  - rewrite (filter_cons_False (λ p, ¬ P p)) by tauto.
    rewrite (filter_cons_False (λ p, P p ∧ Q p = true)) by (intros [_ ?]; congruence).
    rewrite (filter_cons_True (λ p, P p ∧ Q p = false)) by done.
    simpl. lia.
  - rewrite (filter_cons_True (λ p, ¬ P p)) by done.
    rewrite (filter_cons_False (λ p, P p ∧ Q p = true)) by tauto.
    rewrite (filter_cons_False (λ p, P p ∧ Q p = false)) by tauto.
    simpl. lia.
  - rewrite (filter_cons_True (λ p, ¬ P p)) by done.
    rewrite (filter_cons_False (λ p, P p ∧ Q p = true)) by tauto.
    rewrite (filter_cons_False (λ p, P p ∧ Q p = false)) by tauto.
    simpl. lia.
Qed.

Lemma length_of_filter (P : string → Prop) `{∀ p, Decision (P p)}
    (l : list (string * file)) :
  length (info_of <$> filter (λ pf, P pf.1) l) = length (filter P l.*1).
Proof. by rewrite <- (paths_of_filter P l), !length_fmap. Qed.

Lemma preview_lengths E c w :
  is_Some (source w) →
  let pv := preview_sync E c w in
  length (to_copy pv)
  = length (filter (λ p, p ∉ target_files E w) (source_files E w))
  ∧ length (to_update pv)
    = length (filter (λ p, p ∈ target_files E w ∧ _need_update w c p = true)
                (source_files E w))
  ∧ length (to_skip pv)
    = length (filter (λ p, p ∈ target_files E w ∧ _need_update w c p = false)
                (source_files E w))
  ∧ length (to_delete pv)
    = length (filter (λ q, q ∉ source_files E w) (target_files E w)).
Proof.
  intros [ts Hsrc]. cbv zeta. unfold preview_sync. rewrite Hsrc.
  cbn [to_copy to_update to_skip to_delete]. rewrite <- Hsrc.
  unfold source_files, target_files. split_and!.
  - exact (length_of_filter (λ p, p ∉ (_get_files_list E (target w)).*1) _).
  - exact (length_of_filter (λ p, p ∈ (_get_files_list E (target w)).*1
                                  ∧ _need_update w c p = true) _).
  - exact (length_of_filter (λ p, p ∈ (_get_files_list E (target w)).*1
                                  ∧ _need_update w c p = false) _).
  - exact (length_of_filter (λ p, p ∉ (_get_files_list E (source w)).*1) _).
Qed.

Lemma preview_paths E c w :
  is_Some (source w) →
  let pv := preview_sync E c w in
  fi_path <$> to_copy pv
  = filter (λ p, p ∉ target_files E w) (source_files E w)
  ∧ fi_path <$> to_update pv
    = filter (λ p, p ∈ target_files E w ∧ _need_update w c p = true)
        (source_files E w)
  ∧ fi_path <$> to_skip pv
    = filter (λ p, p ∈ target_files E w ∧ _need_update w c p = false)
        (source_files E w)
  ∧ fi_path <$> to_delete pv
    = filter (λ q, q ∉ source_files E w) (target_files E w).
Proof.
  intros [ts Hsrc]. cbv zeta. unfold preview_sync. rewrite Hsrc.
  cbn [to_copy to_update to_skip to_delete]. rewrite <- Hsrc.
  unfold source_files, target_files. split_and!.
  - exact (paths_of_filter (λ p, p ∉ (_get_files_list E (target w)).*1) _).
  - exact (paths_of_filter (λ p, p ∈ (_get_files_list E (target w)).*1
                                 ∧ _need_update w c p = true) _).
  - exact (paths_of_filter (λ p, p ∈ (_get_files_list E (target w)).*1
                                 ∧ _need_update w c p = false) _).
  - exact (paths_of_filter (λ p, p ∉ (_get_files_list E (source w)).*1) _).
Qed.

(** The preview sorts every source file into exactly one of the lists
    to copy, to update and to skip, and lists for deletion every
    destination file that has no source file, whether [file_states] has a
    row for it or not and whatever [delete_missing] says. *)
Theorem preview_sorts_every_file E c w :
  is_Some (source w) →
  let pv := preview_sync E c w in
  (∀ p, p ∈ source_files E w ↔
        p ∈ fi_path <$> to_copy pv ∨ p ∈ fi_path <$> to_update pv
        ∨ p ∈ fi_path <$> to_skip pv)
  ∧ (length (to_copy pv) + length (to_update pv) + length (to_skip pv))%nat
    = length (source_files E w)
  ∧ fi_path <$> to_delete pv
    = filter (λ q, q ∉ source_files E w) (target_files E w)
  ∧ preview_errors pv = 0%nat.
Proof.
  intros [ts Hsrc]. cbv zeta. unfold preview_sync. rewrite Hsrc.
  cbn [to_copy to_update to_skip to_delete preview_errors].
  rewrite <- Hsrc.
  fold (source_files E w) (target_files E w).
  pose proof (paths_of_filter (λ p, p ∉ target_files E w)
                (_get_files_list E (source w))) as H1.
  pose proof (paths_of_filter (λ p, p ∈ target_files E w ∧ _need_update w c p = true)
                (_get_files_list E (source w))) as H2.
  pose proof (paths_of_filter (λ p, p ∈ target_files E w ∧ _need_update w c p = false)
                (_get_files_list E (source w))) as H3.
  pose proof (paths_of_filter (λ q, q ∉ source_files E w)
                (_get_files_list E (target w))) as H4.
  fold (source_files E w) (target_files E w) in H1, H2, H3, H4.
  unfold target_files, source_files in *.
  rewrite H1, H2, H3, H4.
  split_and!; [|  |done|done].
  - intros p. rewrite !list_elem_of_filter.
    destruct (decide (p ∈ (_get_files_list E (target w)).*1));
      destruct (_need_update w c p); intuition congruence.
  - rewrite <- (length_fmap fi_path (info_of <$> filter (λ pf, pf.1 ∉ _) _)).
    rewrite <- (length_fmap fi_path (info_of <$> filter (λ pf, pf.1 ∈ _ ∧ _ = true) _)).
    rewrite <- (length_fmap fi_path (info_of <$> filter (λ pf, pf.1 ∈ _ ∧ _ = false) _)).
    rewrite H1, H2, H3.
    apply (three_way_split (λ p, p ∈ (_get_files_list E (target w)).*1)
             (λ p, _need_update w c p)).
Qed.

Lemma copy_loop_follows_plan E c hid tfs w0 l : ∀ st,
  never_fails E → NoDup l →
  (∀ p q, p ∈ l → q ∈ l → q ≠ backup_name p) →
  (∀ p, p ∈ l → is_Some (read_source w0 p)) →
  source (st_world st) = source w0 →
  (∀ p, p ∈ l → read_target (st_world st) p = read_target w0 p
                ∧ file_states (db (st_world st)) !! (c, p)
                  = file_states (db w0) !! (c, p)) →
  let s := st_stats st in
  let s' := st_stats (foldl (sync_source_file E c hid tfs) st l) in
  copied s' = (copied s + length (filter (λ p, p ∉ tfs) l))%nat
  ∧ updated s'
    = (updated s + length (filter (λ p, p ∈ tfs ∧ _need_update w0 c p = true) l))%nat
  ∧ skipped s'
    = (skipped s + length (filter (λ p, p ∈ tfs ∧ _need_update w0 c p = false) l))%nat
  ∧ errors s' = errors s.
Proof.
  induction l as [|p l IH]; intros st HF Hnd Hbak Hsrc Hs0 Hinv; cbv zeta.
  { simpl. split_and!; (done || lia). }
  apply NoDup_cons in Hnd as [Hp Hnd]. cbn [foldl].
  set (st1 := sync_source_file E c hid tfs st p).
  assert (Hpin : p ∈ p :: l) by (apply elem_of_cons; by left).
  destruct (Hinv p Hpin) as [Hrt Hrow].
  assert (Hnu : _need_update (st_world st) c p = _need_update w0 c p).
  { apply need_update_ext; [|done|done]. unfold read_source. by rewrite Hs0. }
  destruct (Hsrc p Hpin) as [f Hf].
  destruct (sync_source_file_cases E c hid tfs st p) as (Hs1 & Hcases).
  cbv zeta in Hs1, Hcases. fold st1 in Hs1, Hcases.
  destruct (IH st1 HF Hnd) as (I1 & I2 & I3 & I4).
  { intros p' q Hp' Hq'. apply Hbak; apply elem_of_cons; by right. }
  { intros p' Hp'. apply Hsrc, elem_of_cons. by right. }
  { by rewrite Hs1. }
  { intros p' Hp'.
    assert (Hne : p' ≠ p) by (intros ->; done).
    assert (Hnb : p' ≠ backup_name p).
    { apply Hbak; [done|]. apply elem_of_cons. by right. }
    destruct (Hinv p') as [Hrt' Hrow']; [apply elem_of_cons; by right|].
    rewrite <- Hrt', <- Hrow'.
    destruct Hcases as [(_ & Hfs & _ & Hfr)|[(_ & _ & _ & _ & Hdb & Htg)|
                          (f' & _ & _ & _ & _ & Hfs & _ & Hfr & _)]].
    - split; [by apply Hfr|by rewrite Hfs].
    - unfold read_target. by rewrite Htg, Hdb.
    - split; [by apply Hfr|]. rewrite Hfs. apply lookup_insert_ne. congruence. }
  cbv zeta in I1, I2, I3, I4. rewrite I1, I2, I3, I4.
  destruct HF as [_ HF]. destruct (HF p) as (F1 & _ & F3 & _).
  destruct Hcases as [(_ & _ & Hwhy & _)|[(_ & Hin & Hn & Hst & _)|
                        (f' & _ & _ & _ & Hst & _)]].
  - unfold read_source in Hwhy. rewrite Hs0 in Hwhy. fold (read_source w0 p) in Hwhy.
    destruct Hwhy as [?|[?|?]]; congruence.
  - rewrite Hst. rewrite Hnu in Hn. simpl.
    rewrite (filter_cons_False (λ p, p ∉ tfs)) by tauto.
    rewrite (filter_cons_False (λ p, p ∈ tfs ∧ _ = true)) by (intros [_ ?]; congruence).
    rewrite (filter_cons_True (λ p, p ∈ tfs ∧ _ = false)) by done.
    simpl. split_and!; (done || lia).
  - destruct Hst as [[Hin ->]|(Hin & Hn & ->)]; simpl.
    + rewrite (filter_cons_True (λ p, p ∉ tfs)) by done.
      rewrite (filter_cons_False (λ p, p ∈ tfs ∧ _ = true)) by tauto.
      rewrite (filter_cons_False (λ p, p ∈ tfs ∧ _ = false)) by tauto.
      simpl. split_and!; (done || lia).
    + rewrite Hnu in Hn.
      rewrite (filter_cons_False (λ p, p ∉ tfs)) by tauto.
      rewrite (filter_cons_True (λ p, p ∈ tfs ∧ _ = true)) by done.
      rewrite (filter_cons_False (λ p, p ∈ tfs ∧ _ = false))
        by (intros [_ ?]; congruence).
      simpl. split_and!; (done || lia).
Qed.

(** The preview is exact for the copy loop when nothing fails and no
    source file carries the backup name of another: the run copies,
    updates and skips as many files as the preview lists.  For deletions
    the preview is only an upper bound. *)
Theorem preview_predicts_the_run E c dm hid w :
  listdir_ok E → never_fails E → is_Some (source w) →
  (∀ p q, p ∈ source_files E w → q ∈ source_files E w → q ≠ backup_name p) →
  let s := st_stats (sync_folders E c dm hid w) in
  let pv := preview_sync E c w in
  copied s = length (to_copy pv)
  ∧ updated s = length (to_update pv)
  ∧ skipped s = length (to_skip pv)
  ∧ errors s = 0%nat
  ∧ (deleted s ≤ length (to_delete pv))%nat.
Proof.
  intros HE HF Hsrc Hbak. cbv zeta.
  assert (Htgt : target w = None → makedirs_target_fails E = false)
    by (intros _; apply HF).
  destruct (first_run_converges E c dm hid w HE HF Hsrc Hbak) as (_ & _ & Herr & _).
  cbv zeta in Herr.
  destruct (sync_folders_loops E c dm hid w Hsrc Htgt)
    as (Heq & Hs2 & Ht2 & Htg2 & Hfs2 & Hsfs & Htfs).
  cbv zeta in Heq. rewrite Heq in *. clear Heq.
  set (cid := (begin_history c hid w).2) in *.
  set (w2 := with_target _ _) in *.
  set (st := if dm then _ else _) in *.
  destruct (finish_history_world E cid st) as (Fst & _).
  cbv zeta in Fst. rewrite Fst in *.
  destruct (copy_loop_follows_plan E c cid (target_files E w2) w (source_files E w2)
              {| st_world := w2; st_stats := stats0 |} HF)
    as (P1 & P2 & P3 & P4).
  { by apply files_list_NoDup. }
  { intros p q Hp Hq. rewrite Hsfs in Hp, Hq. by apply Hbak. }
  { intros p Hp. rewrite Hsfs in Hp. by apply elem_of_source_files in Hp as [? _]. }
  { done. }
  { intros p _. cbn [st_world]. split; [apply Ht2|by rewrite Hfs2]. }
  cbv zeta in P1, P2, P3, P4. fold (copy_pass E c cid w2) in P1, P2, P3, P4.
  cbn [st_stats stats0 copied updated skipped errors] in P1, P2, P3, P4.
  rewrite Hsfs, Htfs in P1, P2, P3.
  destruct (copy_loop_counts E c cid (target_files E w2) (source_files E w2)
              {| st_world := w2; st_stats := stats0 |}) as [_ Pd].
  cbv zeta in Pd. fold (copy_pass E c cid w2) in Pd. cbn [st_stats stats0 deleted] in Pd.
  assert (Hst : copied (st_stats st) = copied (st_stats (copy_pass E c cid w2))
              ∧ updated (st_stats st) = updated (st_stats (copy_pass E c cid w2))
              ∧ skipped (st_stats st) = skipped (st_stats (copy_pass E c cid w2))
              ∧ (deleted (st_stats st)
                 ≤ length (filter (λ q, q ∉ source_files E w) (target_files E w)))%nat).
  { subst st. destruct dm; [|split_and!; [done..|lia]]. unfold delete_pass.
    destruct (delete_loop_counts E c cid (source_files E w2)
                (list_to_set (get_file_states c (db (st_world (copy_pass E c cid w2)))).*1)
                (target_files E w2) (copy_pass E c cid w2))
      as (D1 & D2 & D3 & D4 & D5 & D6).
    cbv zeta in D1, D2, D3, D4, D5, D6.
    split_and!; [done..|]. rewrite <- Hsfs, <- Htfs. lia. }
  destruct Hst as (-> & -> & -> & Hdel). rewrite P1, P2, P3.
  destruct (preview_lengths E c w Hsrc) as (-> & -> & -> & ->).
  by split_and!.
Qed.

Lemma preview_sorts_every_file_witness :
  let pv := preview_sync quiet 1 clobber_world in
  (∀ p, p ∈ source_files quiet clobber_world ↔
        p ∈ fi_path <$> to_copy pv ∨ p ∈ fi_path <$> to_update pv
        ∨ p ∈ fi_path <$> to_skip pv)
  ∧ (length (to_copy pv) + length (to_update pv) + length (to_skip pv))%nat
    = length (source_files quiet clobber_world)
  ∧ fi_path <$> to_delete pv
    = filter (λ q, q ∉ source_files quiet clobber_world)
        (target_files quiet clobber_world)
  ∧ preview_errors pv = 0%nat.
Proof.
  apply (preview_sorts_every_file quiet 1 clobber_world).
  exists {[ "x.txt" := new_report ]}. reflexivity.
Defined.

Lemma preview_predicts_the_run_witness :
  let s := st_stats (sync_folders quiet 1 true None clobber_world) in
  let pv := preview_sync quiet 1 clobber_world in
  copied s = length (to_copy pv)
  ∧ updated s = length (to_update pv)
  ∧ skipped s = length (to_skip pv)
  ∧ errors s = 0%nat
  ∧ (deleted s ≤ length (to_delete pv))%nat.
Proof.
  apply (preview_predicts_the_run quiet 1 true None clobber_world).
  - apply walk_sorted_ok. reflexivity.
  - split; [reflexivity|]. intros p. repeat split.
  - exists {[ "x.txt" := new_report ]}. reflexivity.
  - intros p q Hp Hq.
    assert (Hl : source_files quiet clobber_world = ["x.txt"])
      by (vm_compute; reflexivity).
    rewrite Hl in Hp, Hq.
    apply list_elem_of_singleton in Hp. apply list_elem_of_singleton in Hq.
    rewrite Hp, Hq. apply not_eq_sym, backup_name_ne.
Defined.

Lemma need_update_without_row w c0 c p :
  file_states (db w) !! (c0, p) = None →
  _need_update w c0 p = true → _need_update w c p = true.
Proof.
  intros Hrow. unfold _need_update. rewrite !lookup_get_file_states, Hrow.
  destruct (read_source w p); [|done]. destruct (read_target w p); [|done].
  destruct (negb (st_size _ =? st_size _)); [done|].
  destruct (st_mtime _ <? st_mtime _); [done|].
  destruct (negb (String.eqb _ _)); [done|]. done.
Qed.

(** [compare_folders] asks [_need_update] with the configuration id -1,
    for which [file_states] has no rows, so it compares contents only:
    its lists of files on one side only are those of the preview, every
    file it calls different is one the preview lists for update, and every
    file the preview would skip it calls identical.  A file whose row
    carries another hash is identical for the comparison and still listed
    for update. *)
Theorem comparison_ignores_file_states E c w :
  is_Some (source w) →
  (∀ p, file_states (db w) !! (-1, p) = None) →
  let cmp := compare_folders E w in
  let pv := preview_sync E c w in
  only_in_source cmp = fi_path <$> to_copy pv
  ∧ only_in_target cmp = fi_path <$> to_delete pv
  ∧ (∀ p, p ∈ different cmp → p ∈ fi_path <$> to_update pv)
  ∧ (∀ p, p ∈ fi_path <$> to_skip pv → p ∈ identical cmp).
Proof.
  intros Hsrc Hrows. cbv zeta.
  destruct (preview_paths E c w Hsrc) as (-> & -> & -> & ->).
  unfold compare_folders. cbn [only_in_source only_in_target different identical].
  fold (source_files E w) (target_files E w).
  split_and!; [done|done| |].
  - intros p. rewrite !list_elem_of_filter. intros [[Hin Hnu] Hp].
    split; [|done]. split; [done|].
    by apply (need_update_without_row w (-1) c p (Hrows p)).
  - intros p. rewrite !list_elem_of_filter. intros [[Hin Hnu] Hp].
    split; [|done]. split; [done|].
    destruct (_need_update w (-1) p) eqn:Hm; [|done].
    apply (need_update_without_row w (-1) c p (Hrows p)) in Hm. congruence.
Qed.

Lemma comparison_ignores_file_states_witness :
  let cmp := compare_folders quiet clobber_world in
  let pv := preview_sync quiet 1 clobber_world in
  only_in_source cmp = fi_path <$> to_copy pv
  ∧ only_in_target cmp = fi_path <$> to_delete pv
  ∧ (∀ p, p ∈ different cmp → p ∈ fi_path <$> to_update pv)
  ∧ (∀ p, p ∈ fi_path <$> to_skip pv → p ∈ identical cmp).
Proof.
  apply (comparison_ignores_file_states quiet 1 clobber_world).
  - exists {[ "x.txt" := new_report ]}. reflexivity.
  - intros p. apply lookup_empty.
Defined.

(** [delete_pass_needs_file_state] on a run that removes the tracked
    file [old.txt]. *)
Lemma delete_pass_needs_file_state_witness :
  true = true ∧ "old.txt" ∈ target_files quiet stale_target_world
  ∧ ("old.txt" ∉ source_files quiet stale_target_world)
  ∧ is_Some (file_states (db stale_target_world) !! (1, "old.txt")).
Proof.
  apply (delete_pass_needs_file_state quiet 1 true None stale_target_world
           [EvSkipped "a.txt"; EvRemoved "old.txt"; EvFileStateDelete 1 "old.txt"]
           "old.txt").
  - vm_compute. reflexivity.
  - apply list_elem_of_In. simpl. auto.
Defined.

End EngineTheory.


(* ===================================================================== *)
(** * The service: runs that end early *)
(* ===================================================================== *)

Module ServiceCases.
Import Paths Database Local Examples.
Import DatabaseTheory LocalTheory ReconcilerTheory ServiceTheory.

Lemma source_files_no_source E w : source w = None → source_files E w = [].
Proof. unfold source_files. by intros ->. Qed.

(** A local run whose source folder does not exist is reported as a
    success: [sync_folders] returns its counters with no error counted,
    so [sync_config] answers [True]; the history row says 'error'; the
    destination is left alone; and [update_file_states], which walks the
    missing folder as empty, deletes every [file_states] row of the
    configuration. *)
Theorem missing_source_is_reported_as_success E c cfg tp w :
  get_sync_config c (db w) = Some cfg →
  target_type cfg = "local" → target_path cfg = Some tp →
  source w = None →
  let r := Service.sync_config E c w in
  r.2 = true
  ∧ target r.1 = target w
  ∧ (∀ p, file_states (db r.1) !! (c, p) = None)
  ∧ sync_history (db r.1)
    = sync_history (db w)
      ++ [set_status_message "error" MsgSourceMissing
            (new_row c "running" MsgServiceStart None)]
  ∧ sync_file_operations (db r.1) = sync_file_operations (db w).
Proof.
  intros Hcfg Hty Htp Hsrc. unfold Service.sync_config.
  rewrite Hcfg, Hty, Htp. unfold add_sync_history. cbv zeta beta iota.
  change ("local" =? "local")%string with true. cbv iota.
  set (row := new_row c "running" MsgServiceStart None).
  set (w1 := with_db (with_sync_history (sync_history (db w) ++ [row]) (db w)) w).
  cbn [fst snd].
  assert (Hst : sync_folders (Service.local_env E) c (delete_missing cfg)
                  (Some (S (length (sync_history (db w))))) w1
                = {| st_world := with_db (update_sync_history
                                   (S (length (sync_history (db w))))
                                   (set_status_message "error" MsgSourceMissing)
                                   (db w1)) w1;
                     st_stats := stats0 |}).
  { rewrite sync_folders_unfold. cbv zeta. unfold begin_history. cbn [fst snd].
    unfold w1 at 1. unfold with_db at 1. cbn [source]. by rewrite Hsrc. }
  rewrite Hst. cbn [st_world st_stats].
  set (w2 := with_db _ w1).
  destruct (update_file_states_spec (Service.local_env E) c w2)
    as (U1 & U2 & U3 & U4 & U5 & _ & U7 & _).
  set (w3 := update_file_states (Service.local_env E) c w2) in *.
  assert (Hh : sync_history (db w3)
               = sync_history (db w) ++ [set_status_message "error" MsgSourceMissing row]).
  { rewrite U4. unfold w2, w1, with_db, update_sync_history, with_sync_history.
    cbn [db sync_history]. apply alter_snoc. }
  unfold get_sync_history_record. rewrite Hh.
  rewrite lookup_app_r by lia. rewrite Nat.sub_diag. cbn [lookup list_lookup].
  rewrite (bool_decide_eq_false_2 (_ ∈ _)).
  2: { cbn. intros H. apply elem_of_cons in H as [H|H]; [done|].
       apply elem_of_cons in H as [H|H]; [done|]. by apply elem_of_nil in H. }
  cbn [fst snd]. split_and!.
  - done.
  - by rewrite U2.
  - intros p. apply U7. rewrite source_files_no_source; [apply not_elem_of_nil|].
    unfold w2, w1, with_db. by cbn [source].
  - done.
  - rewrite U5. unfold w2, w1, with_db. cbn [db].
    by destruct (update_sync_history_spec (S (length (sync_history (db w))))
                   (set_status_message "error" MsgSourceMissing)
                   (with_sync_history (sync_history (db w) ++ [row]) (db w)))
      as (_ & _ & ->).
Qed.

Lemma missing_source_is_reported_as_success_witness :
  let r := Service.sync_config (local_only quiet) 1 no_source_world in
  r.2 = true
  ∧ target r.1 = target no_source_world
  ∧ (∀ p, file_states (db r.1) !! (1, p) = None)
  ∧ sync_history (db r.1)
    = sync_history (db no_source_world)
      ++ [set_status_message "error" MsgSourceMissing
            (new_row 1 "running" MsgServiceStart None)]
  ∧ sync_file_operations (db r.1) = sync_file_operations (db no_source_world).
Proof.
  apply (missing_source_is_reported_as_success (local_only quiet) 1 local_config
           "/backup" no_source_world); reflexivity.
Defined.

(** A local run that cannot create the destination folder counts one
    error and stops before the loops: [sync_config] answers [False], the
    destination still does not exist, and the one history row of the run
    says 'error'. *)
Theorem target_folder_failure_fails_the_run E c cfg tp w :
  get_sync_config c (db w) = Some cfg →
  target_type cfg = "local" → target_path cfg = Some tp →
  is_Some (source w) → target w = None →
  makedirs_target_fails (Service.local_env E) = true →
  let r := Service.sync_config E c w in
  r.2 = false
  ∧ target r.1 = None
  ∧ sync_history (db r.1)
    = sync_history (db w)
      ++ [set_status_message "error" MsgTargetFolderFailed
            (new_row c "running" MsgServiceStart None)]
  ∧ sync_file_operations (db r.1) = sync_file_operations (db w).
Proof.
  intros Hcfg Hty Htp [ts Hsrc] Htgt Hmk. unfold Service.sync_config.
  rewrite Hcfg, Hty, Htp. unfold add_sync_history. cbv zeta beta iota.
  change ("local" =? "local")%string with true. cbv iota.
  set (row := new_row c "running" MsgServiceStart None).
  set (w1 := with_db (with_sync_history (sync_history (db w) ++ [row]) (db w)) w).
  cbn [fst snd].
  assert (Hst : sync_folders (Service.local_env E) c (delete_missing cfg)
                  (Some (S (length (sync_history (db w))))) w1
                = {| st_world := with_db (update_sync_history
                                   (S (length (sync_history (db w))))
                                   (set_status_message "error" MsgTargetFolderFailed)
                                   (db w1)) w1;
                     st_stats := incr_errors stats0 |}).
  { rewrite sync_folders_unfold. cbv zeta. unfold begin_history. cbn [fst snd].
    assert (Hs1 : source w1 = Some ts) by done.
    assert (Ht1 : target w1 = None) by done.
    rewrite Hs1, (bool_decide_eq_true_2 (target w1 = None)) by done.
    by rewrite Hmk. }
  rewrite Hst. cbn [st_world st_stats].
  set (w2 := with_db _ w1).
  destruct (update_file_states_spec (Service.local_env E) c w2)
    as (U1 & U2 & U3 & U4 & U5 & _).
  set (w3 := update_file_states (Service.local_env E) c w2) in *.
  assert (Hh : sync_history (db w3)
               = sync_history (db w)
                 ++ [set_status_message "error" MsgTargetFolderFailed row]).
  { rewrite U4. unfold w2, w1, with_db, update_sync_history, with_sync_history.
    cbn [db sync_history]. apply alter_snoc. }
  unfold get_sync_history_record. rewrite Hh.
  rewrite lookup_app_r by lia. rewrite Nat.sub_diag. cbn [lookup list_lookup].
  rewrite (bool_decide_eq_false_2 (_ ∈ _)).
  2: { cbn. intros H. apply elem_of_cons in H as [H|H]; [done|].
       apply elem_of_cons in H as [H|H]; [done|]. by apply elem_of_nil in H. }
  cbn [fst snd]. split_and!.
  - done.
  - rewrite U2. unfold w2, w1, with_db. by cbn [target].
  - done.
  - rewrite U5. unfold w2, w1, with_db. cbn [db].
    by destruct (update_sync_history_spec (S (length (sync_history (db w))))
                   (set_status_message "error" MsgTargetFolderFailed)
                   (with_sync_history (sync_history (db w) ++ [row]) (db w)))
      as (_ & _ & ->).
Qed.

Lemma target_folder_failure_fails_the_run_witness :
  let r := Service.sync_config (local_only cannot_create_target) 1 no_target_world in
  r.2 = false
  ∧ target r.1 = None
  ∧ sync_history (db r.1)
    = sync_history (db no_target_world)
      ++ [set_status_message "error" MsgTargetFolderFailed
            (new_row 1 "running" MsgServiceStart None)]
  ∧ sync_file_operations (db r.1) = sync_file_operations (db no_target_world).
Proof.
  apply (target_folder_failure_fails_the_run (local_only cannot_create_target) 1
           local_config "/backup" no_target_world); try reflexivity.
  vm_compute. eauto.
Defined.

(** A configuration the service cannot run, a local one without a
    target path or one whose target type it does not know, costs one
    history row with status 'failed' and nothing else: no folder, no
    [file_states] row and no operation record changes, and the answer is
    [False]. *)
Theorem unusable_configuration_fails_cleanly E c cfg w :
  get_sync_config c (db w) = Some cfg →
  (target_type cfg = "local" ∧ target_path cfg = None)
  ∨ (target_type cfg ≠ "local" ∧ target_type cfg ∉ Service.remote_types) →
  Service.sync_config E c w
  = (with_db (with_sync_history
                (sync_history (db w)
                 ++ [set_status_message_end "failed" MsgServiceError
                       (utcnow (Service.local_env E))
                       (new_row c "running" MsgServiceStart None)])
                (db w)) w,
     false).
Proof.
  intros Hcfg Hbad. unfold Service.sync_config. rewrite Hcfg.
  unfold add_sync_history. cbv zeta beta iota.
  destruct Hbad as [[Hty Htp]|[Hty Hrem]].
  - rewrite Hty, Htp. change ("local" =? "local")%string with true. cbv iota.
    f_equal. unfold with_db, update_sync_history, with_sync_history.
    cbn [db sync_history source target events sync_configs file_states
         sync_file_operations].
    by rewrite alter_snoc.
  - apply String.eqb_neq in Hty. rewrite Hty.
    rewrite bool_decide_eq_false_2 by done.
    f_equal. unfold with_db, update_sync_history, with_sync_history.
    cbn [db sync_history source target events sync_configs file_states
         sync_file_operations].
    by rewrite alter_snoc.
Qed.

Lemma unusable_configuration_fails_cleanly_witness :
  Service.sync_config (local_only quiet) 1 typo_world
  = (with_db (with_sync_history
                (sync_history (db typo_world)
                 ++ [set_status_message_end "failed" MsgServiceError
                       (utcnow (Service.local_env (local_only quiet)))
                       (new_row 1 "running" MsgServiceStart None)])
                (db typo_world)) typo_world,
     false).
Proof.
  apply (unusable_configuration_fails_cleanly (local_only quiet) 1
           ftp_typo_config typo_world).
  - reflexivity.
  - right. split; [done|]. vm_compute. intros H.
    repeat (apply elem_of_cons in H as [H|H]; [discriminate H|]).
    by apply elem_of_nil in H.
Defined.

End ServiceCases.


(* ===================================================================== *)
(** * The file monitor: debounce and readiness *)
(* ===================================================================== *)

Module MonitorCases.
Import Paths Database Local Examples Monitor.
Import DatabaseTheory LocalTheory ServiceTheory MonitorTheory SchedulerTheory EngineTheory.

Lemma debounce_step dt ev le :
  let r := _handle_event_with_debounce dt ev le in
  (r.2 = true →
     r.1 = <[event_key ev := ev_timestamp ev]> le
     ∧ ∀ t0, le !! event_key ev = Some t0 → t0 + dt ≤ ev_timestamp ev)
  ∧ (r.2 = false → r.1 = le).
Proof.
  cbv zeta. unfold _handle_event_with_debounce.
  destruct (le !! event_key ev) as [t|] eqn:Hl.
  - destruct (ev_timestamp ev - t <? dt) eqn:Hd; simpl.
    + by split.
    + split; [|done]. intros _. split; [done|]. intros t0 [= <-].
      apply Z.ltb_ge in Hd. lia.
  - simpl. split; [|done]. intros _. by split.
Qed.

Lemma handled_after_record dt : 0 ≤ dt → ∀ evs le h t0,
  h ∈ (process_events dt evs le).1 →
  le !! event_key h = Some t0 → t0 + dt ≤ ev_timestamp h.
Proof.
  intros Hdt. induction evs as [|ev rest IH]; intros le h t0 Hh Hl; simpl in Hh.
  { by apply elem_of_nil in Hh. }
  destruct (debounce_step dt ev le) as [Hy Hn].
  destruct (_handle_event_with_debounce dt ev le) as [le1 ok]. simpl in Hy, Hn.
  specialize (IH le1 h).
  destruct (process_events dt rest le1) as [hs le'] eqn:Hp. simpl in *.
  destruct ok.
  - destruct (Hy eq_refl) as [-> Hrec].
    apply elem_of_cons in Hh as [->|Hh]; [by apply Hrec|].
    destruct (decide (event_key ev = event_key h)) as [Hk|Hk].
    + rewrite Hk in *. specialize (IH (ev_timestamp ev)).
      rewrite lookup_insert_eq in IH. specialize (IH Hh eq_refl).
      specialize (Hrec _ Hl). lia.
    + apply (IH t0 Hh). by rewrite lookup_insert_ne.
  - rewrite (Hn eq_refl) in *. by apply (IH t0).
Qed.

(** Whatever the order and the times of arrival, any two events of the
    same type on the same path that both went on to [_handle_event] are at
    least [debounce_time] apart. *)
Theorem handled_events_are_spaced dt evs le i j e1 e2 :
  0 ≤ dt →
  (i < j)%nat →
  (process_events dt evs le).1 !! i = Some e1 →
  (process_events dt evs le).1 !! j = Some e2 →
  event_key e1 = event_key e2 →
  dt ≤ ev_timestamp e2 - ev_timestamp e1.
Proof.
  intros Hdt. revert le i j.
  induction evs as [|ev rest IH]; intros le i j Hij H1 H2 Hk; simpl in *.
  { by rewrite lookup_nil in H1. }
  destruct (debounce_step dt ev le) as [Hy Hn].
  destruct (_handle_event_with_debounce dt ev le) as [le1 ok]. simpl in Hy, Hn.
  pose proof (handled_after_record dt Hdt rest le1) as HA.
  specialize (IH le1).
  destruct (process_events dt rest le1) as [hs le'] eqn:Hp. simpl in *.
  destruct ok; [|by eapply IH].
  destruct (Hy eq_refl) as [-> _].
  destruct i as [|i]; destruct j as [|j]; try lia; simpl in *.
  - injection H1 as <-.
    assert (ev_timestamp ev + dt ≤ ev_timestamp e2); [|lia].
    apply (HA e2).
    + by eapply list_elem_of_lookup_2.
    + rewrite <- Hk. apply lookup_insert_eq.
  - apply (IH i j); [lia|done..].
Qed.

Lemma handled_events_are_spaced_witness :
  let evs := [ {| ev_type := "modified"; ev_src_path := "/data/x.txt"; ev_timestamp := 0 |};
               {| ev_type := "modified"; ev_src_path := "/data/x.txt"; ev_timestamp := 2 |};
               {| ev_type := "modified"; ev_src_path := "/data/x.txt"; ev_timestamp := 7 |} ] in
  5 ≤ 7 - 0.
Proof.
  intros evs.
  apply (handled_events_are_spaced 5 evs ∅ 0 1
           {| ev_type := "modified"; ev_src_path := "/data/x.txt"; ev_timestamp := 0 |}
           {| ev_type := "modified"; ev_src_path := "/data/x.txt"; ev_timestamp := 7 |});
    [lia | lia | reflexivity | reflexivity | reflexivity].
Defined.

Lemma clear_old_events_lookup now age le k :
  clear_old_events now age le !! k
  = le !! k ≫= λ t, if decide (age < now - t) then None else Some t.
Proof.
  unfold clear_old_events. rewrite foldl_delete_keys.
  destruct (le !! k) as [t|] eqn:Hl; simpl.
  - destruct (decide (age < now - t)) as [Hd|Hd].
    + rewrite bool_decide_eq_true_2; [done|].
      apply list_elem_of_fmap. exists (k, t). split; [done|].
      apply list_elem_of_filter. split; [done|]. by apply elem_of_map_to_list.
    + rewrite bool_decide_eq_false_2; [done|].
      intros ([k' t'] & -> & Hin)%list_elem_of_fmap.
      apply list_elem_of_filter in Hin as [Hold Hin].
      apply elem_of_map_to_list in Hin. simpl in *. by simplify_eq.
  - rewrite bool_decide_eq_false_2; [done|].
    intros ([k' t'] & -> & Hin)%list_elem_of_fmap.
    apply list_elem_of_filter in Hin as [Hold Hin].
    apply elem_of_map_to_list in Hin. simpl in *. by simplify_eq.
Qed.

(** Forgetting the old entries of [last_events] changes no decision of
    the debounce, as long as the entries forgotten are older than the
    debounce time: an event that arrives after the clean-up is passed on
    or dropped as it would have been without it. *)
Theorem clearing_old_events_keeps_decisions dt now age ev le :
  dt ≤ age → now ≤ ev_timestamp ev →
  (_handle_event_with_debounce dt ev (clear_old_events now age le)).2
  = (_handle_event_with_debounce dt ev le).2.
Proof.
  intros Hage Hnow. unfold _handle_event_with_debounce.
  rewrite clear_old_events_lookup.
  destruct (le !! event_key ev) as [t|]; simpl; [|done].
  destruct (decide (age < now - t)) as [Hd|Hd]; simpl.
  - destruct (ev_timestamp ev - t <? dt) eqn:Hlt; [|done].
    apply Z.ltb_lt in Hlt. lia.
  - by destruct (ev_timestamp ev - t <? dt).
Qed.

Lemma clearing_old_events_keeps_decisions_witness :
  let ev := {| ev_type := "modified"; ev_src_path := "/data/x.txt";
               ev_timestamp := 100000 |} in
  let le : gmap (string * string) Z := {[ ("modified", "/data/x.txt") := 3 ]} in
  (_handle_event_with_debounce 5 ev (clear_old_events 90000 86400 le)).2
  = (_handle_event_with_debounce 5 ev le).2.
Proof.
  intros ev le.
  apply (clearing_old_events_keeps_decisions 5 90000 86400 ev le); simpl; lia.
Defined.

Lemma observe_ready c p ts k stat m w :
  let r := observe c p ts k stat m w in
  ready r.2 = true →
  file_states (db r.1.2) = <[(c, p) := pending_row stat]> (file_states (db w))
  ∧ source r.1.2 = Some (<[p := stat]> (default ∅ (source w)))
  ∧ target r.1.2 = target w
  ∧ sync_history (db r.1.2)
    = sync_history (db w) ++ [new_row c "pending" (MsgDetected p) (Some ts)].
Proof.
  cbv zeta. unfold observe.
  destruct k; unfold _handle_file_created, _handle_file_modified,
    get_sync_config, read_source; simpl;
    rewrite lookup_insert_eq;
    (destruct (sync_configs (db w) !! c) as [cfg|]; simpl; [|done]);
    (destruct (st_size stat =? 0); simpl; [done|]);
    (destruct (file_sizes m !! (c, p)) as [last|]; simpl; [|done]);
    (destruct (last =? st_size stat); simpl; done).
Qed.

Lemma need_update_stale_row w c p f row :
  read_source w p = Some f →
  file_states (db w) !! (c, p) = Some row → file_hash row ≠ Some (md5 f) →
  _need_update w c p = true.
Proof.
  intros Hf Hrow Hne. unfold _need_update. rewrite Hf.
  destruct (read_target w p) as [t|]; [|done].
  destruct (negb (st_size f =? st_size t)); [done|].
  destruct (st_mtime t <? st_mtime f); [done|].
  destruct (negb (String.eqb (md5 f) (md5 t))); [done|].
  rewrite lookup_get_file_states, Hrow. cbn.
  by rewrite bool_decide_eq_false_2.
Qed.

(** The body of the copy loop copies a file that is new in the
    destination or needs an update, when neither the creation of its
    folder nor the copy fails. *)
Lemma step_transfers E c hid tfs st p f :
  read_source (st_world st) p = Some f →
  makedirs_fails E p = false → copy_fails E p = false →
  (p ∈ tfs → _need_update (st_world st) c p = true) →
  ∃ evs, events (st_world (sync_source_file E c hid tfs st p))
         = events (st_world st) ++ evs
       ∧ EvCopied p ∈ evs
       ∧ file_states (db (st_world (sync_source_file E c hid tfs st p))) !! (c, p)
         = Some (synced_row f).
Proof.
  intros Hf Hmk Hcf Hnu.
  destruct (sync_source_file_cases E c hid tfs st p) as (_ & Hcases).
  cbv zeta in Hcases.
  assert (Hrow : file_states (db (st_world (sync_source_file E c hid tfs st p))) !! (c, p)
                 = Some (synced_row f)).
  { destruct Hcases as [(_ & _ & Hwhy & _)|[(_ & Hin & Hno & _)|
                          (f' & Hf' & _ & _ & _ & Hfs & _)]].
    - destruct Hwhy as [?|[?|?]]; congruence.
    - rewrite (Hnu Hin) in Hno. done.
    - rewrite Hfs, lookup_insert_eq. congruence. }
  clear Hcases.
  unfold sync_source_file in *. rewrite Hmk in *.
  pose proof (copy_file_spec E p st) as (evs & Hev & Hsrc & _ & _ & Hok).
  pose proof (copy_file_target E p st) as (_ & Hres). cbv zeta in Hres.
  assert (Hcopy : (_copy_file E p st).1 = true).
  { destruct (_copy_file E p st).1; [done|]. destruct Hres as [_ [?|?]]; congruence. }
  assert (Hlog : ∀ op w, read_source w p = Some f →
            events (log_operation hid op p (_update_file_state_in_db c p "synced" w))
            = events w ++ [EvFileStateUpsert c p "synced"]).
  { intros op w Hw. unfold _update_file_state_in_db. rewrite Hw.
    unfold log_operation. by destruct hid. }
  destruct (_copy_file E p st) as [ok st1]. cbn [fst snd] in *. subst ok.
  destruct Hok as (Hin & _).
  assert (Hf1 : read_source (st_world st1) p = Some f)
    by (unfold read_source in *; by rewrite Hsrc).
  exists (evs ++ [EvFileStateUpsert c p "synced"]).
  split_and!; [|apply elem_of_app; by left|done].
  destruct (negb (bool_decide (p ∈ tfs))) eqn:Htfs.
  - unfold on_world, on_stats. cbn [st_world].
    by rewrite (Hlog _ _ Hf1), Hev, app_assoc.
  - apply negb_false_iff, bool_decide_eq_true in Htfs. rewrite (Hnu Htfs).
    unfold on_world, on_stats. cbn [st_world].
    by rewrite (Hlog _ _ Hf1), Hev, app_assoc.
Qed.

(** The copy loop reaches a listed file whose row carries another hash
    than the file's, and copies it. *)
Lemma copy_loop_transfers E c hid tfs p f l : ∀ st,
  NoDup l → p ∈ l →
  read_source (st_world st) p = Some f →
  makedirs_fails E p = false → copy_fails E p = false →
  (∃ row, file_states (db (st_world st)) !! (c, p) = Some row
          ∧ file_hash row ≠ Some (md5 f)) →
  let st' := foldl (sync_source_file E c hid tfs) st l in
  ∃ evs, events (st_world st') = events (st_world st) ++ evs
       ∧ EvCopied p ∈ evs
       ∧ file_states (db (st_world st')) !! (c, p) = Some (synced_row f).
Proof.
  induction l as [|x l IH]; intros st Hnd Hp Hf Hmk Hcf (row & Hrow & Hne); cbv zeta.
  { by apply elem_of_nil in Hp. }
  apply NoDup_cons in Hnd as [Hx Hnd]. cbn [foldl].
  destruct (decide (x = p)) as [->|Hxp].
  - destruct (step_transfers E c hid tfs st p f Hf Hmk Hcf) as (e1 & He1 & Hin & Hr1).
    { intros _. by eapply need_update_stale_row. }
    destruct (copy_loop_advances E c hid tfs l (sync_source_file E c hid tfs st p))
      as (e2 & (He2 & _) & _).
    exists (e1 ++ e2). split_and!.
    + by rewrite He2, He1, app_assoc.
    + apply elem_of_app. by left.
    + by rewrite copy_loop_rows.
  - apply elem_of_cons in Hp as [->|Hp]; [done|].
    destruct (sync_source_file_advances E c hid tfs st x)
      as (e1 & (He1 & Hs1 & _) & _ & _ & Hr1).
    destruct (IH (sync_source_file E c hid tfs st x) Hnd Hp) as (e2 & He2 & Hin & Hr2).
    + unfold read_source in *. by rewrite Hs1.
    + done.
    + done.
    + exists row. rewrite Hr1 by congruence. done.
    + cbv zeta in He2, Hr2. exists (e1 ++ e2). split_and!.
      * by rewrite He2, He1, app_assoc.
      * apply elem_of_app. by right.
      * done.
Qed.

(** A file the monitor has marked as ready is transferred by the next
    run, even when the destination already holds an identical copy: the
    'pending' row has no hash, [_need_update] answers [True] for a row
    whose hash differs from the file's, and a run that lists the file (the
    walk leaves hidden files and the files of hidden folders out) and
    reaches its loops copies it, if neither the creation of its folder nor
    the copy fails; the run leaves the 'synced' row of the file. *)
Theorem pending_file_is_transferred_again E c dm hid p ts k stat m w :
  let r := observe c p ts k stat m w in
  ready r.2 = true →
  listdir_ok E → hidden p = false →
  (target w = None → makedirs_target_fails E = false) →
  makedirs_fails E p = false → copy_fails E p = false →
  let st := sync_folders E c dm hid r.1.2 in
  _need_update r.1.2 c p = true
  ∧ (∃ evs, events (st_world st) = events r.1.2 ++ evs ∧ EvCopied p ∈ evs)
  ∧ file_states (db (st_world st)) !! (c, p) = Some (synced_row stat).
Proof.
  intros r Hr HE Hh Htgt Hmk Hcf st.
  destruct (observe_ready c p ts k stat m w Hr) as (Hfs & Hs & Ht & _).
  fold r in Hfs, Hs, Ht. set (w' := r.1.2) in *.
  assert (Hf : read_source w' p = Some stat).
  { unfold read_source. rewrite Hs. cbn. apply lookup_insert_eq. }
  assert (Hrow : file_states (db w') !! (c, p) = Some (pending_row stat))
    by (rewrite Hfs; apply lookup_insert_eq).
  split; [by eapply need_update_stale_row|].
  assert (Hsrc' : is_Some (source w')) by (rewrite Hs; eauto).
  assert (Htgt' : target w' = None → makedirs_target_fails E = false)
    by (rewrite Ht; exact Htgt).
  destruct (sync_folders_loops E c dm hid w' Hsrc' Htgt')
    as (Heq & Hs2 & _ & _ & Hfs2 & Hsfs & _).
  subst st. rewrite Heq. clear Heq.
  destruct (begin_history_spec c hid w') as (_ & _ & Be & _).
  set (cid := (begin_history c hid w').2) in *.
  set (w2 := with_target _ _) in *.
  assert (Hev2 : events w2 = events w') by exact Be.
  assert (Hin : p ∈ source_files E w2).
  { rewrite Hsfs. apply elem_of_source_files_2; [done|by rewrite Hf|done]. }
  destruct (copy_loop_transfers E c cid (target_files E w2) p stat
              (source_files E w2) {| st_world := w2; st_stats := stats0 |})
    as (e1 & He1 & Hc1 & Hr1).
  { by apply files_list_NoDup. }
  { done. }
  { cbn [st_world]. unfold read_source in *. by rewrite Hs2. }
  { done. }
  { done. }
  { exists (pending_row stat). cbn [st_world]. by rewrite Hfs2. }
  cbv zeta in He1, Hr1. fold (copy_pass E c cid w2) in He1, Hr1.
  cbn [st_world] in He1.
  destruct (finish_history_world E cid
              (if dm then delete_pass E c cid (source_files E w2) (target_files E w2)
                            (copy_pass E c cid w2)
               else copy_pass E c cid w2)) as (_ & _ & _ & Ffs).
  cbv zeta in Ffs. rewrite Ffs.
  assert (Fev : ∀ st0, events (st_world (finish_history E cid st0))
                       = events (st_world st0)) by done.
  rewrite Fev. destruct dm.
  - unfold delete_pass.
    destruct (delete_loop_advances E c cid (source_files E w2)
                (list_to_set (get_file_states c
                   (db (st_world (copy_pass E c cid w2)))).*1)
                (target_files E w2) (copy_pass E c cid w2))
      as (e2 & (He2 & _) & _).
    cbv zeta in He2.
    destruct (delete_loop_frame E c cid (source_files E w2)
                (list_to_set (get_file_states c
                   (db (st_world (copy_pass E c cid w2)))).*1)
                (target_files E w2) p (copy_pass E c cid w2)) as [_ Hr2].
    { by left. }
    cbv zeta in Hr2. split.
    + exists (e1 ++ e2). split.
      * by rewrite He2, He1, Hev2, app_assoc.
      * apply elem_of_app. by left.
    + by rewrite Hr2.
  - split; [|done]. exists e1. split; [by rewrite He1, Hev2|done].
Qed.

(** [pending_file_is_transferred_again] on folders that agree: the
    monitor marks [x.txt] as ready, and the next run copies it again. *)
Lemma pending_file_is_transferred_again_witness :
  let r := observe 1 "x.txt" 0 Modified new_report
             {| file_sizes := {[ (1, "x.txt") := 1 ]}; sync_callback := true |}
             in_sync_world in
  let st := sync_folders quiet 1 true None r.1.2 in
  _need_update r.1.2 1 "x.txt" = true
  ∧ (∃ evs, events (st_world st) = events r.1.2 ++ evs ∧ EvCopied "x.txt" ∈ evs)
  ∧ file_states (db (st_world st)) !! (1, "x.txt") = Some (synced_row new_report).
Proof.
  apply (pending_file_is_transferred_again quiet 1 true None "x.txt" 0 Modified
           new_report
           {| file_sizes := {[ (1, "x.txt") := 1 ]}; sync_callback := true |}
           in_sync_world).
  - reflexivity.
  - apply walk_sorted_ok. reflexivity.
  - reflexivity.
  - intros H. vm_compute in H. discriminate H.
  - reflexivity.
  - reflexivity.
Defined.

Lemma observe_not_ready c p ts k stat m w :
  let r := observe c p ts k stat m w in
  ready r.2 = false → db r.1.2 = db w.
Proof.
  cbv zeta. unfold observe.
  destruct k; unfold _handle_file_created, _handle_file_modified,
    get_sync_config, read_source; simpl;
    rewrite lookup_insert_eq;
    (destruct (sync_configs (db w) !! c) as [cfg|]; simpl; [|done]);
    (destruct (st_size stat =? 0); simpl; [done|]);
    (destruct (file_sizes m !! (c, p)) as [last|]; simpl; [|done]);
    (destruct (last =? st_size stat); simpl; done).
Qed.

(** A file of stable non-zero size is ready at its second observation:
    the first event records the size and starts nothing, the second one
    finds the size unchanged, clears the record, marks the file as pending
    and starts the synchronisation. *)
Theorem stable_size_triggers_on_second_event c p ts ts' k k' stat m w cfg :
  get_sync_config c (db w) = Some cfg →
  sync_callback m = true →
  st_size stat ≠ 0 →
  file_sizes m !! (c, p) = None →
  let r1 := observe c p ts k stat m w in
  let r2 := observe c p ts' k' stat r1.1.1 r1.1.2 in
  triggered r1.2 = false
  ∧ db r1.1.2 = db w
  ∧ triggered r2.2 = true
  ∧ file_sizes r2.1.1 = file_sizes m
  ∧ file_states (db r2.1.2) !! (c, p) = Some (pending_row stat).
Proof.
  intros Hcfg Hcb Hnz Hnone. cbv zeta.
  pose proof (observe_spec c p ts k stat m w) as (A1 & A2 & A3 & A4 & A5).
  cbv zeta in A1, A2, A3, A4, A5.
  rewrite Hcfg in A3, A5. rewrite bool_decide_eq_true_2 in A3, A5 by eauto.
  apply Z.eqb_neq in Hnz. rewrite Hnz, Hnone in A3.
  rewrite bool_decide_eq_false_2 in A3 by done. simpl in A3.
  rewrite A3 in A4, A5. simpl in A4, A5.
  pose proof (observe_not_ready c p ts k stat m w A3) as Hdb.
  destruct (observe c p ts k stat m w) as [[m1 w1] v1]. simpl in *.
  pose proof (observe_spec c p ts' k' stat m1 w1) as (B1 & B2 & B3 & B4 & B5).
  cbv zeta in B1, B2, B3, B4, B5.
  unfold get_sync_config in B3, B5, Hcfg. rewrite Hdb, Hcfg in B3, B5.
  rewrite bool_decide_eq_true_2 in B3, B5 by eauto.
  rewrite A5, lookup_insert_eq in B3.
  rewrite bool_decide_eq_true_2, orb_true_r in B3 by done. simpl in B3.
  rewrite B3, A1, Hcb in B4. rewrite B3 in B5. simpl in B4, B5.
  pose proof (observe_ready c p ts' k' stat m1 w1 B3) as (C1 & _).
  destruct (observe c p ts' k' stat m1 w1) as [[m2 w2] v2]. simpl in *.
  split_and!; [done..| |].
  - rewrite B5, A5. rewrite delete_insert_eq. by apply delete_id.
  - rewrite C1. apply lookup_insert_eq.
Qed.

Lemma stable_size_triggers_on_second_event_witness :
  let m := {| file_sizes := ∅; sync_callback := true |} in
  let r1 := observe 1 "x.txt" 0 Created new_report m in_sync_world in
  let r2 := observe 1 "x.txt" 6 Modified new_report r1.1.1 r1.1.2 in
  triggered r1.2 = false
  ∧ db r1.1.2 = db in_sync_world
  ∧ triggered r2.2 = true
  ∧ file_sizes r2.1.1 = file_sizes m
  ∧ file_states (db r2.1.2) !! (1, "x.txt") = Some (pending_row new_report).
Proof.
  apply (stable_size_triggers_on_second_event 1 "x.txt" 0 6 Created Modified
           new_report {| file_sizes := ∅; sync_callback := true |} in_sync_world
           local_config); done.
Defined.

(** The size record of a file outlives its deletion: [_handle_file_deleted]
    does not touch [file_sizes], so when the file comes back with the
    recorded size, its first event already starts a synchronisation. *)
Theorem size_record_survives_deletion c p ts ts' k stat m w cfg :
  get_sync_config c (db w) = Some cfg →
  sync_callback m = true →
  file_sizes m !! (c, p) = Some (st_size stat) →
  let r1 := _handle_file_deleted c p ts m w in
  let r2 := observe c p ts' k stat r1.1.1 r1.1.2 in
  file_states (db r1.1.2) !! (c, p) = None
  ∧ file_sizes r1.1.1 !! (c, p) = Some (st_size stat)
  ∧ triggered r2.2 = true.
Proof.
  intros Hcfg Hcb Hrec. cbv zeta. unfold _handle_file_deleted. cbn [fst snd].
  split_and!.
  - unfold add_sync_history, with_db, emit, delete_file_state, with_file_states,
      with_sync_history. cbn [db file_states fst]. apply lookup_delete_eq.
  - done.
  - pose proof (observe_spec c p ts' k stat m
                  (with_db (add_sync_history c "pending" (MsgDetected p) (Some ts)
                     (db (emit (EvFileStateDelete c p)
                            (with_db (delete_file_state c p (db w)) w)))).1
                     (emit (EvFileStateDelete c p)
                        (with_db (delete_file_state c p (db w)) w))))
      as (_ & _ & B3 & B4 & _).
    cbv zeta in B3, B4. rewrite B4, B3, Hcb, Hrec.
    rewrite (bool_decide_eq_true_2 (Some _ = Some _)) by done.
    rewrite orb_true_r, !andb_true_r.
    apply bool_decide_eq_true_2. unfold get_sync_config in *.
    unfold add_sync_history, with_db, emit, delete_file_state, with_file_states,
      with_sync_history. cbn [db sync_configs fst]. eauto.
Qed.

Lemma size_record_survives_deletion_witness :
  let m := {| file_sizes := {[ (1, "x.txt") := 1 ]}; sync_callback := true |} in
  let r1 := _handle_file_deleted 1 "x.txt" 0 m in_sync_world in
  let r2 := observe 1 "x.txt" 9 Created new_report r1.1.1 r1.1.2 in
  file_states (db r1.1.2) !! (1, "x.txt") = None
  ∧ file_sizes r1.1.1 !! (1, "x.txt") = Some (st_size new_report)
  ∧ triggered r2.2 = true.
Proof.
  apply (size_record_survives_deletion 1 "x.txt" 0 9 Created new_report
           {| file_sizes := {[ (1, "x.txt") := 1 ]}; sync_callback := true |}
           in_sync_world local_config); done.
Defined.

End MonitorCases.


(* ===================================================================== *)
(** * The scheduler: queue, timeouts, schedule values, the lock *)
(* ===================================================================== *)

Module SchedulerCases.
Import Paths Database Local Examples PyInt Scheduler.
Import DatabaseTheory LocalTheory SchedulerTheory.

(** The capacity and duplicate checks look at [active_tasks], never at
    the queue: two ticks for the same configuration that arrive before
    the worker takes the first are both queued, in order of arrival. *)
Theorem ticks_before_the_worker_queue_twice now now' c s :
  active_tasks s !! c = None →
  (size (active_tasks s) < max_concurrent_tasks s)%nat →
  task_queue (_enqueue_sync_task now' c (_enqueue_sync_task now c s))
  = task_queue s ++ [Some (sync_task now c); Some (sync_task now' c)].
Proof.
  intros Hc Hk.
  assert (Hstep : ∀ t s0, active_tasks s0 !! c = None →
            (size (active_tasks s0) < max_concurrent_tasks s0)%nat →
            _enqueue_sync_task t c s0
            = log Info (LogEnqueued c)
                (with_task_queue (task_queue s0 ++ [Some (sync_task t c)]) s0)).
  { intros t s0 H0 H1. unfold _enqueue_sync_task.
    rewrite bool_decide_eq_false_2 by (rewrite H0; by intros [? ?]).
    apply Nat.leb_gt in H1. by rewrite H1. }
  rewrite (Hstep now s Hc Hk).
  rewrite Hstep by done. simpl. by rewrite <- app_assoc.
Qed.

Lemma ticks_before_the_worker_queue_twice_witness :
  task_queue (_enqueue_sync_task midnight 1
                (_enqueue_sync_task midnight 1 (with_running true init)))
  = task_queue (with_running true init)
    ++ [Some (sync_task midnight 1); Some (sync_task midnight 1)].
Proof.
  apply (ticks_before_the_worker_queue_twice midnight midnight 1
           (with_running true init)).
  - reflexivity.
  - vm_compute. lia.
Defined.

(** [run_sync_now] answers [True] exactly when it appended the task to
    the queue; when it answers [False] the queue is as before.  It never
    touches [active_tasks]: a task becomes active only when the worker
    takes it. *)
Theorem run_sync_now_answers_whether_queued now c d s :
  let r := run_sync_now now c d s in
  (r.1 = true ↔ task_queue r.2 = task_queue s ++ [Some (sync_task now c)])
  ∧ (r.1 = false ↔ task_queue r.2 = task_queue s)
  ∧ (r.1 = true ↔ running s = true ∧ is_Some (get_sync_config c d)
                   ∧ active_tasks s !! c = None
                   ∧ (size (active_tasks s) < max_concurrent_tasks s)%nat)
  ∧ active_tasks r.2 = active_tasks s.
Proof.
  assert (Hneq : ∀ (q : list (option task)) x, q ++ [x] ≠ q).
  { intros q x Hq. apply (f_equal length) in Hq. rewrite length_app in Hq.
    simpl in Hq. lia. }
  cbv zeta. unfold run_sync_now.
  destruct (running s) eqn:Hrun; simpl.
  2:{ split_and!; [split;[done|]|done|split;[done|]|done].
      - intros Hq. symmetry in Hq. by apply Hneq in Hq.
      - by intros [? _]. }
  destruct (get_sync_config c d) as [cfg|]; simpl.
  2:{ split_and!; [split;[done|]|done|split;[done|]|done].
      - intros Hq. symmetry in Hq. by apply Hneq in Hq.
      - intros (_ & [? ?] & _). done. }
  destruct (bool_decide (is_Some (active_tasks s !! c))) eqn:Ha; simpl.
  { apply bool_decide_eq_true in Ha.
    split_and!; [split;[done|]|done|split;[done|]|done].
    - intros Hq. symmetry in Hq. by apply Hneq in Hq.
    - intros (_ & _ & Hn & _). rewrite Hn in Ha. by destruct Ha. }
  apply bool_decide_eq_false in Ha.
  destruct (max_concurrent_tasks s <=? size (active_tasks s))%nat eqn:Hk; simpl.
  { apply Nat.leb_le in Hk.
    split_and!; [split;[done|]|done|split;[done|]|done].
    - intros Hq. symmetry in Hq. by apply Hneq in Hq.
    - intros (_ & _ & _ & Hlt). lia. }
  apply Nat.leb_gt in Hk.
  split_and!; [done|split;[done|]|split;[|done]|done].
  - intros Hq. by apply Hneq in Hq.
  - intros _. split_and!; [done|eauto| |done]. by apply eq_None_not_Some.
Qed.

Lemma late_tasks now s c :
  c ∈ (filter (λ kv : Z * task_info,
                 task_timeout s < seconds now - seconds (start_time kv.2))
              (map_to_list (active_tasks s))).*1
  ↔ ∃ ti, active_tasks s !! c = Some ti
          ∧ task_timeout s < seconds now - seconds (start_time ti).
Proof.
  split.
  - intros ([c' ti] & -> & Hin)%list_elem_of_fmap.
    apply list_elem_of_filter in Hin as [Hlate Hin].
    apply elem_of_map_to_list in Hin. eauto.
  - intros (ti & Hc & Hlate). apply list_elem_of_fmap. exists (c, ti).
    split; [done|]. apply list_elem_of_filter. split; [done|].
    by apply elem_of_map_to_list.
Qed.

Lemma late_tasks_NoDup now s :
  NoDup (filter (λ kv : Z * task_info,
                   task_timeout s < seconds now - seconds (start_time kv.2))
                (map_to_list (active_tasks s))).*1.
Proof.
  assert (Hnd : NoDup (map_to_list (active_tasks s)).*1)
    by apply NoDup_fst_map_to_list.
  revert Hnd. generalize (map_to_list (active_tasks s)).
  induction l as [|x l IH]; intros Hnd; [constructor|].
  rewrite fmap_cons in Hnd. apply NoDup_cons in Hnd as [Hx Hnd].
  destruct (decide (task_timeout s < seconds now - seconds (start_time x.2))).
  - rewrite filter_cons_True by done. rewrite fmap_cons. apply NoDup_cons.
    split; [|by apply IH]. intros Hin. apply Hx.
    apply list_elem_of_fmap in Hin as (y & -> & Hy).
    apply list_elem_of_filter in Hy as [_ Hy].
    apply list_elem_of_fmap. eauto.
  - rewrite filter_cons_False by done. by apply IH.
Qed.

(** What a pass of [check_task_timeouts] leaves in [active_tasks]. *)
Lemma sweep_removes_late now s w c :
  active_tasks (check_task_timeouts now s w).1 !! c
  = active_tasks s !! c ≫= λ ti,
      if decide (task_timeout s < seconds now - seconds (start_time ti))
      then None else Some ti.
Proof.
  unfold check_task_timeouts. cbn [fst active_tasks with_active_tasks].
  rewrite foldl_delete_keys.
  destruct (active_tasks s !! c) as [ti|] eqn:Hc; simpl.
  - destruct (decide _) as [Hlate|Hnot].
    + rewrite bool_decide_eq_true_2; [done|]. apply late_tasks. eauto.
    + rewrite bool_decide_eq_false_2; [done|]. intros (ti' & ? & ?)%late_tasks.
      apply Hnot. congruence.
  - rewrite bool_decide_eq_false_2; [done|]. intros (ti' & ? & ?)%late_tasks.
    congruence.
Qed.

(** The first loop of [_check_task_timeouts]: it touches the log and the
    history only; it writes one 'timeout' row for each task of a prefix
    of the list, all of them tasks whose configuration exists, and it
    gets through exactly when every task of the list has one. *)
Lemma record_timeouts_spec now (l : list (Z * task_info)) : ∀ s w,
  let r := record_timeouts now l s w in
  task_queue r.1.1 = task_queue s
  ∧ active_tasks r.1.1 = active_tasks s
  ∧ file_states (db r.1.2) = file_states (db w)
  ∧ sync_configs (db r.1.2) = sync_configs (db w)
  ∧ target r.1.2 = target w
  ∧ (r.2 = true ↔ ∀ kv, kv ∈ l → is_Some (get_sync_config kv.1 (db w)))
  ∧ ∃ written,
      written `prefix_of` l
      ∧ (r.2 = true → written = l)
      ∧ (∀ kv, kv ∈ written → is_Some (get_sync_config kv.1 (db w)))
      ∧ sync_history (db r.1.2)
        = sync_history (db w)
          ++ ((λ kv : Z * task_info,
                 new_row kv.1 "timeout" MsgTimeout (Some (seconds now)))
                <$> written).
Proof.
  induction l as [|x l IH]; intros s w; cbv zeta.
  { cbn. split_and!; try done.
    - split; [|done]. intros _ kv Hkv. by apply elem_of_nil in Hkv.
    - exists []. split_and!; try done.
      + intros kv Hkv. by apply elem_of_nil in Hkv.
      + by rewrite app_nil_r. }
  cbn [record_timeouts].
  destruct (get_sync_config x.1 (db w)) as [cfg|] eqn:Hx.
  - destruct (IH (log Warning (LogTimeout x.1) s)
                (with_db (add_sync_history x.1 "timeout" MsgTimeout
                            (Some (seconds now)) (db w)).1 w))
      as (A1 & A2 & A3 & A4 & A5 & A6 & written & B1 & B2 & B3 & B4).
    cbv zeta in A1, A2, A3, A4, A5, A6, B2, B4.
    split_and!; try done.
    + rewrite A6. split.
      * intros Hall kv Hkv. apply elem_of_cons in Hkv as [->|Hkv]; [by rewrite Hx|].
        by apply Hall.
      * intros Hall kv Hkv. apply Hall, elem_of_cons. by right.
    + exists (x :: written). split_and!.
      * by apply prefix_cons.
      * intros Hok. by rewrite (B2 Hok).
      * intros kv Hkv. apply elem_of_cons in Hkv as [->|Hkv]; [by rewrite Hx|].
        by apply B3.
      * rewrite B4. rewrite fmap_cons. cbn. by rewrite <- app_assoc.
  - cbn. split_and!; try done.
    + split; [done|]. intros Hall.
      destruct (Hall x) as [? Hsome]; [apply elem_of_cons; by left|]. congruence.
    + exists []. split_and!; try done.
      * apply prefix_nil.
      * intros kv Hkv. by apply elem_of_nil in Hkv.
      * by rewrite app_nil_r.
Qed.

(** One pass of the timeout thread.  It never touches the queue, the
    folders or [file_states], and every row it writes is a 'timeout' row
    of a task that ran longer than [task_timeout] and whose configuration
    exists, one row at most for a task.  When every such task has its
    configuration, a task stays in [active_tasks] exactly when it has not
    run too long, and each task removed has its row.  When the
    configuration of one of them is gone, the INSERT of its row raises:
    no task is removed, not even the others that ran too long, and the
    pass ends with the error in the log. *)
Theorem timeout_sweep_removes_late_tasks now s w :
  let r := _check_task_timeouts now s w in
  let late := λ ti : task_info, task_timeout s < seconds now - seconds (start_time ti) in
  let known := ∀ c ti, active_tasks s !! c = Some ti → late ti →
                       is_Some (get_sync_config c (db w)) in
  task_queue r.1 = task_queue s
  ∧ file_states (db r.2) = file_states (db w)
  ∧ target r.2 = target w
  ∧ (∃ rows, sync_history (db r.2) = sync_history (db w) ++ rows
       ∧ Forall (λ row, h_status row = "timeout") rows
       ∧ NoDup (h_config_id <$> rows)
       ∧ (∀ c, c ∈ h_config_id <$> rows →
            is_Some (get_sync_config c (db w))
            ∧ ∃ ti, active_tasks s !! c = Some ti ∧ late ti)
       ∧ (known → ∀ c ti, active_tasks s !! c = Some ti → late ti →
            c ∈ h_config_id <$> rows))
  ∧ (known → ∀ c, active_tasks r.1 !! c
                  = active_tasks s !! c ≫= λ ti,
                      if decide (late ti) then None else Some ti)
  ∧ (¬ known → active_tasks r.1 = active_tasks s
               ∧ last (logged r.1) = Some (Error, LogTimeoutCheckFailed)).
Proof.
  cbv zeta. unfold _check_task_timeouts.
  set (l := filter _ (map_to_list (active_tasks s))).
  pose proof (late_tasks now s) as Hl. fold l in Hl.
  pose proof (late_tasks_NoDup now s) as Hnd. fold l in Hnd.
  destruct (record_timeouts_spec now l s w)
    as (A1 & A2 & A3 & A4 & A5 & A6 & written & B1 & B2 & B3 & B4).
  cbv zeta in A1, A2, A3, A4, A5, A6, B2, B4.
  assert (Hknown : (∀ kv, kv ∈ l → is_Some (get_sync_config kv.1 (db w)))
                   ↔ ∀ c ti, active_tasks s !! c = Some ti →
                       task_timeout s < seconds now - seconds (start_time ti) →
                       is_Some (get_sync_config c (db w))).
  { split.
    - intros Hall c ti Hc Hlate.
      apply (Hall (c, ti)). apply list_elem_of_filter. split; [done|].
      by apply elem_of_map_to_list.
    - intros Hall [c ti] Hin. apply list_elem_of_filter in Hin as [Hlate Hin].
      apply elem_of_map_to_list in Hin. by eapply Hall. }
  assert (Hids : h_config_id <$> ((λ kv : Z * task_info,
                    new_row kv.1 "timeout" MsgTimeout (Some (seconds now))) <$> written)
                 = written.*1).
  { rewrite <- list_fmap_compose. by apply list_fmap_ext. }
  assert (Hrows : ∃ rows, sync_history (db (record_timeouts now l s w).1.2)
                          = sync_history (db w) ++ rows
       ∧ Forall (λ row, h_status row = "timeout") rows
       ∧ NoDup (h_config_id <$> rows)
       ∧ (∀ c, c ∈ h_config_id <$> rows →
            is_Some (get_sync_config c (db w))
            ∧ ∃ ti, active_tasks s !! c = Some ti
                    ∧ task_timeout s < seconds now - seconds (start_time ti))
       ∧ ((∀ c ti, active_tasks s !! c = Some ti →
             task_timeout s < seconds now - seconds (start_time ti) →
             is_Some (get_sync_config c (db w))) →
          ∀ c ti, active_tasks s !! c = Some ti →
            task_timeout s < seconds now - seconds (start_time ti) →
            c ∈ h_config_id <$> rows)).
  { eexists. split; [exact B4|]. rewrite Hids.
    destruct B1 as [rest Hrest]. split_and!.
    - apply Forall_fmap, Forall_forall. done.
    - rewrite Hrest, fmap_app in Hnd. by apply NoDup_app in Hnd as [? _].
    - intros c ([c' ti] & -> & Hin)%list_elem_of_fmap. split; [by apply B3|].
      apply Hl. rewrite Hrest, fmap_app. apply elem_of_app. left.
      apply list_elem_of_fmap. by exists (c', ti).
    - intros Hall c ti Hc Hlate.
      rewrite (B2 (proj2 A6 (proj2 Hknown Hall))). apply Hl. eauto. }
  destruct (record_timeouts now l s w) as [[s1 w1] ok] eqn:Hrec.
  cbn [fst snd] in *.
  destruct ok; cbn [fst snd task_queue with_active_tasks active_tasks log logged].
  - split_and!; try done.
    + intros _ c. rewrite A2. fold l.
      pose proof (sweep_removes_late now s w c) as Hsw.
      unfold check_task_timeouts in Hsw.
      cbn [fst active_tasks with_active_tasks] in Hsw. exact Hsw.
    + intros Hno. exfalso. apply Hno. apply Hknown, A6. done.
  - split_and!; try done.
    + intros Hall. pose proof (proj2 A6 (proj2 Hknown Hall)). done.
    + intros _. split; [done|]. apply last_snoc.
Qed.



Lemma parse_two_digit_pairs (h m : nat) :
  (h < 100)%nat → (m < 100)%nat →
  parse_hour_minute (hh_mm h m) = Some (Z.of_nat h, Z.of_nat m).
Proof.
  intros Hh Hm.
  assert (Hall : forallb (λ h, forallb (λ m,
            bool_decide (parse_hour_minute (hh_mm h m)
                         = Some (Z.of_nat h, Z.of_nat m)))
            (seq 0 100)) (seq 0 100) = true) by (vm_compute; reflexivity).
  rewrite forallb_forall in Hall.
  specialize (Hall h). rewrite in_seq in Hall.
  specialize (Hall ltac:(lia)). rewrite forallb_forall in Hall.
  specialize (Hall m). rewrite in_seq in Hall.
  specialize (Hall ltac:(lia)). by apply bool_decide_eq_true in Hall.
Qed.

(** The job of a custom schedule is registered for 00:00 whatever the
    value says.  If the [schedule] library runs a job in the minute it is
    registered for, the check of a custom schedule with any other time of
    day never succeeds: such a schedule is accepted and never fires. *)
Theorem custom_schedule_fires_only_for_midnight now c (h m : nat) s j :
  (h < 24)%nat → (m < 60)%nat →
  0 ≤ hour now < 24 → 0 ≤ minute now < 60 →
  add_schedule_job c "custom" (hh_mm h m) = Some j →
  at_time j = Some (hh_mm (Z.to_nat (hour now)) (Z.to_nat (minute now))) →
  (h, m) ≠ (0%nat, 0%nat) →
  run_job now (action j) s = s.
Proof.
  intros Hh Hm Hhn Hmn Hj Hat Hne.
  assert (Hj' : j = {| interval := 1; unit := "day"; at_time := Some "00:00";
                       action := CheckCustomSync c (hh_mm h m) |}).
  { unfold add_schedule_job in Hj.
    change ("custom" =? "interval")%string with false in Hj.
    change ("custom" =? "daily")%string with false in Hj.
    change ("custom" =? "weekly")%string with false in Hj.
    change ("custom" =? "monthly")%string with false in Hj.
    change ("custom" =? "custom")%string with true in Hj.
    cbv iota in Hj. congruence. }
  subst j. cbn [at_time] in Hat.
  assert (Hp : parse_hour_minute "00:00"
               = parse_hour_minute (hh_mm (Z.to_nat (hour now)) (Z.to_nat (minute now))))
    by congruence.
  rewrite parse_two_digit_pairs in Hp by lia.
  change (parse_hour_minute "00:00") with (Some (0, 0)) in Hp.
  assert (Hh0 : hour now = 0) by (injection Hp; lia).
  assert (Hm0 : minute now = 0) by (injection Hp; lia).
  cbn [action run_job]. unfold _check_custom_sync.
  rewrite parse_two_digit_pairs by lia. rewrite Hh0, Hm0.
  destruct (0 =? Z.of_nat h) eqn:E1; [|done].
  destruct (0 =? Z.of_nat m) eqn:E2; [|done].
  apply Z.eqb_eq in E1, E2. exfalso. apply Hne. f_equal; lia.
Qed.

Lemma custom_schedule_fires_only_for_midnight_witness :
  run_job midnight (CheckCustomSync 1 (hh_mm 9 30)) (with_running true init)
  = with_running true init.
Proof.
  apply (custom_schedule_fires_only_for_midnight midnight 1 9 30
           (with_running true init)
           {| interval := 1; unit := "day"; at_time := Some "00:00";
              action := CheckCustomSync 1 (hh_mm 9 30) |});
    first [ (simpl; lia) | reflexivity | discriminate ].
Defined.

(** Replacing a schedule never returns: [add_schedule] holds the lock
    when it calls [remove_schedule] for a configuration that already has
    a schedule, and [remove_schedule] takes the same lock.  A call from a
    thread that does not hold the lock returns in every other case. *)
Theorem add_schedule_waits_for_itself accepts c ty v d s :
  add_schedule accepts false c ty v d s = None
  ↔ running s = true ∧ is_Some (get_sync_config c d)
    ∧ is_Some (schedules s !! c).
Proof.
  unfold add_schedule, with_lock, remove_schedule.
  destruct (running s); cbn [negb].
  2:{ split; [done|]. by intros [? _]. }
  destruct (get_sync_config c d) as [cfg|].
  2:{ split; [done|]. by intros (_ & [? ?] & _). }
  destruct (bool_decide (is_Some (schedules s !! c))) eqn:Hs.
  - apply bool_decide_eq_true in Hs. split; [|done]. intros _. eauto.
  - apply bool_decide_eq_false in Hs. split; [|by intros (_ & _ & ?)].
    destruct (add_schedule_job c ty v) as [j|]; [|done].
    by destruct (accepts j).
Qed.

Lemma in_cons_decide (c c0 : Z) (l : list Z) {A} (x y : A) :
  (if bool_decide (c ∈ c0 :: l) then x else y)
  = if decide (c = c0) then x else if bool_decide (c ∈ l) then x else y.
Proof.
  destruct (decide (c = c0)) as [->|Hne].
  - by rewrite bool_decide_eq_true_2 by (apply elem_of_cons; by left).
  - destruct (decide (c ∈ l)).
    + rewrite !bool_decide_eq_true_2; [done..|]. apply elem_of_cons. by right.
    + rewrite !bool_decide_eq_false_2; [done..|]. intros [?|?]%elem_of_cons; done.
Qed.

Lemma remove_phase l : ∀ s,
  ∃ s1,
    foldl (λ os config_id, os ≫= λ s, snd <$> remove_schedule false config_id s)
      (Some s) l = Some s1
    ∧ running s1 = running s
    ∧ ∀ c, schedules s1 !! c
           = if bool_decide (c ∈ l) then None else schedules s !! c.
Proof.
  induction l as [|c0 l IH]; intros s.
  { exists s. split_and!; [done|done|]. intros c.
    by rewrite bool_decide_eq_false_2 by apply not_elem_of_nil. }
  cbn [foldl mbind option_bind]. unfold remove_schedule at 2, with_lock.
  destruct (bool_decide (is_Some (schedules s !! c0))) eqn:Hc0;
    cbn [fmap option_fmap option_map snd].
  - destruct (IH (with_schedules (delete c0 (schedules s)) s)) as (s1 & H1 & H2 & H3).
    exists s1. split_and!; [done|done|]. intros c.
    rewrite H3, in_cons_decide. cbn [schedules with_schedules].
    destruct (decide (c = c0)) as [->|Hne].
    + rewrite lookup_delete_eq. by destruct (bool_decide (c0 ∈ l)).
    + by rewrite lookup_delete_ne.
  - apply bool_decide_eq_false in Hc0.
    destruct (IH s) as (s1 & H1 & H2 & H3).
    exists s1. split_and!; [done|done|]. intros c.
    rewrite H3, in_cons_decide.
    destruct (decide (c = c0)) as [->|Hne]; [|done].
    destruct (bool_decide (c0 ∈ l)); [done|]. by apply eq_None_not_Some.
Qed.

Lemma add_schedule_fresh accepts c ty v d s :
  schedules s !! c = None →
  ∃ b s', add_schedule accepts false c ty v d s = Some (b, s')
    ∧ running s' = running s
    ∧ schedules s' !! c = new_schedule accepts c ty v d s
    ∧ ∀ c', c' ≠ c → schedules s' !! c' = schedules s !! c'.
Proof.
  intros Hc. unfold add_schedule, with_lock, new_schedule.
  destruct (running s) eqn:Hrun; cbn [negb andb].
  2:{ exists false, s. by split_and!. }
  destruct (get_sync_config c d) as [cfg|] eqn:Hcfg.
  2:{ exists false, s. rewrite bool_decide_eq_false_2 by (by intros [? ?]).
      by split_and!. }
  rewrite (bool_decide_eq_true_2 (is_Some (Some cfg))) by eauto.
  rewrite bool_decide_eq_false_2 by (rewrite Hc; by intros [? ?]).
  destruct (add_schedule_job c ty v) as [j|]; [|exists false, s; by split_and!].
  destruct (accepts j); [|exists false, s; by split_and!].
  eexists true, _. split; [reflexivity|]. cbn [running schedules with_schedules].
  split_and!; [done|apply lookup_insert_eq|].
  intros c' Hne. by rewrite lookup_insert_ne.
Qed.

Lemma add_phase accepts d (existing : gset Z) l : ∀ s,
  NoDup l.*1 →
  (∀ c, c ∈ l.*1 → c ∉ existing → schedules s !! c = None) →
  ∃ s2,
    foldl (λ os (kv : Z * (string * string)),
             os ≫= λ s,
               if bool_decide (kv.1 ∈ existing) then Some s
               else snd <$> add_schedule accepts false kv.1 kv.2.1 kv.2.2 d s)
          (Some s) l = Some s2
    ∧ running s2 = running s
    ∧ (∀ c, c ∉ l.*1 ∨ c ∈ existing → schedules s2 !! c = schedules s !! c)
    ∧ (∀ c ty v, (c, (ty, v)) ∈ l → c ∉ existing →
         schedules s2 !! c = new_schedule accepts c ty v d s).
Proof.
  induction l as [|[c0 [ty0 v0]] l IH]; intros s Hnd Hfresh.
  { exists s. split_and!; try done. intros c ty v Hin. by apply elem_of_nil in Hin. }
  rewrite fmap_cons in Hnd. apply NoDup_cons in Hnd as [Hc0 Hnd]. cbn [fst] in Hc0.
  cbn [foldl mbind option_bind fst snd].
  destruct (bool_decide (c0 ∈ existing)) eqn:Hex.
  - apply bool_decide_eq_true in Hex.
    destruct (IH s Hnd) as (s2 & H1 & H2 & H3 & H4).
    { intros c Hc. apply Hfresh. rewrite fmap_cons. apply elem_of_cons. by right. }
    exists s2. split_and!; [done|done| |].
    + intros c [Hc|Hc]; apply H3; [|by right]. left. intros ?. apply Hc.
      rewrite fmap_cons. apply elem_of_cons. by right.
    + intros c ty v Hin Hne. apply elem_of_cons in Hin as [[= -> -> ->]|Hin]; [done|].
      by apply H4.
  - apply bool_decide_eq_false in Hex.
    destruct (add_schedule_fresh accepts c0 ty0 v0 d s) as (b & s' & Ha & Hr & Hn & Ho).
    { apply Hfresh; [|done]. rewrite fmap_cons. apply elem_of_cons. by left. }
    rewrite Ha. cbn [fmap option_fmap option_map snd].
    destruct (IH s' Hnd) as (s2 & H1 & H2 & H3 & H4).
    { intros c Hc Hne. rewrite Ho by (intros ->; done). apply Hfresh; [|done].
      rewrite fmap_cons. apply elem_of_cons. by right. }
    exists s2. split_and!; [done|by rewrite H2| |].
    + intros c Hc. rewrite H3.
      * apply Ho. intros ->. destruct Hc as [Hc|Hc]; [|done]. apply Hc.
        rewrite fmap_cons. apply elem_of_cons. by left.
      * destruct Hc as [Hc|Hc]; [|by right]. left. intros ?. apply Hc.
        rewrite fmap_cons. apply elem_of_cons. by right.
    + intros c ty v Hin Hne. apply elem_of_cons in Hin as [[= -> -> ->]|Hin].
      * rewrite H3 by (by left). done.
      * rewrite (H4 c ty v Hin Hne). unfold new_schedule. by rewrite Hr.
Qed.

(** [_sync_schedules] always returns: it asks [add_schedule] only for
    configurations that have no schedule, so the lock is never taken
    twice.  Afterwards no configuration outside [desired] has a
    schedule; a configuration that had one keeps it as it was, also when
    [desired] now gives another type or value; and a configuration that
    had none has the schedule [add_schedule] builds from [desired], if
    the scheduler runs, the configuration exists and the job is
    accepted. *)
Theorem sync_schedules_always_returns accepts desired d s :
  ∃ s',
    _sync_schedules accepts desired d s = Some s'
    ∧ (∀ c, desired !! c = None → schedules s' !! c = None)
    ∧ (∀ c, is_Some (desired !! c) → is_Some (schedules s !! c) →
         schedules s' !! c = schedules s !! c)
    ∧ (∀ c ty v, desired !! c = Some (ty, v) → schedules s !! c = None →
         schedules s' !! c = new_schedule accepts c ty v d s).
Proof.
  unfold _sync_schedules.
  destruct (remove_phase (elements (dom (schedules s) ∖ dom desired)) s)
    as (s1 & -> & Hr1 & Hs1).
  assert (Hs1' : ∀ c, schedules s1 !! c
                      = if bool_decide (desired !! c = None) then None
                        else schedules s !! c).
  { intros c. rewrite Hs1. destruct (desired !! c) as [tv|] eqn:Hd.
    - rewrite bool_decide_eq_false_2; [by rewrite bool_decide_eq_false_2|].
      rewrite elem_of_elements, elem_of_difference, !elem_of_dom, Hd.
      intros [_ Hn]. apply Hn. eauto.
    - rewrite (bool_decide_eq_true_2 (None = None)) by done.
      destruct (schedules s !! c) eqn:Hc.
      + rewrite bool_decide_eq_true_2; [done|].
        rewrite elem_of_elements, elem_of_difference, !elem_of_dom, Hd, Hc.
        split; [eauto|]. by intros [? ?].
      + by destruct (bool_decide _). }
  destruct (add_phase accepts d (dom (schedules s)) (map_to_list desired) s1)
    as (s2 & -> & Hr2 & Hkeep & Hnew).
  { apply NoDup_fst_map_to_list. }
  { intros c _ Hc. rewrite Hs1'. apply not_elem_of_dom in Hc. rewrite Hc.
    by destruct (bool_decide _). }
  exists s2. split_and!; [done| | |].
  - intros c Hd. rewrite Hkeep.
    + rewrite Hs1'. by rewrite bool_decide_eq_true_2.
    + left. intros ([c' tv] & -> & Hin)%list_elem_of_fmap.
      apply elem_of_map_to_list in Hin. cbn in Hd. congruence.
  - intros c [tv Hd] Hc. rewrite Hkeep by (right; by apply elem_of_dom).
    rewrite Hs1'. rewrite bool_decide_eq_false_2; [done|]. congruence.
  - intros c ty v Hd Hc. rewrite (Hnew c ty v).
    + unfold new_schedule. by rewrite Hr1.
    + by apply elem_of_map_to_list.
    + by apply not_elem_of_dom.
Qed.

Lemma split_plain sep s : mentions sep s = false → split sep s = [s].
Proof.
  induction s as [|c s IH]; [done|]. simpl.
  intros [Hc Hs]%orb_false_iff. rewrite Hc. by rewrite IH.
Qed.

Lemma split_at_first sep a b :
  mentions sep a = false → split sep (a +:+ String sep b) = a :: split sep b.
Proof.
  induction a as [|c a IH]; simpl.
  - intros _. by rewrite Ascii.eqb_refl.
  - intros [Hc Ha]%orb_false_iff. rewrite Hc. by rewrite IH.
Qed.

Lemma two_digits_plain (n : nat) :
  (n < 100)%nat →
  mentions ","%char (two_digits n) = false ∧ py_int (two_digits n) = Some (Z.of_nat n).
Proof.
  intros Hn.
  assert (Hall : forallb (λ n, negb (mentions ","%char (two_digits n))
                               && bool_decide (py_int (two_digits n) = Some (Z.of_nat n)))
                   (seq 0 100) = true) by (vm_compute; reflexivity).
  rewrite forallb_forall in Hall. specialize (Hall n).
  rewrite in_seq in Hall. specialize (Hall ltac:(lia)).
  apply andb_true_iff in Hall as [H1 H2].
  apply negb_true_iff in H1. by apply bool_decide_eq_true in H2.
Qed.

Lemma hh_mm_plain (h m : nat) :
  (h < 100)%nat → (m < 100)%nat → mentions ","%char (hh_mm h m) = false.
Proof.
  intros Hh Hm.
  assert (Hall : forallb (λ h, forallb (λ m, negb (mentions ","%char (hh_mm h m)))
                                 (seq 0 100)) (seq 0 100) = true)
    by (vm_compute; reflexivity).
  rewrite forallb_forall in Hall. specialize (Hall h).
  rewrite in_seq in Hall. specialize (Hall ltac:(lia)).
  rewrite forallb_forall in Hall. specialize (Hall m).
  rewrite in_seq in Hall. specialize (Hall ltac:(lia)).
  by apply negb_true_iff in Hall.
Qed.

(** For a schedule of type monthly with the value D,HH:MM,
    [add_schedule] registers a job that runs every day at HH:MM.  A run
    of that job appends the synchronisation task to the queue exactly
    when the day of the month is D and [_enqueue_sync_task] admits the
    task (the configuration is not in [active_tasks] and fewer than
    [max_concurrent_tasks] tasks are active); in every other case the
    queue is as before, and on any other day the scheduler is left
    exactly as it is, so a month without a day D has no run. *)
Theorem monthly_schedule now c (d h m : nat) s :
  (d < 100)%nat → (h < 100)%nat → (m < 100)%nat →
  let s' := run_job now (CheckMonthlySync c (Z.of_nat d)) s in
  let admitted := active_tasks s !! c = None
                  ∧ (size (active_tasks s) < max_concurrent_tasks s)%nat in
  add_schedule_job c "monthly" (two_digits d +:+ "," +:+ hh_mm h m)
  = Some {| interval := 1; unit := "day"; at_time := Some (hh_mm h m);
            action := CheckMonthlySync c (Z.of_nat d) |}
  ∧ (day now = Z.of_nat d ∧ admitted →
       task_queue s' = task_queue s ++ [Some (sync_task now c)])
  ∧ (¬ (day now = Z.of_nat d ∧ admitted) → task_queue s' = task_queue s)
  ∧ (day now ≠ Z.of_nat d → s' = s).
Proof.
  intros Hd Hh Hm. destruct (two_digits_plain d Hd) as [Hd1 Hd2].
  pose proof (hh_mm_plain h m Hh Hm) as Hhm. cbv zeta. split.
  - unfold add_schedule_job.
    change ("monthly" =? "interval")%string with false.
    change ("monthly" =? "daily")%string with false.
    change ("monthly" =? "weekly")%string with false.
    change ("monthly" =? "monthly")%string with true. cbv iota.
    change (two_digits d +:+ "," +:+ hh_mm h m)
      with (two_digits d +:+ String ","%char (hh_mm h m)).
    rewrite split_at_first by done. rewrite split_plain by done.
    by rewrite Hd2.
  - cbn [run_job]. unfold _check_monthly_sync.
    destruct (day now =? Z.of_nat d) eqn:Hday.
    + apply Z.eqb_eq in Hday. split_and!.
      * intros [_ [Hc Hk]]. by rewrite enqueue_admitted.
      * intros Hno. apply enqueue_refused. intros Ha. apply Hno. by split.
      * done.
    + apply Z.eqb_neq in Hday. split_and!; try done. by intros [? _].
Qed.

(** [monthly_schedule] for the value 01,09:30, run on the first of the
    month while nothing runs: the task is queued. *)
Lemma monthly_schedule_witness :
  task_queue (run_job midnight (CheckMonthlySync 1 (Z.of_nat 1))
                (with_running true init))
  = task_queue (with_running true init) ++ [Some (sync_task midnight 1)].
Proof.
  destruct (monthly_schedule midnight 1 1 9 30 (with_running true init))
    as (_ & Hq & _); [lia|lia|lia|].
  apply Hq. split; [reflexivity|].
  split; [reflexivity|]. vm_compute. lia.
Defined.

End SchedulerCases.
